(** * AW-ReAct: recorder, element resolution and script replay

    A shallow embedding of the device-actuation helpers of AW-ReAct:

    - [auto_init_workflow.py]: [RealTimeOperationRecorder] (touch-range
      probe, raw-to-screen transform, keyboard buffer, operation log,
      event lines, touch events, element under a point);
    - [json_script_generator.py] and [real_time_operations_script.py]:
      the generated replay script and the executor methods it calls;
    - [single/audio_recorder_init_steps.py]: resolution of a target by
      content description and by text.

    How the program is modelled:

    - Python integers are [Z]; Python floats are the IEEE binary64
      values of [SpecFloat], with the operations rounded as the
      interpreter rounds them;
    - exceptions are an explicit sum type, and a method of the scripts is
      a function from the state of the run to an outcome and a new state,
      so that what was done before an exception stays done;
    - text is a string of one-byte characters, with the white space,
      digits and letter case of the ASCII range;
    - every reading of the clock is an argument of the function that
      takes it, and the body of the thread that a key event starts is a
      function of its own, run at the clock reading it is given;
    - the device is what the scripts observe of it: the validity of the
      controller, the screen size, the list of elements returned by each
      successive [get_state], and the sequence of actions sent to
      [execute_adb_action];
    - writes to the debug log and log messages have no effect on any of
      the above and are left out. *)

From Stdlib Require Import ZArith QArith Lia Bool List Ascii String.
From Stdlib Require Import Floats.SpecFloat.
From stdpp Require Import base option list strings gmap pretty.

Local Open Scope Z_scope.

(** ** Python values: exceptions, integers, floats, strings *)

Module Py.

(** The exception classes the modelled code raises or catches. *)
Inductive exn : Type :=
  | ZeroDivisionError
  | OverflowError
  | ValueError
  | IndexError
  | RuntimeError
  | SyntaxError.

#[global] Instance exn_eq_dec : EqDecision exn.
Proof. solve_decision. Defined.

(** The outcome of a computation that may raise. *)
Inductive result (A : Type) : Type :=
  | Ok (a : A)
  | Raise (e : exn).
Arguments Ok {A} a.
Arguments Raise {A} e.

#[global] Instance result_ret : MRet result := fun _ a => Ok a.
#[global] Instance result_bind : MBind result := fun _ _ f m =>
  match m with
  | Ok a => f a
  | Raise e => Raise e
  end.

Definition raised {A} (r : result A) : bool :=
  match r with
  | Ok _ => false
  | Raise _ => true
  end.

(** *** Integers and floats *)

(** [a % b] on Python integers: the sign follows the divisor, as for
    [Z.modulo]; a zero divisor raises. *)
Definition mod_ (a b : Z) : result Z :=
  if b =? 0 then Raise ZeroDivisionError else Ok (a mod b).

Definition prec : Z := 53.
Definition emax : Z := 1024.

Definition is_finite (f : spec_float) : bool :=
  match f with
  | S754_zero _ | S754_finite _ _ _ => true
  | S754_infinity _ | S754_nan => false
  end.

(** An integer read as an exact (unnormalised) binary64 operand. *)
Definition exact_int (n : Z) : spec_float :=
  match n with
  | Z0 => S754_zero false
  | Zpos p => S754_finite false p 0
  | Zneg p => S754_finite true p 0
  end.

(** [float(n)]: round to nearest even, [OverflowError] beyond the range. *)
Definition float_of_int (n : Z) : result spec_float :=
  let f := binary_normalize prec emax n 0 false in
  if is_finite f then Ok f else Raise OverflowError.

(** [a / b] on integers: the exact quotient rounded once to binary64. *)
Definition truediv (a b : Z) : result spec_float :=
  if b =? 0 then Raise ZeroDivisionError
  else
    let q := SFdiv prec emax (exact_int a) (exact_int b) in
    if is_finite q then Ok q else Raise OverflowError.

(** [f * n] with a float on the left: the integer is converted first. *)
Definition fmul_int (f : spec_float) (n : Z) : result spec_float :=
  d ← float_of_int n; Ok (SFmul prec emax f d).

(** [int(f)]: truncation toward zero; infinities and NaN raise. *)
Definition int_of_float (f : spec_float) : result Z :=
  match f with
  | S754_zero _ => Ok 0
  | S754_finite s m e =>
      let a := match e with
               | Zneg p => Z.shiftr (Zpos m) (Zpos p)
               | _ => Z.shiftl (Zpos m) e
               end in
      Ok (if s then - a else a)
  | S754_infinity _ => Raise OverflowError
  | S754_nan => Raise ValueError
  end.

Definition float_0 : spec_float := S754_zero false.
Definition float_1 : spec_float :=
  Eval vm_compute in binary_normalize prec emax 1 0 false.

(** [a - b] and [a > b] on floats. *)
Definition fsub (a b : spec_float) : spec_float := SFsub prec emax a b.
Definition fgt (a b : spec_float) : bool := SFltb b a.

(** [n / d] rounded to the nearest integer, ties to even ([0 <= n], [0 < d]). *)
Definition round_half_even (n d : Z) : Z :=
  let q := n / d in
  match 2 * (n mod d) ?= d with
  | Lt => q
  | Gt => q + 1
  | Eq => if Z.even q then q else q + 1
  end.

(** [round(f, 2)]: the exact value of [f] is rounded, ties to even, to a
    multiple of 1/100, which is then read back as a float. *)
Definition round2 (f : spec_float) : spec_float :=
  match f with
  | S754_finite s m (Zneg p) =>
      let n := round_half_even (100 * Zpos m) (2 ^ Zpos p) in
      if n =? 0 then S754_zero s
      else SFdiv prec emax (exact_int (if s then - n else n)) (exact_int 100)
  | _ => f
  end.

(** *** Strings

    Text is modelled as strings of one-byte characters; white space,
    digits and case are those of the ASCII range, on which the functions
    below agree with the [str] methods of the same name. *)

Definition code (c : ascii) : N := N_of_ascii c.

(** [c.isspace()]: TAB, LF, VT, FF, CR, FS, GS, RS, US and the blank. *)
Definition isspace (c : ascii) : bool :=
  ((9 <=? code c) && (code c <=? 13) || (28 <=? code c) && (code c <=? 32))%N.

Definition isdigit_char (c : ascii) : bool :=
  ((48 <=? code c) && (code c <=? 57))%N.

Definition lower_char (c : ascii) : ascii :=
  if ((65 <=? code c) && (code c <=? 90))%N
  then ascii_of_N (code c + 32) else c.

(** [s.lower()]. *)
Fixpoint lower (s : string) : string :=
  match s with
  | EmptyString => EmptyString
  | String c s' => String (lower_char c) (lower s')
  end.

Definition upper_char (c : ascii) : ascii :=
  if ((97 <=? code c) && (code c <=? 122))%N
  then ascii_of_N (code c - 32) else c.

(** [s.upper()]. *)
Fixpoint upper (s : string) : string :=
  match s with
  | EmptyString => EmptyString
  | String c s' => String (upper_char c) (upper s')
  end.

(** [s.lstrip()]. *)
Fixpoint lstrip (s : string) : string :=
  match s with
  | EmptyString => EmptyString
  | String c s' => if isspace c then lstrip s' else s
  end.

(** [s.rstrip()]. *)
Definition rstrip (s : string) : string := String.rev (lstrip (String.rev s)).

(** [s.strip()]. *)
Definition strip (s : string) : string := rstrip (lstrip s).

(** Truth value of a string: non-empty. *)
Definition truthy (s : string) : bool :=
  match s with
  | EmptyString => false
  | String _ _ => true
  end.

(** [needle in hay]: [needle] occurs as a contiguous run of [hay]. *)
Fixpoint contains (needle hay : string) : bool :=
  String.prefix needle hay ||
  match hay with
  | EmptyString => false
  | String _ hay' => contains needle hay'
  end.

(** [s.split()]: the maximal runs of non-space characters, in order.
    [cur] is the run being read, reversed. *)
Fixpoint split_go (cur : string) (s : string) : list string :=
  match s with
  | EmptyString =>
      if truthy cur then [String.rev cur] else []
  | String c s' =>
      if isspace c
      then (if truthy cur then [String.rev cur] else []) ++ split_go EmptyString s'
      else split_go (String c cur) s'
  end.

Definition split (s : string) : list string := split_go EmptyString s.

(** [s.isdigit()]: non-empty and made of decimal digits. *)
Fixpoint all_digits (s : string) : bool :=
  match s with
  | EmptyString => true
  | String c s' => isdigit_char c && all_digits s'
  end.

Definition isdigit (s : string) : bool := truthy s && all_digits s.

(** [int(s)] on a string of decimal digits. *)
Fixpoint int_go (acc : Z) (s : string) : Z :=
  match s with
  | EmptyString => acc
  | String c s' => int_go (10 * acc + (Z.of_N (code c) - 48)) s'
  end.

Definition int_of_digits (s : string) : Z := int_go 0 s.

Definition backslash : ascii := ascii_of_N 92.
Definition dquote : ascii := ascii_of_N 34.
Definition newline : ascii := ascii_of_N 10.
Definition carriage_return : ascii := ascii_of_N 13.

(** [s.replace(c, by)] for a one-character pattern [c]. *)
Fixpoint replace_char (c : ascii) (by_ : string) (s : string) : string :=
  match s with
  | EmptyString => EmptyString
  | String a s' =>
      if Ascii.eqb a c then by_ +:+ replace_char c by_ s'
      else String a (replace_char c by_ s')
  end.

(** The value of the double-quoted literal whose body is [s], for bodies
    that use no escape sequence other than backslash-backslash,
    backslash-quote and backslash-n; [None] when the body ends the
    literal early, runs over a line end or uses another escape. *)
Fixpoint literal_value (s : string) : option string :=
  match s with
  | EmptyString => Some EmptyString
  | String a s' =>
      if Ascii.eqb a backslash then
        match s' with
        | EmptyString => None
        | String b s'' =>
            if Ascii.eqb b backslash then String backslash <$> literal_value s''
            else if Ascii.eqb b dquote then String dquote <$> literal_value s''
            else if Ascii.eqb b "n" then String newline <$> literal_value s''
            else None
        end
      else if Ascii.eqb a dquote || Ascii.eqb a newline || Ascii.eqb a carriage_return
      then None
      else String a <$> literal_value s'
  end.

(** [l[i]] for a non-negative literal index. *)
Definition getitem {A} (l : list A) (i : nat) : result A :=
  match l !! i with
  | Some a => Ok a
  | None => Raise IndexError
  end.

End Py.

Import Py.

(** ** The recorder (auto_init_workflow.py) *)

Module Recorder.

(** *** Coordinate transform *)

(** The screen and touch-device parameters of [RealTimeOperationRecorder]. *)
Record geometry : Type := Geometry {
  _screen_width : Z;
  _screen_height : Z;
  _raw_min_x : Z;
  _raw_max_x : Z;
  _raw_min_y : Z;
  _raw_max_y : Z
}.

(** The values [__init__] assigns before the probe runs. *)
Definition init_geometry : geometry :=
  {| _screen_width := 1080; _screen_height := 2400;
     _raw_min_x := 0; _raw_max_x := 32767;
     _raw_min_y := 0; _raw_max_y := 32767 |}.

Definition clamp (lo hi v : Z) : Z := Z.max lo (Z.min v hi).

(** The float under [int(...)] on one axis of the [try] body:
    [(clamped - raw_min) / (raw_max - raw_min) * screen_dimension]. *)
Definition axis_product (raw raw_min raw_max dim : Z) : result spec_float :=
  let clamped := clamp raw_min raw_max raw in
  q ← truediv (clamped - raw_min) (raw_max - raw_min);
  fmul_int q dim.

(** One axis of the [try] body:
    [int((clamped - raw_min) / (raw_max - raw_min) * screen_dimension)]. *)
Definition scale_axis (raw raw_min raw_max dim : Z) : result Z :=
  p ← axis_product raw raw_min raw_max dim;
  int_of_float p.

(** The [try] body of [_convert_raw_to_screen]. *)
Definition convert_try (g : geometry) (raw_x raw_y : Z) : result (Z * Z) :=
  screen_x ← scale_axis raw_x (_raw_min_x g) (_raw_max_x g) (_screen_width g);
  screen_y ← scale_axis raw_y (_raw_min_y g) (_raw_max_y g) (_screen_height g);
  Ok (clamp 0 (_screen_width g) screen_x, clamp 0 (_screen_height g) screen_y).

(** The [except Exception] handler of [_convert_raw_to_screen]. *)
Definition convert_except (g : geometry) (raw_x raw_y : Z) : result (Z * Z) :=
  screen_x ← mod_ raw_x (_screen_width g);
  screen_y ← mod_ raw_y (_screen_height g);
  Ok (screen_x, screen_y).

Definition _convert_raw_to_screen (g : geometry) (raw_x raw_y : Z)
  : result (Z * Z) :=
  match convert_try g raw_x raw_y with
  | Ok p => Ok p
  | Raise _ => convert_except g raw_x raw_y
  end.

(** *** Touch-range probe *)

Definition set_raw_x (lo hi : Z) (g : geometry) : geometry :=
  {| _screen_width := _screen_width g; _screen_height := _screen_height g;
     _raw_min_x := lo; _raw_max_x := hi;
     _raw_min_y := _raw_min_y g; _raw_max_y := _raw_max_y g |}.

Definition set_raw_y (lo hi : Z) (g : geometry) : geometry :=
  {| _screen_width := _screen_width g; _screen_height := _screen_height g;
     _raw_min_x := _raw_min_x g; _raw_max_x := _raw_max_x g;
     _raw_min_y := lo; _raw_max_y := hi |}.

(** The test guarding both assignments of a matching line:
    [len(parts) >= 5 and parts[3].isdigit() and parts[5].isdigit()],
    followed by [int(parts[3])], [int(parts[5])]. *)
Definition parse_range (line : string) : result (option (Z * Z)) :=
  let parts := split line in
  if (5 <=? length parts)%nat then
    p3 ← getitem parts 3;
    if isdigit p3 then
      p5 ← getitem parts 5;
      if isdigit p5 then Ok (Some (int_of_digits p3, int_of_digits p5))
      else Ok None
    else Ok None
  else Ok None.

(** The loop over [output.splitlines()].  Assignments made before an
    exception stay in place; the exception ends the loop. *)
Fixpoint scan_lines (lines : list string) (g : geometry) : geometry * option exn :=
  match lines with
  | [] => (g, None)
  | l :: rest =>
      let line := strip l in
      if contains "ABS_MT_POSITION_X" line then
        match parse_range line with
        | Raise e => (g, Some e)
        | Ok (Some (lo, hi)) => scan_lines rest (set_raw_x lo hi g)
        | Ok None => scan_lines rest g
        end
      else if contains "ABS_MT_POSITION_Y" line then
        match parse_range line with
        | Raise e => (g, Some e)
        | Ok (Some (lo, hi)) => scan_lines rest (set_raw_y lo hi g)
        | Ok None => scan_lines rest g
        end
      else scan_lines rest g
  end.

(** The two guards after the loop: only the upper end is reset. *)
Definition reset_degenerate (g : geometry) : geometry :=
  let g1 := if _raw_max_x g <=? _raw_min_x g
            then set_raw_x (_raw_min_x g) 32767 g else g in
  if _raw_max_y g1 <=? _raw_min_y g1
  then set_raw_y (_raw_min_y g1) 32767 g1 else g1.

(** [_init_touch_device_bounds].  [probe] is the list of lines of the
    output of [adb shell getevent -p], or [None] when running it raised. *)
Definition _init_touch_device_bounds (probe : option (list string))
    (g : geometry) : geometry :=
  match probe with
  | None => g
  | Some lines =>
      match scan_lines lines g with
      | (g', None) => reset_degenerate g'
      | (g', Some _) => g'
      end
  end.

(** *** The operation log *)

(** The keyword arguments of [_record_operation]: those of a click
    ([action_type=json_action.CLICK], with the index of the element found
    under the point, if any) and those of a text input
    ([action_type=json_action.INPUT_TEXT]).  The [step_desc] strings,
    which only feed the log, are left out. *)
Inductive kwargs : Type :=
  | KwClick (x y raw_x raw_y : Z) (element : option nat)
  | KwInputText (text : string).

(** An entry of [self.operations]: a synthesized wait or a recorded
    operation, each stamped with a time offset. *)
Inductive operation : Type :=
  | WAIT (duration : spec_float) (timestamp : spec_float)
  | Op (timestamp : spec_float) (kw : kwargs).

Definition timestamp_of (o : operation) : spec_float :=
  match o with
  | WAIT _ t => t
  | Op t _ => t
  end.

Definition is_wait (o : operation) : bool :=
  match o with
  | WAIT _ _ => true
  | Op _ _ => false
  end.

(** One entry of [self._keyboard_cache]. *)
Record kb_entry : Type := KbEntry {
  kb_text : string;
  last_input_time : spec_float
}.

(** The mutable fields of [RealTimeOperationRecorder] used below. *)
Record recorder : Type := Rec {
  operations : list operation;
  is_recording : bool;
  start_time : spec_float;
  last_operation_time : spec_float;
  _keyboard_cache : gmap string kb_entry
}.

Definition _input_timeout : spec_float := float_1.

(** The fields as [start_recording] sets them; [now] is its clock reading. *)
Definition start_recording_state (now : spec_float) : recorder :=
  {| operations := []; is_recording := true; start_time := now;
     last_operation_time := float_0; _keyboard_cache := ∅ |}.

(** [_record_operation]; [now] is the value of [time.time()]. *)
Definition _record_operation (now : spec_float) (kw : kwargs) (r : recorder)
  : recorder :=
  let current_time := fsub now (start_time r) in
  let wait_duration := fsub current_time (last_operation_time r) in
  let ops :=
    if fgt wait_duration float_1 && bool_decide (operations r ≠ [])
    then operations r ++ [WAIT (round2 wait_duration) (last_operation_time r)]
    else operations r in
  {| operations := ops ++ [Op current_time kw];
     is_recording := is_recording r;
     start_time := start_time r;
     last_operation_time := current_time;
     _keyboard_cache := _keyboard_cache r |}.

(** [record_text_input(text)]. *)
Definition record_text_input (now : spec_float) (text : string) (r : recorder)
  : recorder :=
  if negb (is_recording r) || negb (truthy (strip text)) then r
  else _record_operation now (KwInputText (strip text)) r.

(** *** Keyboard events *)

Definition _key_mapping : list (string * string) :=
  [("KEY_A", "a"); ("KEY_B", "b"); ("KEY_C", "c"); ("KEY_D", "d");
   ("KEY_E", "e"); ("KEY_F", "f"); ("KEY_G", "g"); ("KEY_H", "h");
   ("KEY_I", "i"); ("KEY_J", "j"); ("KEY_K", "k"); ("KEY_L", "l");
   ("KEY_M", "m"); ("KEY_N", "n"); ("KEY_O", "o"); ("KEY_P", "p");
   ("KEY_Q", "q"); ("KEY_R", "r"); ("KEY_S", "s"); ("KEY_T", "t");
   ("KEY_U", "u"); ("KEY_V", "v"); ("KEY_W", "w"); ("KEY_X", "x");
   ("KEY_Y", "y"); ("KEY_Z", "z");
   ("KEY_1", "1"); ("KEY_2", "2"); ("KEY_3", "3"); ("KEY_4", "4");
   ("KEY_5", "5"); ("KEY_6", "6"); ("KEY_7", "7"); ("KEY_8", "8");
   ("KEY_9", "9"); ("KEY_0", "0");
   ("KEY_SPACE", " "); ("KEY_ENTER", String "010"%char EmptyString)]%string.

(** [self._key_mapping.get(key_code)] with the empty string as default. *)
Fixpoint key_char (table : list (string * string)) (key_code : string) : string :=
  match table with
  | [] => EmptyString
  | (k, c) :: rest => if String.eqb k key_code then c else key_char rest key_code
  end.

(** [s[:-1]]. *)
Definition drop_last (s : string) : string :=
  match String.rev s with
  | EmptyString => EmptyString
  | String _ s' => String.rev s'
  end.

Definition set_cache (c : gmap string kb_entry) (r : recorder) : recorder :=
  {| operations := operations r; is_recording := is_recording r;
     start_time := start_time r; last_operation_time := last_operation_time r;
     _keyboard_cache := c |}.

(** Assignment to [self._keyboard_cache[device_id]["text"]]. *)
Definition set_text (device_id : string) (text : string) (r : recorder) : recorder :=
  set_cache (alter (fun e => KbEntry text (last_input_time e)) device_id
               (_keyboard_cache r)) r.

Definition cached_text (device_id : string) (r : recorder) : string :=
  from_option kb_text EmptyString (_keyboard_cache r !! device_id).

(** [_process_keyboard_event(device_id, (key_code, key_state))].
    [now] is the clock reading taken on entry, [now_rec] the one taken
    by [_record_operation] if the Enter branch records.  The boolean
    tells whether [_check_input_timeout] was reached, that is whether a
    thread running [timeout_callback] was started. *)
Definition _process_keyboard_event (now now_rec : spec_float)
    (device_id key_code key_state : string) (r : recorder) : recorder * bool :=
  let text0 := cached_text device_id r in
  let r1 := set_cache (<[device_id := KbEntry text0 now]> (_keyboard_cache r)) r in
  if String.eqb key_code "KEY_LEFTSHIFT" then (r1, false)
  else if negb (String.eqb key_state "DOWN") then (r1, false)
  else if String.eqb key_code "KEY_BACKSPACE"
  then (set_text device_id (drop_last text0) r1, false)
  else
    let char := key_char _key_mapping key_code in
    let r2 := if truthy char then set_text device_id (text0 +:+ char) r1 else r1 in
    let text2 := cached_text device_id r2 in
    if String.eqb key_code "KEY_ENTER" && truthy (strip text2)
    then (set_text device_id EmptyString (record_text_input now_rec text2 r2), false)
    else (r2, true).

(** The body of the thread started by [_check_input_timeout(device_id)];
    it runs once.  [now] is its clock reading, [now_rec] the one taken
    by [_record_operation] if it records. *)
Definition timeout_callback (now now_rec : spec_float) (device_id : string)
    (r : recorder) : recorder :=
  match _keyboard_cache r !! device_id with
  | None => r
  | Some cache =>
      if truthy (strip (kb_text cache))
         && fgt (fsub now (last_input_time cache)) _input_timeout
      then set_text device_id EmptyString (record_text_input now_rec (kb_text cache) r)
      else r
  end.

End Recorder.

(** ** The device and the executed actions *)

Module Device.

(** Modelled from the spec: [json_action.JSONAction] is imported from the
    environment package and is not part of these sources.  An action is a
    kind with the optional fields the scripts fill in (spec, section 3,
    Action). *)
Inductive action_type : Type := CLICK | LONG_PRESS | INPUT_TEXT | OPEN_APP.

#[global] Instance action_type_eq_dec : EqDecision action_type.
Proof. solve_decision. Defined.

Record JSONAction : Type := Action {
  kind : action_type;
  index : option Z;
  x : option Z;
  y : option Z;
  text : option string;
  clear_text : option bool
}.

Definition click_index (i : Z) : JSONAction :=
  {| kind := CLICK; index := Some i; x := None; y := None;
     text := None; clear_text := None |}.

Definition click_coords (cx cy : option Z) : JSONAction :=
  {| kind := CLICK; index := None; x := cx; y := cy;
     text := None; clear_text := None |}.

Definition long_press_index (i : Z) : JSONAction :=
  {| kind := LONG_PRESS; index := Some i; x := None; y := None;
     text := None; clear_text := None |}.

Definition input_text (t : string) : JSONAction :=
  {| kind := INPUT_TEXT; index := None; x := None; y := None;
     text := Some t; clear_text := Some true |}.

(** An accessibility node, with the two fields that resolution reads.
    A missing attribute, [None] and [False] all read as [None]. *)
Record UIElement : Type := Element {
  elem_text : option string;
  content_description : option string
}.

(** What the scripts observe of an [AsyncAndroidEnv]: whether
    [env.controller] exists with the expected class, the screen size that
    [_get_screen_size] settles on, and the element list of the [n]-th
    call of [env.get_state(wait_to_stabilize=True)], [None] when the call
    raises [AttributeError] or its [ui_elements] is not a list. *)
Record AsyncAndroidEnv : Type := Env {
  controller_valid : bool;
  screen_size : Z * Z;
  get_state : nat -> option (list UIElement)
}.

(** What a run leaves behind, in order. *)
Inductive event : Type :=
  | Exec (a : JSONAction) (screen_elements : list UIElement)
  | Sleep (seconds : Q)
  | Warning.

Record world : Type := World {
  reads : nat;
  trace : list event
}.

Definition initial_world : world := {| reads := 0; trace := [] |}.

(** A script method: it may raise, and what it did before stays done. *)
Definition exec (A : Type) : Type := world -> result A * world.

Definition ret {A} (a : A) : exec A := fun w => (Ok a, w).

Definition bind {A B} (m : exec A) (f : A -> exec B) : exec B := fun w =>
  match m w with
  | (Ok a, w') => f a w'
  | (Raise e, w') => (Raise e, w')
  end.

Definition raise {A} (e : exn) : exec A := fun w => (Raise e, w).

(** [try: m  except e: handler]. *)
Definition try_except {A} (m : exec A) (e : exn) (handler : exec A) : exec A :=
  fun w =>
    match m w with
    | (Raise e', w') => if decide (e' = e) then handler w' else (Raise e', w')
    | r => r
    end.

Definition emit (ev : event) : exec unit := fun w =>
  (Ok tt, {| reads := reads w; trace := trace w ++ [ev] |}).

Notation "m1 ;; m2" := (bind m1 (fun _ => m2))
  (at level 100, m2 at level 200, right associativity).
Notation "a <- m1 ;; m2" := (bind m1 (fun a => m2))
  (at level 100, m1 at next level, m2 at level 200, right associativity).

Definition _get_valid_controller (env : AsyncAndroidEnv) : exec unit :=
  if controller_valid env then ret tt else raise RuntimeError.

Definition _get_screen_size (env : AsyncAndroidEnv) : exec (Z * Z) :=
  ret (screen_size env).

Definition _get_stable_ui_elements (env : AsyncAndroidEnv)
  : exec (list UIElement) := fun w =>
  let w' := {| reads := S (reads w); trace := trace w |} in
  match get_state env (reads w) with
  | Some ui_elements => (Ok ui_elements, w')
  | None => (Raise RuntimeError, w')
  end.

(** Modelled from the spec: [actuation.execute_adb_action] is imported
    from the environment package and is not part of these sources.  It
    emits exactly one primitive device command per action (spec, section
    4.4); its transport failures are not modelled. *)
Definition execute_adb_action (a : JSONAction) (screen_elements : list UIElement)
  : exec unit :=
  emit (Exec a screen_elements).

Definition sleep (seconds : Q) : exec unit := emit (Sleep seconds).
Definition warning : exec unit := emit Warning.

(** The device actions of a trace, in order. *)
Definition executed (tr : list event) : list JSONAction :=
  omap (fun ev => match ev with Exec a _ => Some a | _ => None end) tr.

(** [0 <= index < len(ui_elements)]. *)
Definition in_range (i : Z) (ui_elements : list UIElement) : bool :=
  (0 <=? i) && (i <? Z.of_nat (length ui_elements)).

End Device.

(** ** The replay script (json_script_generator.py,
       real_time_operations_script.py) *)

Module Replay.
Import Device.

(** *** Methods of [TaskOperationExecutor] *)

Definition _click_by_index (env : AsyncAndroidEnv) (i : Z) : exec unit :=
  _get_valid_controller env;;
  _ <- _get_screen_size env;;
  ui_elements <- _get_stable_ui_elements env;;
  if negb (in_range i ui_elements) then raise IndexError
  else
    execute_adb_action (click_index i) ui_elements;;
    sleep 1.5.

Definition _click_by_coords (env : AsyncAndroidEnv) (cx cy : option Z)
  : exec unit :=
  _get_valid_controller env;;
  _ <- _get_screen_size env;;
  ui_elements <- _get_stable_ui_elements env;;
  execute_adb_action (click_coords cx cy) ui_elements;;
  sleep 1.5.

Definition _input_text (env : AsyncAndroidEnv) (t : string) : exec unit :=
  _get_valid_controller env;;
  _ <- _get_screen_size env;;
  ui_elements <- _get_stable_ui_elements env;;
  execute_adb_action (input_text t) ui_elements;;
  sleep 1.

(** *** The generator *)

(** One object of the recorded JSON array, with the keys the generator
    reads.  [op_element] is [None] for a missing or [null] element and
    [Some i] for a dictionary whose ["index"] entry is [i] ([None] when
    it has none). *)
Record json_op : Type := JsonOp {
  op_action_type : string;
  op_element : option (option Z);
  op_x : option Z;
  op_y : option Z;
  op_text : option string;
  op_duration : option Q
}.

(** The statement that [_generate_step_code] writes into [run_operations]
    for one operation.  Comments and log texts are left out. *)
Inductive step : Type :=
  | TryIndexExceptCoords (i : Z) (cx cy : option Z)
  | CoordsOnly (cx cy : option Z)
  | InputTextCall (literal : string)
  | SleepCall (duration : Q)
  | Unsupported (action_type : string).

(** The three chained [replace] calls applied to the text. *)
Definition escape (t : string) : string :=
  replace_char newline (String backslash "n")
    (replace_char dquote (String backslash (String dquote EmptyString))
       (replace_char backslash (String backslash (String backslash EmptyString)) t)).

Definition generate_step (op : json_op) : step :=
  let action_type := op_action_type op in
  if String.eqb (lower action_type) "click" then
    let i := match op_element op with
             | Some (Some i) => Some i
             | _ => None
             end in
    match i with
    | Some i => TryIndexExceptCoords i (op_x op) (op_y op)
    | None => CoordsOnly (op_x op) (op_y op)
    end
  else if String.eqb (lower action_type) "input_text" then
    InputTextCall (escape (default EmptyString (op_text op)))
  else if String.eqb (upper action_type) "WAIT" then
    SleepCall (default 0%Q (op_duration op))
  else Unsupported action_type.

Definition _generate_step_code (operations : list json_op) : list step :=
  map generate_step operations.

(** *** Running the generated [run_operations] *)

Definition run_step (env : AsyncAndroidEnv) (st : step) : exec unit :=
  match st with
  | TryIndexExceptCoords i cx cy =>
      try_except (_click_by_index env i) IndexError
        (warning;; _click_by_coords env cx cy)
  | CoordsOnly cx cy => _click_by_coords env cx cy
  | InputTextCall literal =>
      match literal_value literal with
      | Some t => _input_text env t
      | None => raise SyntaxError
      end
  | SleepCall duration => sleep duration
  | Unsupported _ => warning
  end.

Fixpoint run_steps (env : AsyncAndroidEnv) (steps : list step) : exec unit :=
  match steps with
  | [] => ret tt
  | st :: rest => run_step env st;; run_steps env rest
  end.

Definition well_formed (st : step) : bool :=
  match st with
  | InputTextCall literal => bool_decide (is_Some (literal_value literal))
  | _ => true
  end.

(** A script with a malformed literal does not load; nothing runs. *)
Definition run_operations (env : AsyncAndroidEnv) (steps : list step)
  : exec unit :=
  if forallb well_formed steps then run_steps env steps
  else raise SyntaxError.

(** Generating the script from a recording and running it. *)
Definition replay (env : AsyncAndroidEnv) (operations : list json_op)
  : exec unit :=
  run_operations env (_generate_step_code operations).

End Replay.

(** ** Resolution by content description and by text
       (single/audio_recorder_init_steps.py) *)

Module Resolver.
Import Device.

(** How the body of a [for] loop ends: it falls through to the next
    round, or it leaves the enclosing method with [return]. *)
Inductive flow : Type := Next | Return.

(** [for x in xs: body(x)]; a body that raises ends the loop as well. *)
Fixpoint for_each {A} (xs : list A) (body : A -> exec flow) : exec flow :=
  match xs with
  | [] => ret Next
  | x :: rest =>
      f <- body x;;
      match f with
      | Return => ret Return
      | Next => for_each rest body
      end
  end.

(** [enumerate(l)], counting from [i]. *)
Fixpoint enumerate_from {A} (i : nat) (l : list A) : list (nat * A) :=
  match l with
  | [] => []
  | a :: rest => (i, a) :: enumerate_from (S i) rest
  end.

Definition enumerate {A} (l : list A) : list (nat * A) := enumerate_from 0 l.

(** [desc and target.lower() in desc.lower()]. *)
Definition desc_matches (target : string) (elem : UIElement) : bool :=
  match content_description elem with
  | Some desc => truthy desc && contains (lower target) (lower desc)
  | None => false
  end.

(** [elem_text and text.lower() == elem_text.lower()]. *)
Definition text_matches (candidate : string) (elem : UIElement) : bool :=
  match elem_text elem with
  | Some t => truthy t && String.eqb (lower candidate) (lower t)
  | None => false
  end.

(** [_click_element_by_content_description].  The [raise] is the last
    statement of the body of the outer loop; [fallback_index] is not
    read. *)
Definition _click_element_by_content_description (env : AsyncAndroidEnv)
    (target_descs : list string) (fallback_index : option Z) : exec unit :=
  _get_valid_controller env;;
  _ <- _get_screen_size env;;
  ui_elements <- _get_stable_ui_elements env;;
  _ <- for_each target_descs (fun target =>
         f <- for_each (enumerate ui_elements) (fun '(idx, elem) =>
                if desc_matches target elem then
                  execute_adb_action (click_index (Z.of_nat idx)) ui_elements;;
                  sleep 1.5;;
                  ret Return
                else ret Next);;
         match f with
         | Return => ret Return
         | Next => raise RuntimeError
         end);;
  ret tt.

(** [_long_press_by_text]. *)
Definition _long_press_by_text (env : AsyncAndroidEnv)
    (target_texts : list string) (fallback_index : option Z) : exec unit :=
  _get_valid_controller env;;
  _ <- _get_screen_size env;;
  ui_elements <- _get_stable_ui_elements env;;
  f <- for_each target_texts (fun candidate =>
         for_each (enumerate ui_elements) (fun '(idx, elem) =>
           if text_matches candidate elem then
             execute_adb_action (long_press_index (Z.of_nat idx)) ui_elements;;
             sleep 2;;
             ret Return
           else ret Next));;
  match f with
  | Return => ret tt
  | Next =>
      match fallback_index with
      | None => raise RuntimeError
      | Some fb =>
          if negb (in_range fb ui_elements) then raise IndexError
          else
            execute_adb_action (long_press_index fb) ui_elements;;
            warning;;
            sleep 2
      end
  end.

End Resolver.

(** ** The contract of the specification, where it is compared with the code *)

Module Contract.
Import Recorder Device Resolver.

(** [round(f)]: the nearest integer, ties to even. *)
Definition round_of_float (f : spec_float) : result Z :=
  match f with
  | S754_zero _ => Ok 0
  | S754_finite s m e =>
      let a := match e with
               | Zneg p => round_half_even (Zpos m) (2 ^ Zpos p)
               | _ => Z.shiftl (Zpos m) e
               end in
      Ok (if s then - a else a)
  | S754_infinity _ => Raise OverflowError
  | S754_nan => Raise ValueError
  end.

(** Section 4.1: the input is clamped to the raw range, the output is
    [round((clamped - raw_min) / (raw_max - raw_min) * screen_dimension)],
    then clamped to [[0, screen_dimension]]. *)
Definition rounded_axis (raw raw_min raw_max dim : Z) : result Z :=
  p ← axis_product raw raw_min raw_max dim;
  r ← round_of_float p;
  Ok (clamp 0 dim r).

Definition to_screen (g : geometry) (raw_x raw_y : Z) : result (Z * Z) :=
  sx ← rounded_axis raw_x (_raw_min_x g) (_raw_max_x g) (_screen_width g);
  sy ← rounded_axis raw_y (_raw_min_y g) (_raw_max_y g) (_screen_height g);
  Ok (sx, sy).

(** Section 4.3: the candidates are tried in order; for each, the
    elements are examined in snapshot order; the first match wins. *)
Fixpoint resolve (matches : string -> Device.UIElement -> bool)
    (snapshot : list Device.UIElement) (candidates : list string) : option nat :=
  match candidates with
  | [] => None
  | c :: rest =>
      match list_find (fun e => matches c e = true) snapshot with
      | Some (j, _) => Some j
      | None => resolve matches snapshot rest
      end
  end.

(** The candidate compares equal to the text of the element under
    lowercase folding. *)
Definition equal_folded (candidate : string) (e : Device.UIElement) : Prop :=
  exists t, Device.elem_text e = Some t /\ lower candidate = lower t.

(** Section 4.3, content descriptions: the error is raised only once
    every candidate has been tried against every element. *)
Definition click_by_description_exhaustive (env : AsyncAndroidEnv)
    (target_descs : list string) : exec unit :=
  _get_valid_controller env;;
  _ <- _get_screen_size env;;
  ui_elements <- _get_stable_ui_elements env;;
  f <- for_each target_descs (fun target =>
         for_each (enumerate ui_elements) (fun '(idx, elem) =>
           if desc_matches target elem then
             execute_adb_action (click_index (Z.of_nat idx)) ui_elements;;
             sleep 1.5;;
             ret Return
           else ret Next));;
  match f with
  | Return => ret tt
  | Next => raise RuntimeError
  end.

End Contract.

(** ** Notions used in the statements *)

Module Notions.
Import Recorder.

(** Does [scale_axis] on the default range 0..32767 agree with the
    integer quotient [k * dim / 32767] for the [n] raw values from [k] on? *)
Fixpoint floor_agrees (dim : Z) (n : nat) (k : Z) : bool :=
  match n with
  | O => true
  | S n' =>
      match scale_axis k 0 32767 dim with
      | Ok v => v =? k * dim / 32767
      | Raise _ => false
      end && floor_agrees dim n' (k + 1)
  end.

(** The last entry of the log is a recorded operation (not a wait)
    stamped with [last_operation_time]. *)
Definition log_consistent (r : recorder) : Prop :=
  match last (operations r) with
  | None => True
  | Some o => is_wait o = false /\ timestamp_of o = last_operation_time r
  end.

(** Empty or made of white space only. *)
Fixpoint blank (s : string) : bool :=
  match s with
  | EmptyString => true
  | String c s' => isspace c && blank s'
  end.

(** [float(n)] for a small integer, as a value. *)
Definition seconds (n : Z) : spec_float := binary_normalize prec emax n 0 false.

(** The element carries a text, and the text is not empty. *)
Definition has_text (e : Device.UIElement) : Prop :=
  exists t, Device.elem_text e = Some t /\ t <> EmptyString.

(** [_long_press_by_text] selects the element at position [idx] by text:
    it returns after a long press on that element and nothing else. *)
Definition selected_by_text (env : Device.AsyncAndroidEnv)
    (target_texts : list string) (fallback_index : option Z)
    (w : Device.world) (ui : list Device.UIElement) (idx : nat) : Prop :=
  Resolver._long_press_by_text env target_texts fallback_index w
  = (Ok tt,
     {| Device.reads := S (Device.reads w);
        Device.trace := Device.trace w
          ++ [Device.Exec (Device.long_press_index (Z.of_nat idx)) ui;
              Device.Sleep 2] |}).

(** A float that is zero, or finite with its magnitude [digits + exponent]
    at most [B] and its exponent at most [E]. *)
Definition within (B E : Z) (f : spec_float) : Prop :=
  match f with
  | S754_zero _ => True
  | S754_finite _ m e => Zdigits2 (Zpos m) + e <= B /\ e <= E
  | _ => False
  end.

(** The value of a finite float as a fraction, and its truncation
    toward zero. *)
Definition numerator (f : spec_float) : Z :=
  match f with
  | S754_finite s m e => (if s then -1 else 1) * (Zpos m * 2 ^ Z.max e 0)
  | _ => 0
  end.

Definition denominator (f : spec_float) : Z :=
  match f with
  | S754_finite _ _ e => 2 ^ Z.max (- e) 0
  | _ => 1
  end.

Definition truncate (f : spec_float) : Z := Z.quot (numerator f) (denominator f).

(** Empty, or starting with a character that is not white space. *)
Definition starts_visible (s : string) : Prop :=
  match s with
  | EmptyString => True
  | String c _ => isspace c = false
  end.

(** No carriage return among the characters. *)
Fixpoint no_carriage_return (s : string) : bool :=
  match s with
  | EmptyString => true
  | String c s' => negb (Ascii.eqb c carriage_return) && no_carriage_return s'
  end.

End Notions.

(** ** Input events (auto_init_workflow.py) *)

Module Events.

(** [s.split(':')[0]]: what precedes the first colon. *)
Fixpoint before_colon (s : string) : string :=
  match s with
  | EmptyString => EmptyString
  | String c s' =>
      if Ascii.eqb c ":" then EmptyString else String c (before_colon s')
  end.

(** [c in '0123456789abcdefABCDEF'], with the value of the digit. *)
Definition hex_digit (c : ascii) : option Z :=
  let n := Z.of_N (code c) in
  if (48 <=? n) && (n <=? 57) then Some (n - 48)
  else if (97 <=? n) && (n <=? 102) then Some (n - 87)
  else if (65 <=? n) && (n <=? 70) then Some (n - 55)
  else None.

Fixpoint all_hex (s : string) : bool :=
  match s with
  | EmptyString => true
  | String c s' => bool_decide (is_Some (hex_digit c)) && all_hex s'
  end.

(** [int(s, 16)] on a string of hexadecimal digits. *)
Fixpoint hex_go (acc : Z) (s : string) : Z :=
  match s with
  | EmptyString => acc
  | String c s' => hex_go (16 * acc + default 0 (hex_digit c)) s'
  end.

Definition int16 (s : string) : Z := hex_go 0 s.

(** The digits of [int(s)] in base 10: decimal digits, any two of them
    separated by at most one underscore.  [after_digit] tells whether
    the previous character was a digit. *)
Fixpoint decimal_go (acc : Z) (after_digit : bool) (s : string) : result Z :=
  match s with
  | EmptyString => if after_digit then Ok acc else Raise ValueError
  | String c s' =>
      if isdigit_char c then decimal_go (10 * acc + (Z.of_N (code c) - 48)) true s'
      else if Ascii.eqb c "_" && after_digit then decimal_go acc false s'
      else Raise ValueError
  end.

(** [int(s)] on a string without white space: an optional sign, then the
    digits.  (An interpreter that limits the length of decimal strings
    raises [ValueError] beyond its limit; the limit is not modelled.) *)
Definition int10 (s : string) : result Z :=
  match s with
  | String "+" s' => decimal_go 0 false s'
  | String "-" s' => v ← decimal_go 0 false s'; Ok (- v)
  | _ => decimal_go 0 false s
  end.

(** What [_parse_touch_event] returns: [(device_id, "X", value)],
    [(device_id, "Y", value)], [(device_id, "SYNC", None)] or
    [(device_id, "KEY", (key_code, key_state))]. *)
Inductive event : Type :=
  | X (device_id : string) (value : Z)
  | Y (device_id : string) (value : Z)
  | SYNC (device_id : string)
  | KEY (device_id : string) (key_code key_state : string).

Definition x_codes : list string := ["0035"; "ABS_MT_POSITION_X"; "ABS_X"]%string.
Definition y_codes : list string := ["0036"; "ABS_MT_POSITION_Y"; "ABS_Y"]%string.

(** [s in l] on a list of strings. *)
Definition member (s : string) (l : list string) : bool :=
  existsb (String.eqb s) l.

(** The value of an axis event: base 16 when every character is a
    hexadecimal digit, base 10 otherwise, and 0 when that fails. *)
Definition axis_value (value_str : string) : Z :=
  match (if all_hex value_str then Ok (int16 value_str) else int10 value_str) with
  | Ok v => v
  | Raise _ => 0
  end.

(** [_parse_touch_event(line)]. *)
Definition _parse_touch_event (line : string) : option event :=
  let parts := split (strip line) in
  match parts with
  | p0 :: type_part :: code_part :: value_str :: _ =>
      let device_id := before_colon p0 in
      let axis :=
        if member type_part ["0003"; "EV_ABS"]%string then
          let value := axis_value value_str in
          if member code_part x_codes then Some (X device_id value)
          else if member code_part y_codes then Some (Y device_id value)
          else None
        else None in
      match axis with
      | Some ev => Some ev
      | None =>
          if String.eqb type_part "EV_SYN" && String.eqb code_part "SYN_REPORT"
          then Some (SYNC device_id)
          else if String.eqb type_part "EV_KEY" then
            let key_state := if String.eqb value_str "DOWN" then "DOWN" else "UP" in
            Some (KEY device_id code_part key_state)
          else None
      end
  | _ => None
  end%string.

End Events.

(** ** Touch events and the element under a point (auto_init_workflow.py) *)

Module Touch.
Import Recorder.

(** [bbox_pixels] of an element. *)
Record bbox : Type := BBox {
  x_min : Z;
  x_max : Z;
  y_min : Z;
  y_max : Z
}.

(** An element of [self.ui_elements] as the recorder reads it: the two
    texts, the class name and the bounding box, [None] when the
    attribute is missing, [None] or lacks one of its four sides. *)
Record node : Type := Node {
  ui : Device.UIElement;
  class_name : option string;
  bbox_pixels : option bbox
}.

(** The dictionary that [_find_element_by_coords] returns. *)
Record element_info : Type := ElementInfo {
  index : nat;
  text : option string;
  info_description : option string;
  info_class : option string;
  info_bbox : bbox
}.

(** The tolerant test: within 20 pixels of the box on either axis. *)
Definition near (b : bbox) (x y : Z) : bool :=
  (x_min b - 20 <=? x) && (x <=? x_max b + 20)
  && (y_min b - 20 <=? y) && (y <=? y_max b + 20).

(** The loop of [_find_element_by_coords], from position [idx]. *)
Fixpoint find_from (idx : nat) (elems : list node) (x y : Z) : option element_info :=
  match elems with
  | [] => None
  | elem :: rest =>
      match bbox_pixels elem with
      | None => find_from (S idx) rest x y
      | Some b =>
          if near b x y then
            Some {| index := idx;
                    text := Device.elem_text (ui elem);
                    info_description := Device.content_description (ui elem);
                    info_class := class_name elem;
                    info_bbox := b |}
          else find_from (S idx) rest x y
      end
  end.

Definition _find_element_by_coords (ui_elements : list node) (x y : Z)
  : option element_info :=
  find_from 0 ui_elements x y.


(** What [env.get_state(wait_to_stabilize=True)] gives the recorder: an
    exception, a state whose [ui_elements] is not a list, or a list. *)
Inductive observation : Type :=
  | Unavailable
  | NotAList
  | Elements (l : list node).

(** The recorder with the fields that touch events read and write. *)
Record session : Type := Session {
  rec : recorder;
  geom : geometry;
  ui_elements : list node;
  _coord_cache : gmap string (option Z * option Z)
}.

(** [_update_ui_elements]: on failure the cached list is kept. *)
Definition _update_ui_elements (obs : observation) (s : session) : session :=
  match obs with
  | Unavailable => s
  | NotAList =>
      {| rec := rec s; geom := geom s; ui_elements := [];
         _coord_cache := _coord_cache s |}
  | Elements l =>
      {| rec := rec s; geom := geom s; ui_elements := l;
         _coord_cache := _coord_cache s |}
  end.

Definition set_coords (c : gmap string (option Z * option Z)) (s : session)
  : session :=
  {| rec := rec s; geom := geom s; ui_elements := ui_elements s;
     _coord_cache := c |}.

Definition set_rec (r : recorder) (s : session) : session :=
  {| rec := r; geom := geom s; ui_elements := ui_elements s;
     _coord_cache := _coord_cache s |}.

(** The accumulator of a device, [{"X": None, "Y": None}] when new. *)
Definition coords_of (device_id : string) (s : session) : option Z * option Z :=
  default (None, None) (_coord_cache s !! device_id).

(** The body of the loop of [_listen_touch_events] for one parsed event,
    without the liveness checks.  [now] is the clock reading of
    [_process_keyboard_event] or of [_record_operation], [now_rec] the
    one of the [_record_operation] that an Enter key may reach, [obs]
    what [get_state] returns if it is called.  The result tells whether a
    timeout thread was started.  An exception inside the body is caught
    by the loop; what was assigned before it stays. *)
Definition handle_event (now now_rec : spec_float) (obs : observation)
    (ev : Events.event) (s : session) : session * bool :=
  match ev with
  | Events.KEY device_id key_code key_state =>
      let '(r, started) :=
        _process_keyboard_event now now_rec device_id key_code key_state (rec s) in
      (set_rec r s, started)
  | Events.X device_id value =>
      let '(_, cy) := coords_of device_id s in
      (set_coords (<[device_id := (Some value, cy)]> (_coord_cache s)) s, false)
  | Events.Y device_id value =>
      let '(cx, _) := coords_of device_id s in
      (set_coords (<[device_id := (cx, Some value)]> (_coord_cache s)) s, false)
  | Events.SYNC device_id =>
      let s1 := set_coords (<[device_id := coords_of device_id s]> (_coord_cache s)) s in
      match coords_of device_id s with
      | (Some raw_x, Some raw_y) =>
          match _convert_raw_to_screen (geom s) raw_x raw_y with
          | Raise _ => (s1, false)
          | Ok (screen_x, screen_y) =>
              let s2 := _update_ui_elements obs s1 in
              let element_info :=
                _find_element_by_coords (ui_elements s2) screen_x screen_y in
              let r := _record_operation now
                         (KwClick screen_x screen_y raw_x raw_y
                            (index <$> element_info)) (rec s2) in
              (set_coords (<[device_id := (None, None)]> (_coord_cache s2))
                 (set_rec r s2), false)
          end
      | _ => (s1, false)
      end
  end.

(** [stop_recording].  [order] lists the device ids in the order in
    which [self._keyboard_cache.items()] yields them, [now] gives the
    clock reading of the [_record_operation] that flushes a device. *)
Definition stop_recording (order : list string) (now : string -> spec_float)
    (r : recorder) : recorder :=
  if negb (is_recording r) then r
  else
    let flushed :=
      fold_left (fun acc device_id =>
        match _keyboard_cache r !! device_id with
        | Some cache =>
            if truthy (strip (kb_text cache))
            then record_text_input (now device_id) (kb_text cache) acc
            else acc
        | None => acc
        end) order r in
    {| operations := operations flushed; is_recording := false;
       start_time := start_time flushed;
       last_operation_time := last_operation_time flushed;
       _keyboard_cache := _keyboard_cache flushed |}.

(** The recorder that [__init__] builds once its controller check has
    passed; [probe] is what the probe of the touch device returns to
    [_init_touch_device_bounds]. *)
Definition new_session (probe : option (list string)) : session :=
  {| rec := {| operations := []; is_recording := false; start_time := float_0;
               last_operation_time := float_0; _keyboard_cache := ∅ |};
     geom := _init_touch_device_bounds probe init_geometry;
     ui_elements := [];
     _coord_cache := ∅ |}.

(** What [start_recording] assigns before it starts the listening
    thread; [obs] is what [get_state] returns to its
    [_update_ui_elements]. *)
Definition start_recording (now : spec_float) (obs : observation) (s : session)
  : session :=
  if is_recording (rec s) then s
  else
    _update_ui_elements obs
      {| rec := start_recording_state now; geom := geom s;
         ui_elements := ui_elements s; _coord_cache := ∅ |}.

(** One step of a recording: the listening thread handles a parsed
    event, a timeout thread runs, or [stop_recording] is called.  Each
    step runs to its end before the next one starts; a thread that is
    interrupted in the middle of a method is not modelled. *)
Inductive session_step (s : session) : session -> Prop :=
  | step_event now now_rec obs ev :
      session_step s (fst (handle_event now now_rec obs ev s))
  | step_timeout now now_rec device_id :
      session_step s (set_rec (timeout_callback now now_rec device_id (rec s)) s)
  | step_stop order now :
      session_step s (set_rec (stop_recording order now (rec s)) s).

End Touch.

(** ** More steps of the hand-written scripts (audio_recorder_init_steps.py) *)

Module Steps.
Import Device.


End Steps.

(** ** Further notions used in the statements *)

Module Predicates.
Import Recorder Notions.




(** A character that some key of [_key_mapping] produces. *)
Definition mapped_char (c : ascii) : bool :=
  existsb (fun kv => String.eqb (snd kv) (String c EmptyString)) _key_mapping.

Fixpoint all_mapped (s : string) : bool :=
  match s with
  | EmptyString => true
  | String c s' => mapped_char c && all_mapped s'
  end.

(** The characters of the keyboard: lower-case letters, digits, the
    blank and the line feed. *)
Definition keyboard_char (c : ascii) : bool :=
  let n := Z.of_N (code c) in
  ((97 <=? n) && (n <=? 122)) || ((48 <=? n) && (n <=? 57))
  || (n =? 32) || (n =? 10).

Fixpoint keyboard_text (s : string) : bool :=
  match s with
  | EmptyString => true
  | String c s' => keyboard_char c && keyboard_text s'
  end.

(** Every buffer of the keyboard cache holds mapped characters only. *)
Definition buffers_mapped (r : recorder) : Prop :=
  forall device_id e, _keyboard_cache r !! device_id = Some e ->
    all_mapped (kb_text e) = true.

(** Every wait of the log is immediately followed by a recorded
    operation. *)
Fixpoint waits_followed (l : list operation) : bool :=
  match l with
  | [] => true
  | WAIT _ _ :: rest =>
      match rest with
      | Op _ _ :: _ => waits_followed rest
      | _ => false
      end
  | Op _ _ :: rest => waits_followed rest
  end.

(** The log does not start with a wait. *)
Definition starts_with_op (l : list operation) : bool :=
  match l with
  | WAIT _ _ :: _ => false
  | _ => true
  end.

(** The shape of a log: it does not start with a wait, and every wait
    is immediately followed by a recorded operation. *)
Definition log_shape (r : recorder) : Prop :=
  starts_with_op (operations r) = true /\ waits_followed (operations r) = true.

(** A click of the log lies on the screen of the geometry. *)
Definition click_on_screen (g : geometry) (o : operation) : Prop :=
  match o with
  | Op _ (KwClick x y _ _ _) =>
      0 <= x <= _screen_width g /\ 0 <= y <= _screen_height g
  | _ => True
  end.

(** The text of every text operation of the log. *)
Definition recorded_texts (l : list operation) : list string :=
  omap (fun o => match o with
                 | Op _ (KwInputText t) => Some t
                 | _ => None
                 end) l.

(** The keyboard only ever holds, and has only ever recorded, mapped
    characters. *)
Definition keyboard_inv (r : recorder) : Prop :=
  buffers_mapped r
  /\ Forall (fun t => all_mapped t = true) (recorded_texts (operations r)).

(** The text that [stop_recording] flushes for a device: its buffer,
    stripped, when that is not empty. *)
Definition pending (r : recorder) (device_id : string) : option string :=
  match _keyboard_cache r !! device_id with
  | Some cache =>
      if truthy (strip (kb_text cache)) then Some (strip (kb_text cache)) else None
  | None => None
  end.

(** The characters that a run of key presses types. *)
Definition typed (key_codes : list string) : string :=
  fold_right (fun k acc => key_char _key_mapping k +:+ acc) EmptyString key_codes.

(** A key whose press appends to the buffer and goes on to the timeout
    check: neither shift, nor backspace, nor Enter. *)
Definition plain_key (key_code : string) : bool :=
  negb (String.eqb key_code "KEY_LEFTSHIFT")
  && negb (String.eqb key_code "KEY_BACKSPACE")
  && negb (String.eqb key_code "KEY_ENTER").

(** Pressing the keys one after the other on a device, each at its own
    clock reading; the timeout threads are not run. *)
Fixpoint press_keys (clock : nat -> spec_float) (n : nat) (device_id : string)
    (key_codes : list string) (r : recorder) : recorder :=
  match key_codes with
  | [] => r
  | k :: rest =>
      press_keys clock (S n) device_id rest
        (fst (_process_keyboard_event (clock n) (clock n) device_id k "DOWN" r))
  end.

(** A field: not empty, and free of white space. *)
Fixpoint no_space (s : string) : bool :=
  match s with
  | EmptyString => true
  | String c s' => negb (isspace c) && no_space s'
  end.

Definition is_field (s : string) : bool := truthy s && no_space s.

(** A line laid out in columns: every field preceded by its gap. *)
Fixpoint columns (cols : list (string * string)) : string :=
  match cols with
  | [] => EmptyString
  | (gap, field) :: rest => gap +:+ field +:+ columns rest
  end.

(** The gaps are white space, and not empty after the first column;
    the fields are not empty and free of white space. *)
Fixpoint well_spaced (first : bool) (cols : list (string * string)) : bool :=
  match cols with
  | [] => true
  | (gap, field) :: rest =>
      blank gap && (first || truthy gap) && is_field field
      && well_spaced false rest
  end.

(** A line of [getevent -l]: the device path with its colon, the type,
    the code and the value, in columns, and what follows the value. *)
Definition event_line (gaps : string * string * string * string) (trail : string)
    (device_id type_part code_part value_str : string) : string :=
  let '(g0, g1, g2, g3) := gaps in
  columns [(g0, device_id +:+ ":"); (g1, type_part); (g2, code_part);
           (g3, value_str)] +:+ trail.

(** The gaps of a line: white space, not empty between two fields. *)
Definition gaps_ok (gaps : string * string * string * string) (trail : string)
  : bool :=
  let '(g0, g1, g2, g3) := gaps in
  blank g0 && blank g1 && truthy g1 && blank g2 && truthy g2
  && blank g3 && truthy g3 && blank trail.


(** Free of colons. *)
Fixpoint no_colon (s : string) : bool :=
  match s with
  | EmptyString => true
  | String c s' => negb (Ascii.eqb c ":") && no_colon s'
  end.

(** The value as [getevent -l] prints it: eight hexadecimal digits. *)
Definition hex_char (d : Z) : ascii :=
  ascii_of_N (Z.to_N (if d <? 10 then 48 + d else 87 + d)).

Fixpoint hex_digits (n : nat) (v : Z) (acc : string) : string :=
  match n with
  | O => acc
  | S n' => hex_digits n' (v / 16) (String (hex_char (v mod 16)) acc)
  end.

Definition hex8 (v : Z) : string := hex_digits 8 v EmptyString.


End Predicates.

(** ** Sample recordings, screens and devices *)

Module Samples.
Import Recorder.

(** A screen with one text field. *)
Definition search_screen : list Device.UIElement :=
  [Device.Element (Some "Search"%string) None].

(** A screen with a text and two described buttons. *)
Definition recorder_screen : list Device.UIElement :=
  [Device.Element (Some "Play"%string) None;
   Device.Element None (Some "Start recording"%string);
   Device.Element None (Some "Stop recording"%string)].

(** A device that always shows the same screen. *)
Definition showing (ui : list Device.UIElement) : Device.AsyncAndroidEnv :=
  Device.Env true (1080, 2400) (fun _ => Some ui).

(** A click at (100, 200), with what the recording holds under
    ["element"]. *)
Definition click_op (element : option (option Z)) : Replay.json_op :=
  {| Replay.op_action_type := "click"; Replay.op_element := element;
     Replay.op_x := Some 100; Replay.op_y := Some 200;
     Replay.op_text := None; Replay.op_duration := None |}.

Definition text_op : Replay.json_op :=
  {| Replay.op_action_type := "input_text"; Replay.op_element := None;
     Replay.op_x := None; Replay.op_y := None;
     Replay.op_text := Some "Hello"%string; Replay.op_duration := None |}.



(** A recording started at second 10 on a new recorder whose probe
    could not be run, with no screen to read. *)
Definition started : Touch.session :=
  Touch.start_recording (Notions.seconds 10) Touch.Unavailable
    (Touch.new_session None).

(** A tap at the raw point (16000, 16000) of a device, handled at second
    12, and the session after it. *)
Definition tapped : Touch.session :=
  fst (Touch.handle_event (Notions.seconds 12) (Notions.seconds 12)
         Touch.Unavailable (Events.SYNC "event2")
    (fst (Touch.handle_event (Notions.seconds 12) (Notions.seconds 12)
            Touch.Unavailable (Events.Y "event2" 16000)
       (fst (Touch.handle_event (Notions.seconds 12) (Notions.seconds 12)
               Touch.Unavailable (Events.X "event2" 16000) started))))).

(** The keys H and I pressed on a keyboard at seconds 11 and 12 of that
    recording. *)
Definition typed_hi : recorder :=
  Predicates.press_keys (fun n => Notions.seconds (11 + Z.of_nat n)) 0 "event3"
    ["KEY_H"; "KEY_I"]%string (Touch.rec started).

(** The tap, then the keys H and I at second 13 and Enter at second 15. *)
Definition entered : Touch.session :=
  fst (Touch.handle_event (Notions.seconds 15) (Notions.seconds 15)
         Touch.Unavailable (Events.KEY "event3" "KEY_ENTER" "DOWN")
    (fst (Touch.handle_event (Notions.seconds 13) (Notions.seconds 13)
            Touch.Unavailable (Events.KEY "event3" "KEY_I" "DOWN")
       (fst (Touch.handle_event (Notions.seconds 13) (Notions.seconds 13)
               Touch.Unavailable (Events.KEY "event3" "KEY_H" "DOWN") tapped))))).

(** A button on the screen of the recorder. *)
Definition ok_button : Touch.node :=
  {| Touch.ui := Device.Element (Some "OK"%string) None;
     Touch.class_name := Some "android.widget.Button"%string;
     Touch.bbox_pixels := Some (Touch.BBox 100 300 200 260) |}.

End Samples.

(** * Properties *)

(** ** The coordinate transform *)

Section Transform.
Import Recorder.

Lemma clamp_between lo hi v : lo <= hi -> lo <= clamp lo hi v <= hi.
Proof. unfold clamp. lia. Qed.

Lemma clamp_id lo hi v : lo <= v <= hi -> clamp lo hi v = v.
Proof. unfold clamp. lia. Qed.

Lemma mod__bounds a b : 0 < b -> exists r, mod_ a b = Ok r /\ 0 <= r < b.
Proof.
  intros Hb. unfold mod_.
  destruct (Z.eqb_spec b 0) as [->|_]; [lia|].
  exists (a mod b). split; [reflexivity|]. apply Z.mod_pos_bound; lia.
Qed.

Variable g : geometry.
Hypothesis width_pos : 0 < _screen_width g.
Hypothesis height_pos : 0 < _screen_height g.

Lemma convert_try_bounds raw_x raw_y sx sy :
  convert_try g raw_x raw_y = Ok (sx, sy) ->
  0 <= sx <= _screen_width g /\ 0 <= sy <= _screen_height g.
Proof.
  unfold convert_try. intros H.
  destruct (scale_axis raw_x _ _ _) as [px|]; [|discriminate].
  destruct (scale_axis raw_y _ _ _) as [py|]; [|discriminate].
  cbn in H. injection H as <- <-.
  split; apply clamp_between; lia.
Qed.

Lemma convert_except_bounds raw_x raw_y :
  exists sx sy, convert_except g raw_x raw_y = Ok (sx, sy)
    /\ sx = raw_x mod _screen_width g /\ sy = raw_y mod _screen_height g
    /\ 0 <= sx < _screen_width g /\ 0 <= sy < _screen_height g.
Proof.
  destruct (mod__bounds raw_x _ width_pos) as (rx & Hx & Hbx).
  destruct (mod__bounds raw_y _ height_pos) as (ry & Hy & Hby).
  exists rx, ry. unfold convert_except. rewrite Hx, Hy. cbn.
  unfold mod_ in Hx, Hy.
  destruct (_ =? 0) in Hx; [discriminate|].
  destruct (_ =? 0) in Hy; [discriminate|].
  injection Hx as <-. injection Hy as <-. auto.
Qed.

(** C9.  On a screen of positive size [_convert_raw_to_screen] returns a
    pair for every pair of integers and never an exception; when the
    scaling of the [try] body fails, the pair is
    [(raw_x % screen_width, raw_y % screen_height)]; and in either case
    the pair lies within the screen bounds. *)
Theorem convert_raw_to_screen_total raw_x raw_y :
  exists sx sy,
    _convert_raw_to_screen g raw_x raw_y = Ok (sx, sy)
    /\ 0 <= sx <= _screen_width g /\ 0 <= sy <= _screen_height g
    /\ (raised (convert_try g raw_x raw_y) = true ->
        sx = raw_x mod _screen_width g /\ sy = raw_y mod _screen_height g).
Proof.
  unfold _convert_raw_to_screen.
  destruct (convert_try g raw_x raw_y) as [[sx sy]|e] eqn:Htry.
  - exists sx, sy. destruct (convert_try_bounds _ _ _ _ Htry).
    repeat split; try tauto. all: cbn; intros; discriminate.
  - destruct (convert_except_bounds raw_x raw_y)
      as (sx & sy & Hex & Hx & Hy & Hbx & Hby).
    exists sx, sy. rewrite Hex. repeat split; try lia.
Qed.

End Transform.

(** A zero-width range makes the scaling fail, and the degraded pair is
    returned: the theorem at the range 5..5. *)
Lemma convert_raw_to_screen_total_witness :
  exists sx sy,
    Recorder._convert_raw_to_screen
      (Recorder.set_raw_x 5 5 Recorder.init_geometry) 16000 16000 = Ok (sx, sy)
    /\ 0 <= sx <= 1080 /\ 0 <= sy <= 2400
    /\ (raised (Recorder.convert_try
                  (Recorder.set_raw_x 5 5 Recorder.init_geometry) 16000 16000) = true ->
        sx = 16000 mod 1080 /\ sy = 16000 mod 2400).
Proof.
  apply (convert_raw_to_screen_total
           (Recorder.set_raw_x 5 5 Recorder.init_geometry)); simpl; lia.
Defined.

(** ** Truncation, not rounding *)

Section Truncation.
Import Recorder Contract Notions.

Lemma clamp_idem lo hi v : lo <= hi -> clamp lo hi (clamp lo hi v) = clamp lo hi v.
Proof. unfold clamp. lia. Qed.

Lemma axis_product_clamp raw lo hi dim :
  lo <= hi -> axis_product raw lo hi dim = axis_product (clamp lo hi raw) lo hi dim.
Proof. intros H. unfold axis_product. now rewrite clamp_idem. Qed.

Lemma scale_axis_clamp raw lo hi dim :
  lo <= hi -> scale_axis raw lo hi dim = scale_axis (clamp lo hi raw) lo hi dim.
Proof. intros H. unfold scale_axis. now rewrite <- axis_product_clamp. Qed.

Lemma floor_agrees_sound dim n : forall k,
  floor_agrees dim n k = true ->
  forall j, k <= j < k + Z.of_nat n -> scale_axis j 0 32767 dim = Ok (j * dim / 32767).
Proof.
  induction n as [|n IH]; intros k Hall j Hj; [lia|].
  cbn [floor_agrees] in Hall. apply andb_prop in Hall as [Hk Hrest].
  destruct (Z.eq_dec j k) as [->|Hne].
  - destruct (scale_axis k 0 32767 dim) as [v|]; [|discriminate].
    apply Z.eqb_eq in Hk. now subst.
  - apply (IH (k + 1) Hrest). lia.
Qed.

(** Every raw value of the default range, on either screen dimension. *)
Lemma default_width_floor :
  floor_agrees 1080 (Z.to_nat 32768) 0 = true.
Proof. vm_compute. reflexivity. Qed.

Lemma default_height_floor :
  floor_agrees 2400 (Z.to_nat 32768) 0 = true.
Proof. vm_compute. reflexivity. Qed.

Lemma default_axis raw dim :
  floor_agrees dim (Z.to_nat 32768) 0 = true ->
  scale_axis raw 0 32767 dim = Ok (clamp 0 32767 raw * dim / 32767).
Proof.
  intros Hall. rewrite scale_axis_clamp by lia.
  apply (floor_agrees_sound dim _ 0 Hall).
  pose proof (clamp_between 0 32767 raw). lia.
Qed.

Lemma default_geometry_floor raw_x raw_y :
  _convert_raw_to_screen init_geometry raw_x raw_y
  = Ok (clamp 0 32767 raw_x * 1080 / 32767, clamp 0 32767 raw_y * 2400 / 32767).
Proof.
  unfold _convert_raw_to_screen, convert_try. cbn [init_geometry _raw_min_x
    _raw_max_x _raw_min_y _raw_max_y _screen_width _screen_height].
  rewrite (default_axis raw_x 1080 default_width_floor).
  rewrite (default_axis raw_y 2400 default_height_floor).
  cbn [mbind result_bind].
  pose proof (clamp_between 0 32767 raw_x ltac:(lia)) as Hx.
  pose proof (clamp_between 0 32767 raw_y ltac:(lia)) as Hy.
  f_equal. f_equal; apply clamp_id.
  - split; [apply Z.div_pos; lia|]. apply Z.div_le_upper_bound; lia.
  - split; [apply Z.div_pos; lia|]. apply Z.div_le_upper_bound; lia.
Qed.

End Truncation.

(** C3, as stated, fails: with the range 0..32767 on a 1080x2400 screen
    the raw pair (16000, 16000) is mapped to (527, 1171), whereas rounding
    to the nearest integer gives (527, 1172). *)
Lemma convert_rounding_counterexample :
  Recorder._convert_raw_to_screen Recorder.init_geometry 16000 16000 = Ok (527, 1171)
  /\ Contract.to_screen Recorder.init_geometry 16000 16000 = Ok (527, 1172)
  /\ ~ (forall g raw_x raw_y,
          Recorder._raw_min_x g < Recorder._raw_max_x g ->
          Recorder._raw_min_y g < Recorder._raw_max_y g ->
          Recorder._convert_raw_to_screen g raw_x raw_y
          = Contract.to_screen g raw_x raw_y).
Proof.
  assert (H1 : Recorder._convert_raw_to_screen Recorder.init_geometry 16000 16000
               = Ok (527, 1171)) by (vm_compute; reflexivity).
  assert (H2 : Contract.to_screen Recorder.init_geometry 16000 16000
               = Ok (527, 1172)) by (vm_compute; reflexivity).
  split; [exact H1|]. split; [exact H2|].
  intros Hall.
  specialize (Hall Recorder.init_geometry 16000 16000).
  rewrite H1, H2 in Hall. cbn in Hall.
  specialize (Hall ltac:(lia) ltac:(lia)). discriminate.
Qed.

(** The clicks recorded in real_time_operations_script.py, recomputed. *)
Example recorded_clicks :
  Recorder._convert_raw_to_screen Recorder.init_geometry 9678 30719 = Ok (318, 2249)
  /\ Recorder._convert_raw_to_screen Recorder.init_geometry 11286 2962 = Ok (371, 216)
  /\ Recorder._convert_raw_to_screen Recorder.init_geometry 5188 5911 = Ok (170, 432)
  /\ Recorder._convert_raw_to_screen Recorder.init_geometry 16656 29667 = Ok (548, 2172)
  /\ Recorder._convert_raw_to_screen Recorder.init_geometry 22330 29872 = Ok (735, 2187).
Proof. repeat split; vm_compute; reflexivity. Qed.

(** ** The operation log *)

Section Log.
Import Recorder Contract Notions.

Lemma record_operation_consistent now kw r :
  log_consistent (_record_operation now kw r).
Proof.
  unfold log_consistent, _record_operation. cbn [operations last_operation_time].
  rewrite last_snoc. cbn. auto.
Qed.

Lemma start_recording_consistent now : log_consistent (start_recording_state now).
Proof. exact I. Qed.

Lemma last_None_nil {A} (l : list A) : last l = None -> l = [].
Proof. destruct l using rev_ind; [reflexivity|]. rewrite last_snoc. discriminate. Qed.

(** C7.  In a consistent log, [_record_operation] puts a [WAIT] entry
    immediately before the new operation exactly when the log is not
    empty and the gap between the timestamp of the new operation and the
    timestamp of the previous one exceeds 1.0; its duration is that gap
    rounded to two decimals.  Otherwise, and in particular on an empty
    log, the new operation alone is appended. *)
Theorem record_operation_wait now kw r :
  log_consistent r ->
  let current_time := fsub now (start_time r) in
  let r' := _record_operation now kw r in
  ((exists d t, operations r' = operations r ++ [WAIT d t; Op current_time kw])
   <-> (exists prev, last (operations r) = Some prev
          /\ fgt (fsub current_time (timestamp_of prev)) float_1 = true))
  /\ (forall prev, last (operations r) = Some prev ->
        fgt (fsub current_time (timestamp_of prev)) float_1 = true ->
        operations r' =
          operations r ++ [WAIT (round2 (fsub current_time (timestamp_of prev)))
                                (timestamp_of prev);
                           Op current_time kw])
  /\ (forall prev, last (operations r) = Some prev ->
        fgt (fsub current_time (timestamp_of prev)) float_1 = false ->
        operations r' = operations r ++ [Op current_time kw])
  /\ (operations r = [] -> operations r' = [Op current_time kw]).
Proof.
  intros Hcons current_time r'.
  assert (Hprev : forall prev, last (operations r) = Some prev ->
            timestamp_of prev = last_operation_time r /\ operations r <> []).
  { intros prev Hlast. unfold log_consistent in Hcons. rewrite Hlast in Hcons.
    split; [tauto|]. intros Hnil. rewrite Hnil in Hlast. discriminate. }
  assert (Hyes : forall prev, last (operations r) = Some prev ->
            fgt (fsub current_time (timestamp_of prev)) float_1 = true ->
            operations r' =
              operations r ++ [WAIT (round2 (fsub current_time (timestamp_of prev)))
                                    (timestamp_of prev);
                               Op current_time kw]).
  { intros prev Hlast Hgap. destruct (Hprev prev Hlast) as [Hts Hne].
    subst r'. unfold _record_operation. cbn [operations].
    fold current_time. rewrite <- Hts, Hgap.
    rewrite bool_decide_eq_true_2 by assumption. cbn [andb].
    now rewrite <- app_assoc. }
  assert (Hno : forall prev, last (operations r) = Some prev ->
            fgt (fsub current_time (timestamp_of prev)) float_1 = false ->
            operations r' = operations r ++ [Op current_time kw]).
  { intros prev Hlast Hgap. destruct (Hprev prev Hlast) as [Hts Hne].
    subst r'. unfold _record_operation. cbn [operations].
    fold current_time. rewrite <- Hts, Hgap. reflexivity. }
  assert (Hnil : operations r = [] -> operations r' = [Op current_time kw]).
  { intros Hempty. subst r'. unfold _record_operation. cbn [operations].
    rewrite Hempty. rewrite bool_decide_eq_false_2 by (intros H; now apply H).
    rewrite andb_false_r. reflexivity. }
  split; [|auto].
  split.
  - intros (d & t & Hops).
    destruct (last (operations r)) as [prev|] eqn:Hlast.
    + exists prev. split; [reflexivity|].
      destruct (fgt (fsub current_time (timestamp_of prev)) float_1) eqn:Hgap;
        [reflexivity|].
      rewrite (Hno prev eq_refl Hgap) in Hops.
      apply app_inv_head in Hops. discriminate.
    + apply last_None_nil in Hlast. rewrite (Hnil Hlast), Hlast in Hops.
      discriminate.
  - intros (prev & Hlast & Hgap). eexists _, _. exact (Hyes prev Hlast Hgap).
Qed.

End Log.

(** The theorem on the log that holds one click, recorded 2 s after the
    start, when a text is recorded 3 s later. *)
Lemma record_operation_wait_witness :
  let r := Recorder._record_operation (Notions.seconds 12)
             (Recorder.KwClick 5 5 100 100 None)
             (Recorder.start_recording_state (Notions.seconds 10)) in
  let current_time := fsub (Notions.seconds 15) (Recorder.start_time r) in
  let r' := Recorder._record_operation (Notions.seconds 15)
              (Recorder.KwInputText "abc") r in
  Recorder.operations r' =
    Recorder.operations r
    ++ [Recorder.WAIT (round2 (Notions.seconds 3)) (Notions.seconds 2);
        Recorder.Op (Notions.seconds 5) (Recorder.KwInputText "abc")].
Proof.
  intros r current_time r'.
  assert (Hcons : Notions.log_consistent r).
  { vm_compute. split; reflexivity. }
  destruct (record_operation_wait (Notions.seconds 15)
              (Recorder.KwInputText "abc") r Hcons) as (_ & Hyes & _).
  refine (Hyes (Recorder.Op (Notions.seconds 2) (Recorder.KwClick 5 5 100 100 None))
            _ _); vm_compute; reflexivity.
Defined.

(** ** Recording typed text *)

Section TextInput.
Import Recorder Contract Notions.

Lemma truthy_false (s : string) : truthy s = false <-> s = EmptyString.
Proof. destruct s; cbn; split; congruence. Qed.

Lemma lstrip_empty (s : string) : lstrip s = EmptyString <-> blank s = true.
Proof.
  induction s as [|c s IH]; cbn; [tauto|].
  destruct (isspace c); cbn; [exact IH|]. split; discriminate.
Qed.

Lemma blank_rev_app (s1 s2 : string) :
  blank (String.rev_app s1 s2) = blank s1 && blank s2.
Proof.
  revert s2. induction s1 as [|c s1 IH]; intros s2; cbn; [reflexivity|].
  rewrite IH. cbn. destruct (isspace c), (blank s1), (blank s2); reflexivity.
Qed.

Lemma blank_rev (s : string) : blank (String.rev s) = blank s.
Proof. unfold String.rev. rewrite blank_rev_app. cbn. apply andb_true_r. Qed.

Lemma rev_app_empty (s1 s2 : string) :
  String.rev_app s1 s2 = EmptyString -> s1 = EmptyString /\ s2 = EmptyString.
Proof.
  revert s2. induction s1 as [|c s1 IH]; intros s2 H; cbn in H; [auto|].
  apply IH in H as [_ H]. discriminate.
Qed.

Lemma rev_empty (s : string) : String.rev s = EmptyString <-> s = EmptyString.
Proof.
  split; [|intros ->; reflexivity].
  intros H. now apply rev_app_empty in H.
Qed.

(** What is left of [lstrip] is empty or starts with a visible character. *)
Lemma blank_lstrip (s : string) : blank (lstrip s) = true <-> blank s = true.
Proof.
  induction s as [|c s IH]; cbn; [tauto|].
  destruct (isspace c) eqn:Hc; cbn; [exact IH|]. rewrite Hc. cbn. tauto.
Qed.

Lemma strip_empty (s : string) : strip s = EmptyString <-> blank s = true.
Proof.
  unfold strip, rstrip.
  rewrite rev_empty, lstrip_empty, blank_rev. apply blank_lstrip.
Qed.

Lemma strip_falsy (s : string) : truthy (strip s) = false <-> blank s = true.
Proof. rewrite truthy_false. apply strip_empty. Qed.

Lemma append_cons c (a b : string) : String c a +:+ b = String c (a +:+ b).
Proof. reflexivity. Qed.

Lemma append_assoc (a b c : string) : (a +:+ b) +:+ c = a +:+ (b +:+ c).
Proof.
  induction a as [|x a IH]; [reflexivity|].
  rewrite !append_cons. now rewrite IH.
Qed.

Lemma rev_app_append (s1 s2 : string) :
  String.rev_app s1 s2 = String.rev s1 +:+ s2.
Proof.
  unfold String.rev. revert s2.
  induction s1 as [|c s1 IH]; intros s2; cbn [String.rev_app]; [reflexivity|].
  rewrite IH, (IH (String c EmptyString)).
  rewrite append_assoc. reflexivity.
Qed.

Lemma rev_rev_app (s1 s2 : string) :
  String.rev (String.rev_app s1 s2) = String.rev_app s2 s1.
Proof.
  revert s2. induction s1 as [|c s1 IH]; intros s2; cbn [String.rev_app];
    [reflexivity|].
  now rewrite IH.
Qed.

Lemma rev_involutive (s : string) : String.rev (String.rev s) = s.
Proof. unfold String.rev at 2. now rewrite rev_rev_app. Qed.

Lemma rev_app_distr (a b : string) :
  String.rev (a +:+ b) = String.rev b +:+ String.rev a.
Proof.
  unfold String.rev at 1.
  assert (H : forall acc, String.rev_app (a +:+ b) acc
                          = String.rev_app b (String.rev_app a acc)).
  { induction a as [|c a IH]; intros acc; [reflexivity|].
    rewrite append_cons. cbn [String.rev_app]. apply IH. }
  rewrite H, rev_app_append. reflexivity.
Qed.

Lemma lstrip_spec (s : string) :
  exists l, s = l +:+ lstrip s /\ blank l = true /\ starts_visible (lstrip s).
Proof.
  induction s as [|c s (l & Hs & Hl & Hv)]; [exists EmptyString; cbn; auto|].
  cbn [lstrip]. destruct (isspace c) eqn:Hc.
  - exists (String c l). rewrite append_cons, <- Hs. cbn. rewrite Hc, Hl. auto.
  - exists EmptyString. cbn. auto.
Qed.

Lemma rstrip_spec (s : string) :
  exists r, s = rstrip s +:+ r /\ blank r = true
            /\ starts_visible (String.rev (rstrip s)).
Proof.
  destruct (lstrip_spec (String.rev s)) as (l & Hs & Hl & Hv).
  exists (String.rev l). unfold rstrip. rewrite rev_involutive.
  split; [|split; [now rewrite blank_rev | exact Hv]].
  rewrite <- rev_app_distr, <- Hs. symmetry. apply rev_involutive.
Qed.

Lemma starts_visible_prefix (a b : string) :
  starts_visible (a +:+ b) -> starts_visible a.
Proof. destruct a; [cbn; auto|]. rewrite append_cons. auto. Qed.

(** [strip] removes a blank prefix and a blank suffix, and what it keeps
    neither starts nor ends with white space. *)
Lemma strip_spec (s : string) :
  exists l r, s = l +:+ strip s +:+ r
    /\ blank l = true /\ blank r = true
    /\ starts_visible (strip s) /\ starts_visible (String.rev (strip s)).
Proof.
  destruct (lstrip_spec s) as (l & Hs & Hl & Hv).
  destruct (rstrip_spec (lstrip s)) as (r & Hr & Hbr & Hvr).
  exists l, r. unfold strip. rewrite <- Hr. repeat split; auto.
  rewrite Hr in Hv. eapply starts_visible_prefix. exact Hv.
Qed.

(** C10.  [record_text_input] leaves the recorder as it is, and so
    appends nothing, when recording is inactive or the text is empty or
    white space only; otherwise the log grows by the new operation,
    preceded by at most a synthesized wait, and the text of the operation
    is the input without its leading and trailing white space. *)
Theorem record_text_input_guard now text r :
  (is_recording r = false \/ blank text = true ->
     record_text_input now text r = r)
  /\ (is_recording r = true /\ blank text = false ->
      exists waits kept before after,
        operations (record_text_input now text r)
        = operations r ++ waits
            ++ [Op (fsub now (start_time r)) (KwInputText kept)]
        /\ Forall (fun o => is_wait o = true) waits
        /\ (length waits <= 1)%nat
        /\ kept = strip text
        /\ text = before +:+ kept +:+ after
        /\ blank before = true /\ blank after = true
        /\ starts_visible kept /\ starts_visible (String.rev kept)).
Proof.
  unfold record_text_input. split.
  - intros [Hrec|Hblank].
    + now rewrite Hrec.
    + apply strip_falsy in Hblank. rewrite Hblank. cbn.
      now rewrite orb_true_r.
  - intros [Hrec Hblank].
    assert (Ht : truthy (strip text) = true).
    { destruct (truthy (strip text)) eqn:Ht; [reflexivity|].
      apply strip_falsy in Ht. congruence. }
    rewrite Hrec, Ht. cbn [negb orb].
    destruct (strip_spec text) as (before & after & Htext & Hb & Ha & Hv & Hw).
    unfold _record_operation. cbn [operations].
    destruct (_ && _).
    + exists [WAIT (round2 (fsub (fsub now (start_time r)) (last_operation_time r)))
                   (last_operation_time r)], (strip text), before, after.
      rewrite <- app_assoc. repeat split; auto; cbn; lia.
    + exists [], (strip text), before, after. repeat split; auto; cbn; lia.
Qed.

End TextInput.

(** ** The keyboard buffer *)

Section Keyboard.
Import Recorder Contract Notions.

Lemma set_text_lookup dev text r :
  _keyboard_cache (set_text dev text r) !! dev
  = (fun e => KbEntry text (last_input_time e)) <$> _keyboard_cache r !! dev.
Proof. unfold set_text, set_cache. cbn. apply lookup_alter_eq. Qed.

(** After a key event that reaches [_check_input_timeout], the entry of
    the device carries the time of that event. *)
Lemma key_event_stamps now now_rec dev key_code key_state r r' :
  _process_keyboard_event now now_rec dev key_code key_state r = (r', true) ->
  exists text, _keyboard_cache r' !! dev = Some (KbEntry text now).
Proof.
  unfold _process_keyboard_event.
  destruct (String.eqb key_code "KEY_LEFTSHIFT"); [discriminate|].
  destruct (negb _); [discriminate|].
  destruct (String.eqb key_code "KEY_BACKSPACE"); [discriminate|].
  destruct (_ && _); [discriminate|].
  intros [= <-].
  destruct (truthy _).
  - rewrite set_text_lookup. cbn. rewrite lookup_insert_eq. cbn. eauto.
  - cbn. rewrite lookup_insert_eq. eauto.
Qed.

(** The only timeout check that a key event starts does nothing unless
    its own clock reading is already more than the timeout past the
    event. *)
Lemma callback_without_delay now now_rec t_cb t_rec dev key_code key_state r r' :
  _process_keyboard_event now now_rec dev key_code key_state r = (r', true) ->
  fgt (fsub t_cb now) _input_timeout = false ->
  timeout_callback t_cb t_rec dev r' = r'.
Proof.
  intros Hkey Hsoon. destruct (key_event_stamps _ _ _ _ _ _ _ Hkey) as [text Hentry].
  unfold timeout_callback. rewrite Hentry. cbn [kb_text last_input_time].
  rewrite Hsoon. now rewrite andb_false_r.
Qed.

End Keyboard.

(** C8 does not hold of the code.  A key A pressed 5 s into the
    recording leaves the buffer holding the letter; the timeout check it
    starts runs at once, finds no idle time, and records nothing; no
    later check exists, so the buffer stays as it is however long the
    device remains idle.  Run 2 s later, the same check would have
    recorded the text. *)
Theorem idle_timeout_not_flushed :
  let r0 := Recorder.start_recording_state (Notions.seconds 100) in
  let step := Recorder._process_keyboard_event (Notions.seconds 105)
                (Notions.seconds 105) "/dev/input/event3" "KEY_A" "DOWN" r0 in
  let r1 := fst step in
  let r2 := Recorder.timeout_callback (Notions.seconds 105)
              (Notions.seconds 105) "/dev/input/event3" r1 in
  snd step = true
  /\ Recorder.cached_text "/dev/input/event3" r1 = "a"
  /\ r2 = r1
  /\ Recorder.operations r2 = []
  /\ Recorder.operations
       (Recorder.timeout_callback (Notions.seconds 107) (Notions.seconds 107)
          "/dev/input/event3" r1)
     = [Recorder.Op (Notions.seconds 7) (Recorder.KwInputText "a")].
Proof.
  cbv zeta. repeat split; vm_compute; reflexivity.
Qed.

(** ** Replay: index first, coordinates as the fallback *)

Section IndexFallback.
Import Device Replay.

Lemma in_range_spec i (ui : list UIElement) :
  in_range i ui = true <-> 0 <= i < Z.of_nat (length ui).
Proof. unfold in_range. rewrite andb_true_iff, Z.leb_le, Z.ltb_lt. tauto. Qed.

Lemma in_range_false i (ui : list UIElement) :
  in_range i ui = false <-> ~ (0 <= i < Z.of_nat (length ui)).
Proof. rewrite <- in_range_spec. destruct (in_range i ui); split; congruence. Qed.

Variable env : AsyncAndroidEnv.
Hypothesis controller_ok : controller_valid env = true.

Lemma click_by_index_in_range w i ui :
  get_state env (reads w) = Some ui ->
  in_range i ui = true ->
  _click_by_index env i w
  = (Ok tt, {| reads := S (reads w);
               trace := trace w ++ [Exec (click_index i) ui; Sleep 1.5] |}).
Proof.
  intros Hui Hin.
  unfold _click_by_index, bind, _get_valid_controller, _get_screen_size,
    _get_stable_ui_elements, execute_adb_action, sleep, emit, ret.
  rewrite controller_ok, Hui, Hin. cbn. now rewrite <- app_assoc.
Qed.

Lemma click_by_index_out_of_range w i ui :
  get_state env (reads w) = Some ui ->
  in_range i ui = false ->
  _click_by_index env i w
  = (Raise IndexError, {| reads := S (reads w); trace := trace w |}).
Proof.
  intros Hui Hout.
  unfold _click_by_index, bind, _get_valid_controller, _get_screen_size,
    _get_stable_ui_elements, raise, ret.
  now rewrite controller_ok, Hui, Hout.
Qed.

Lemma click_by_coords_run w cx cy ui :
  get_state env (reads w) = Some ui ->
  _click_by_coords env cx cy w
  = (Ok tt, {| reads := S (reads w);
               trace := trace w ++ [Exec (click_coords cx cy) ui; Sleep 1.5] |}).
Proof.
  intros Hui.
  unfold _click_by_coords, bind, _get_valid_controller, _get_screen_size,
    _get_stable_ui_elements, execute_adb_action, sleep, emit, ret.
  rewrite controller_ok, Hui. cbn. now rewrite <- app_assoc.
Qed.

Lemma input_text_run w t ui :
  get_state env (reads w) = Some ui ->
  _input_text env t w
  = (Ok tt, {| reads := S (reads w);
               trace := trace w ++ [Exec (input_text t) ui; Sleep 1] |}).
Proof.
  intros Hui.
  unfold _input_text, bind, _get_valid_controller, _get_screen_size,
    _get_stable_ui_elements, execute_adb_action, sleep, emit, ret.
  rewrite controller_ok, Hui. cbn. now rewrite <- app_assoc.
Qed.

(** A method that does not raise [IndexError] itself. *)
Lemma click_by_coords_no_index_error w cx cy :
  fst (_click_by_coords env cx cy w) <> Raise IndexError.
Proof.
  unfold _click_by_coords, bind, _get_valid_controller, _get_screen_size,
    _get_stable_ui_elements, execute_adb_action, sleep, emit, ret.
  rewrite controller_ok. cbn.
  destruct (get_state env (reads w)); cbn; discriminate.
Qed.

(** C2.  For a click step that carries the recorded index [i] and the
    coordinates [(cx, cy)], run on a device whose controller is valid and
    whose snapshot is [ui]: if [0 <= i < len(ui)] the index click is the
    only action and no coordinate click follows; otherwise
    [_click_by_index] raises [IndexError] before acting, the step catches
    it and performs exactly one coordinate click at [(cx, cy)] on the
    next snapshot; and in no case does the step end in [IndexError]. *)
Theorem index_click_or_coordinate_fallback w i cx cy ui :
  get_state env (reads w) = Some ui ->
  (0 <= i < Z.of_nat (length ui) ->
     run_step env (TryIndexExceptCoords i (Some cx) (Some cy)) w
     = (Ok tt, {| reads := S (reads w);
                  trace := trace w ++ [Exec (click_index i) ui; Sleep 1.5] |}))
  /\ (~ (0 <= i < Z.of_nat (length ui)) ->
      _click_by_index env i w
      = (Raise IndexError, {| reads := S (reads w); trace := trace w |})
      /\ forall ui', get_state env (S (reads w)) = Some ui' ->
           run_step env (TryIndexExceptCoords i (Some cx) (Some cy)) w
           = (Ok tt, {| reads := S (S (reads w));
                        trace := trace w ++ [Warning;
                                             Exec (click_coords (Some cx) (Some cy)) ui';
                                             Sleep 1.5] |}))
  /\ fst (run_step env (TryIndexExceptCoords i (Some cx) (Some cy)) w)
     <> Raise IndexError.
Proof.
  intros Hui. split; [|split].
  - intros Hin. apply (proj2 (in_range_spec i ui)) in Hin. cbn [run_step]. unfold try_except.
    now rewrite (click_by_index_in_range w i ui Hui Hin).
  - intros Hout. apply (proj2 (in_range_false i ui)) in Hout.
    split; [now apply (click_by_index_out_of_range w i ui)|].
    intros ui' Hui'. cbn [run_step]. unfold try_except.
    rewrite (click_by_index_out_of_range w i ui Hui Hout).
    destruct (decide (IndexError = IndexError)) as [_|Hne]; [|congruence].
    unfold bind at 1, warning, emit. cbn [reads trace].
    rewrite (click_by_coords_run _ (Some cx) (Some cy) ui') by exact Hui'.
    cbn [reads trace]. now rewrite <- app_assoc.
  - cbn [run_step]. unfold try_except.
    destruct (in_range i ui) eqn:Hr.
    + rewrite (click_by_index_in_range w i ui Hui Hr). discriminate.
    + rewrite (click_by_index_out_of_range w i ui Hui Hr).
      destruct (decide (IndexError = IndexError)) as [_|Hne]; [|congruence].
      unfold bind at 1, warning, emit. apply click_by_coords_no_index_error.
Qed.

(** C6.  The recorded sequence of a click at (100, 200) without element
    and of the text [Hello] generates a coordinate click with no attempt
    by index, followed by the text input; run on a device whose controller
    is valid, it performs exactly the coordinate click at (100, 200) and
    then the input of [Hello] with [clear_text] set. *)
Theorem replay_click_then_text w ui1 ui2 :
  get_state env (reads w) = Some ui1 ->
  get_state env (S (reads w)) = Some ui2 ->
  let recorded :=
    [ {| op_action_type := "click"; op_element := None;
         op_x := Some 100; op_y := Some 200;
         op_text := None; op_duration := None |};
      {| op_action_type := "input_text"; op_element := None;
         op_x := None; op_y := None;
         op_text := Some "Hello"%string; op_duration := None |} ] in
  _generate_step_code recorded
  = [CoordsOnly (Some 100) (Some 200); InputTextCall "Hello"]
  /\ replay env recorded w
     = (Ok tt, {| reads := S (S (reads w));
                  trace := trace w
                           ++ [Exec (click_coords (Some 100) (Some 200)) ui1;
                               Sleep 1.5;
                               Exec {| kind := INPUT_TEXT; index := None;
                                       x := None; y := None;
                                       text := Some "Hello"%string;
                                       clear_text := Some true |} ui2;
                               Sleep 1] |})
  /\ executed (trace (snd (replay env recorded w)))
     = executed (trace w)
       ++ [click_coords (Some 100) (Some 200);
           {| kind := INPUT_TEXT; index := None; x := None; y := None;
              text := Some "Hello"%string; clear_text := Some true |}].
Proof.
  intros Hui1 Hui2 recorded.
  assert (Hgen : _generate_step_code recorded
                 = [CoordsOnly (Some 100) (Some 200); InputTextCall "Hello"])
    by reflexivity.
  assert (Hrun : replay env recorded w
     = (Ok tt, {| reads := S (S (reads w));
                  trace := trace w
                           ++ [Exec (click_coords (Some 100) (Some 200)) ui1;
                               Sleep 1.5;
                               Exec (input_text "Hello") ui2;
                               Sleep 1] |})).
  { unfold replay, run_operations. rewrite Hgen.
    change (forallb well_formed _) with true. cbn iota.
    cbn [run_steps run_step]. unfold bind at 1.
    rewrite (click_by_coords_run w _ _ ui1 Hui1).
    change (literal_value "Hello") with (Some "Hello"%string). cbn iota.
    unfold bind at 1.
    rewrite (input_text_run _ "Hello" ui2) by exact Hui2.
    unfold ret. cbn [reads trace]. now rewrite <- app_assoc. }
  split; [exact Hgen|]. split; [exact Hrun|].
  rewrite Hrun. cbn [snd trace]. unfold executed.
  rewrite omap_app. reflexivity.
Qed.

End IndexFallback.

(** ** The text literal of the generated script *)

Section Literals.
Import Device Replay Notions.

Lemma replace_char_app c by_ (a b : string) :
  replace_char c by_ (a +:+ b) = replace_char c by_ a +:+ replace_char c by_ b.
Proof.
  induction a as [|x a IH]; [reflexivity|].
  rewrite append_cons. cbn [replace_char].
  destruct (Ascii.eqb x c); rewrite IH.
  - now rewrite append_assoc.
  - now rewrite append_cons.
Qed.

Lemma escape_cons c (t : string) :
  escape (String c t) = escape (String c EmptyString) +:+ escape t.
Proof.
  change (String c t) with (String c EmptyString +:+ t).
  unfold escape. now rewrite !replace_char_app.
Qed.

(** The text written into the script is read back unchanged, unless it
    holds a carriage return. *)
Lemma literal_value_escape (t : string) :
  no_carriage_return t = true -> literal_value (escape t) = Some t.
Proof.
  induction t as [|c t IH]; [reflexivity|].
  cbn [no_carriage_return]. intros [Hc Ht]%andb_prop.
  specialize (IH Ht). rewrite escape_cons.
  destruct (Ascii.eqb_spec c backslash) as [->|Hbs].
  { change (escape (String backslash EmptyString))
      with (String backslash (String backslash EmptyString)).
    rewrite !append_cons. cbn [literal_value].
    change (Ascii.eqb backslash backslash) with true. cbn iota.
    change (EmptyString +:+ escape t) with (escape t). now rewrite IH. }
  destruct (Ascii.eqb_spec c dquote) as [->|Hdq].
  { change (escape (String dquote EmptyString))
      with (String backslash (String dquote EmptyString)).
    rewrite !append_cons. cbn [literal_value].
    change (Ascii.eqb backslash backslash) with true.
    change (Ascii.eqb dquote backslash) with false.
    change (Ascii.eqb dquote dquote) with true. cbn iota.
    change (EmptyString +:+ escape t) with (escape t). now rewrite IH. }
  destruct (Ascii.eqb_spec c newline) as [->|Hnl].
  { change (escape (String newline EmptyString))
      with (String backslash (String "n"%char EmptyString)).
    rewrite !append_cons. cbn [literal_value].
    change (Ascii.eqb backslash backslash) with true.
    change (Ascii.eqb "n"%char backslash) with false.
    change (Ascii.eqb "n"%char dquote) with false.
    change (Ascii.eqb "n"%char "n"%char) with true. cbn iota.
    change (EmptyString +:+ escape t) with (escape t). now rewrite IH. }
  assert (Hesc : escape (String c EmptyString) = String c EmptyString).
  { unfold escape. cbn [replace_char].
    rewrite (proj2 (Ascii.eqb_neq c backslash) Hbs). cbn [replace_char].
    rewrite (proj2 (Ascii.eqb_neq c dquote) Hdq). cbn [replace_char].
    now rewrite (proj2 (Ascii.eqb_neq c newline) Hnl). }
  rewrite Hesc, append_cons. change (EmptyString +:+ escape t) with (escape t).
  cbn [literal_value].
  rewrite (proj2 (Ascii.eqb_neq c backslash) Hbs).
  rewrite (proj2 (Ascii.eqb_neq c dquote) Hdq).
  rewrite (proj2 (Ascii.eqb_neq c newline) Hnl).
  apply negb_true_iff in Hc. rewrite Hc. cbn [orb]. now rewrite IH.
Qed.

End Literals.

Section ReplayText.
Import Device Replay Notions.

Variable env : AsyncAndroidEnv.
Hypothesis controller_ok : controller_valid env = true.

(** Any recorded text without carriage return is typed as it was
    recorded, with [clear_text] set. *)
Lemma replay_input_text w ui t :
  get_state env (reads w) = Some ui ->
  no_carriage_return t = true ->
  replay env [ {| op_action_type := "input_text"; op_element := None;
                  op_x := None; op_y := None;
                  op_text := Some t; op_duration := None |} ] w
  = (Ok tt, {| reads := S (reads w);
               trace := trace w ++ [Exec (input_text t) ui; Sleep 1] |}).
Proof using controller_ok.
  intros Hui Ht.
  unfold replay, run_operations, _generate_step_code.
  cbn [map]. change (generate_step _) with (InputTextCall (escape t)).
  cbn [forallb well_formed run_steps run_step].
  rewrite (literal_value_escape t Ht).
  rewrite bool_decide_eq_true_2 by eauto. cbn [andb].
  unfold bind. rewrite (input_text_run env controller_ok w t ui Hui).
  reflexivity.
Qed.

End ReplayText.

(** The step of C2 on the chain index 99, then coordinates (5, 5), with
    an empty snapshot. *)
Lemma index_click_or_coordinate_fallback_witness :
  Replay.run_step (Device.Env true (1080, 2400) (fun _ => Some []))
    (Replay.TryIndexExceptCoords 99 (Some 5) (Some 5)) Device.initial_world
  = (Ok tt,
     {| Device.reads := 2;
        Device.trace := [Device.Warning;
                         Device.Exec (Device.click_coords (Some 5) (Some 5)) [];
                         Device.Sleep 1.5] |}).
Proof.
  destruct (index_click_or_coordinate_fallback
              (Device.Env true (1080, 2400) (fun _ => Some [])) eq_refl
              Device.initial_world 99 5 5 [] eq_refl) as (_ & Hout & _).
  refine (proj2 (Hout _) [] eq_refl). cbn. lia.
Defined.

(** The replay of C6 on a device that shows one element throughout. *)
Lemma replay_click_then_text_witness :
  Device.executed (Device.trace (snd (Replay.replay
    (Device.Env true (1080, 2400)
       (fun _ => Some [Device.Element (Some "Search"%string) None]))
    [ {| Replay.op_action_type := "click"; Replay.op_element := None;
         Replay.op_x := Some 100; Replay.op_y := Some 200;
         Replay.op_text := None; Replay.op_duration := None |};
      {| Replay.op_action_type := "input_text"; Replay.op_element := None;
         Replay.op_x := None; Replay.op_y := None;
         Replay.op_text := Some "Hello"%string; Replay.op_duration := None |} ]
    Device.initial_world)))
  = [Device.click_coords (Some 100) (Some 200); Device.input_text "Hello"].
Proof.
  exact (proj2 (proj2 (replay_click_then_text
    (Device.Env true (1080, 2400)
       (fun _ => Some [Device.Element (Some "Search"%string) None]))
    eq_refl Device.initial_world _ _ eq_refl eq_refl))).
Defined.

(** ** Resolution by text and by content description *)

Section Resolution.
Import Device Resolver Contract Notions.

Variable matches : UIElement -> bool.
Variable act : Z -> JSONAction.
Variable pause : Q.
Variable ui : list UIElement.

(** The inner loop of both methods, from position [i] of the snapshot. *)
Lemma inner_loop l : forall i w,
  for_each (enumerate_from i l) (fun '(idx, elem) =>
    if matches elem then
      execute_adb_action (act (Z.of_nat idx)) ui;; sleep pause;; ret Return
    else ret Next) w
  = match list_find (fun e => matches e = true) l with
    | Some (j, _) =>
        (Ok Return,
         {| reads := reads w;
            trace := trace w ++ [Exec (act (Z.of_nat (i + j))) ui; Sleep pause] |})
    | None => (Ok Next, w)
    end.
Proof using Type.
  induction l as [|a l IH]; intros i w; [reflexivity|].
  cbn [enumerate_from for_each list_find]. unfold bind at 1.
  destruct (matches a) eqn:Ha.
  - rewrite decide_True by reflexivity. cbn.
    unfold bind, execute_adb_action, sleep, emit, ret. cbn.
    rewrite Nat.add_0_r, <- app_assoc. reflexivity.
  - rewrite decide_False by discriminate. unfold ret at 1.
    rewrite IH. destruct (list_find _ l) as [[j e]|]; cbn; [|reflexivity].
    now rewrite Nat.add_succ_r.
Qed.

End Resolution.

Section TextResolution.
Import Device Resolver Contract Notions.

Lemma resolve_Some matches (ui : list UIElement) candidates idx :
  resolve matches ui candidates = Some idx <->
  exists k c e,
    candidates !! k = Some c /\ ui !! idx = Some e /\ matches c e = true
    /\ (forall k' c' e', (k' < k)%nat -> candidates !! k' = Some c' ->
          e' ∈ ui -> matches c' e' = false)
    /\ (forall j e', (j < idx)%nat -> ui !! j = Some e' -> matches c e' = false).
Proof.
  induction candidates as [|c0 rest IH]; cbn [resolve].
  { split; [discriminate|]. intros (k & c & e & Hk & _). destruct k; discriminate. }
  destruct (list_find (fun e => matches c0 e = true) ui) as [[j e0]|] eqn:Hfind.
  - apply list_find_Some in Hfind as (Hj & Hm & Hmin).
    split.
    + intros [= <-]. exists 0%nat, c0, e0. repeat split; auto; [lia|].
      intros j' e' Hlt He'. specialize (Hmin j' e' He' Hlt).
      destruct (matches c0 e'); congruence.
    + intros (k & c & e & Hk & Hidx & Hme & Hprev & Hfirst).
      destruct k as [|k].
      * injection Hk as <-. f_equal.
        destruct (Nat.lt_trichotomy j idx) as [Hlt|[Heq|Hgt]]; [|exact Heq|].
        -- rewrite (Hfirst j e0 Hlt Hj) in Hm. discriminate.
        -- specialize (Hmin idx e Hidx Hgt). congruence.
      * specialize (Hprev 0%nat c0 e0 ltac:(lia) eq_refl
                      ltac:(eapply list_elem_of_lookup_2; eauto)).
        congruence.
  - apply list_find_None in Hfind. rewrite IH. split.
    + intros (k & c & e & Hk & Hidx & Hme & Hprev & Hfirst).
      exists (S k), c, e. repeat split; auto.
      intros k' c' e' Hlt Hk' He'. destruct k' as [|k'].
      * injection Hk' as <-. rewrite Forall_forall in Hfind.
        specialize (Hfind e' He'). destruct (matches c0 e'); congruence.
      * apply (Hprev k' c' e'); [lia|exact Hk'|exact He'].
    + intros (k & c & e & Hk & Hidx & Hme & Hprev & Hfirst).
      destruct k as [|k].
      * injection Hk as <-. rewrite Forall_forall in Hfind.
        specialize (Hfind e ltac:(eapply list_elem_of_lookup_2; eauto)). congruence.
      * exists k, c, e. repeat split; auto.
        intros k' c' e' Hlt Hk' He'. apply (Hprev (S k') c' e'); [lia|exact Hk'|exact He'].
Qed.

Lemma resolve_None matches (ui : list UIElement) candidates :
  resolve matches ui candidates = None <->
  forall c e, c ∈ candidates -> e ∈ ui -> matches c e = false.
Proof.
  induction candidates as [|c0 rest IH]; cbn [resolve].
  { split; [|reflexivity]. intros _ c e Hc. apply elem_of_nil in Hc as []. }
  destruct (list_find (fun e => matches c0 e = true) ui) as [[j e0]|] eqn:Hfind.
  - apply list_find_Some in Hfind as (Hj & Hm & _). split; [discriminate|].
    intros Hall. rewrite (Hall c0 e0) in Hm; [discriminate|left|].
    eapply list_elem_of_lookup_2; eauto.
  - apply list_find_None in Hfind. rewrite Forall_forall in Hfind. rewrite IH.
    split.
    + intros Hall c e [->|Hc]%elem_of_cons He.
      * specialize (Hfind e He). destruct (matches c0 e); congruence.
      * now apply Hall.
    + intros Hall c e Hc He. apply Hall; [now right|exact He].
Qed.

(** The outer loop of [_long_press_by_text]. *)
Lemma text_loop (ui : list UIElement) candidates : forall w,
  for_each candidates (fun candidate =>
    for_each (enumerate ui) (fun '(idx, elem) =>
      if text_matches candidate elem then
        execute_adb_action (long_press_index (Z.of_nat idx)) ui;;
        sleep 2;; ret Return
      else ret Next)) w
  = match resolve text_matches ui candidates with
    | Some j =>
        (Ok Return,
         {| reads := reads w;
            trace := trace w ++ [Exec (long_press_index (Z.of_nat j)) ui; Sleep 2] |})
    | None => (Ok Next, w)
    end.
Proof.
  induction candidates as [|c rest IH]; intros w; [reflexivity|].
  cbn [for_each resolve]. unfold bind at 1, enumerate.
  rewrite (inner_loop (text_matches c) long_press_index 2 ui ui 0 w).
  destruct (list_find _ ui) as [[j e]|]; [reflexivity|]. apply IH.
Qed.

Lemma text_matches_spec candidate elem :
  text_matches candidate elem = true <->
  exists t, elem_text elem = Some t /\ t <> EmptyString
            /\ lower candidate = lower t.
Proof.
  unfold text_matches. destruct (elem_text elem) as [t|].
  - rewrite andb_true_iff, String.eqb_eq. split.
    + intros [Ht Heq]. exists t. repeat split; auto. intros ->. discriminate.
    + intros (t' & [= <-] & Hne & Heq). split; [|exact Heq].
      destruct t; [congruence|reflexivity].
  - split; [discriminate|]. intros (t & Ht & _). discriminate.
Qed.

End TextResolution.

Section TextPress.
Import Device Resolver Contract Notions.

Variable env : AsyncAndroidEnv.
Hypothesis controller_ok : controller_valid env = true.

Lemma long_press_by_text_run w ui texts fb :
  get_state env (reads w) = Some ui ->
  _long_press_by_text env texts fb w
  = match resolve text_matches ui texts with
    | Some j =>
        (Ok tt, {| reads := S (reads w);
                   trace := trace w
                     ++ [Exec (long_press_index (Z.of_nat j)) ui; Sleep 2] |})
    | None =>
        match fb with
        | None => (Raise RuntimeError, {| reads := S (reads w); trace := trace w |})
        | Some i =>
            if in_range i ui
            then (Ok tt, {| reads := S (reads w);
                            trace := trace w
                              ++ [Exec (long_press_index i) ui; Warning; Sleep 2] |})
            else (Raise IndexError, {| reads := S (reads w); trace := trace w |})
        end
    end.
Proof using controller_ok.
  intros Hui. unfold _long_press_by_text.
  unfold bind at 1, _get_valid_controller. rewrite controller_ok. unfold ret at 1.
  unfold bind at 1, _get_screen_size, ret at 1.
  unfold bind at 1, _get_stable_ui_elements. rewrite Hui.
  unfold bind at 1. rewrite text_loop. cbn [reads trace].
  destruct (resolve text_matches ui texts) as [j|]; [reflexivity|].
  destruct fb as [i|]; [|reflexivity].
  destruct (in_range i ui); cbn [negb]; [|reflexivity].
  unfold bind, execute_adb_action, warning, sleep, emit. cbn.
  now rewrite <- !app_assoc.
Qed.

Lemma text_matches_folded candidate e :
  text_matches candidate e = true <-> has_text e /\ equal_folded candidate e.
Proof.
  rewrite text_matches_spec. unfold has_text, equal_folded. split.
  - intros (t & Ht & Hne & Heq). split; exists t; auto.
  - intros [(t & Ht & Hne) (t' & Ht' & Heq)]. exists t.
    rewrite Ht in Ht'. injection Ht' as <-. auto.
Qed.

Lemma text_matches_not_folded candidate e :
  text_matches candidate e = false <-> ~ (has_text e /\ equal_folded candidate e).
Proof.
  rewrite <- text_matches_folded. destruct (text_matches candidate e); split; congruence.
Qed.

(** C5, amended.  On a device whose controller is valid and whose
    snapshot is [ui], [_long_press_by_text] selects the element at
    position [idx] exactly when that element has a non-empty text that
    some candidate equals in full under lowercase folding, no earlier
    candidate so equals the non-empty text of any element, and no earlier
    element so matches the candidate: candidates are tried in list order
    and the earliest matching element wins.  The text [OK] is matched by
    the candidate [ok] but not by [O]. *)
Theorem long_press_by_text_selects w ui texts fb idx :
  get_state env (reads w) = Some ui ->
  (selected_by_text env texts fb w ui idx <->
   exists k c e,
     texts !! k = Some c /\ ui !! idx = Some e
     /\ has_text e /\ equal_folded c e
     /\ (forall k' c' e', (k' < k)%nat -> texts !! k' = Some c' -> e' ∈ ui ->
           ~ (has_text e' /\ equal_folded c' e'))
     /\ (forall j e', (j < idx)%nat -> ui !! j = Some e' ->
           ~ (has_text e' /\ equal_folded c e')))
  /\ text_matches "ok" (Element (Some "OK"%string) None) = true
  /\ text_matches "O" (Element (Some "OK"%string) None) = false.
Proof using controller_ok.
  intros Hui. split; [|split; reflexivity].
  unfold selected_by_text. rewrite (long_press_by_text_run w ui texts fb Hui).
  transitivity (resolve text_matches ui texts = Some idx).
  - destruct (resolve text_matches ui texts) as [j|] eqn:Hres.
    + split.
      * intros [= H]. apply app_inv_head in H. injection H as H.
        f_equal. lia.
      * intros [= ->]. reflexivity.
    + split; [|discriminate]. destruct fb as [i|]; [|discriminate].
      destruct (in_range i ui); [|discriminate].
      intros [= H]. apply app_inv_head in H. discriminate.
  - split.
    + intros Hres. apply resolve_Some in Hres
        as (k & c & e & Hk & Hidx & Hm & Hprev & Hfirst).
      apply text_matches_folded in Hm as [Hte Heq].
      exists k, c, e. repeat split; auto.
      * intros k' c' e' Hlt Hk' He'. apply text_matches_not_folded. eauto.
      * intros j e' Hlt He'. apply text_matches_not_folded. eauto.
    + intros (k & c & e & Hk & Hidx & Hte & Heq & Hprev & Hfirst).
      apply resolve_Some.
      exists k, c, e. repeat split; auto.
      * apply text_matches_folded. auto.
      * intros k' c' e' Hlt Hk' He'. apply text_matches_not_folded. eauto.
      * intros j e' Hlt He'. apply text_matches_not_folded. eauto.
Qed.

End TextPress.

(** The theorem on a snapshot of three elements, with the candidates [O]
    and [ok]: the run selects the element at position 1, so the second
    candidate is the first one to equal a text, and position 1 is the
    first such text. *)
Lemma long_press_by_text_selects_witness :
  let ui := [Device.Element (Some "x"%string) None;
             Device.Element (Some "OK"%string) None;
             Device.Element (Some "ok"%string) None] in
  exists k c e,
    ["O"; "ok"]%string !! k = Some c /\ ui !! 1%nat = Some e
    /\ Notions.has_text e /\ Contract.equal_folded c e
    /\ (forall k' c' e', (k' < k)%nat -> ["O"; "ok"]%string !! k' = Some c' ->
          e' ∈ ui -> ~ (Notions.has_text e' /\ Contract.equal_folded c' e'))
    /\ (forall j e', (j < 1)%nat -> ui !! j = Some e' ->
          ~ (Notions.has_text e' /\ Contract.equal_folded c e')).
Proof.
  intros ui.
  apply (proj1 (proj1 (long_press_by_text_selects
    (Device.Env true (1080, 2400) (fun _ => Some ui))
    eq_refl Device.initial_world ui ["O"; "ok"]%string None 1%nat eq_refl))).
  vm_compute. reflexivity.
Defined.

(** C5, as stated, fails on an empty text: the candidate and the text of
    the only element are both empty, hence equal under folding, yet no
    element is selected and the method raises. *)
Lemma text_equality_counterexample :
  let e := Device.Element (Some EmptyString) None in
  let env := Device.Env true (1080, 2400) (fun _ => Some [e]) in
  Contract.equal_folded EmptyString e
  /\ Resolver._long_press_by_text env [EmptyString] None Device.initial_world
     = (Raise RuntimeError, {| Device.reads := 1; Device.trace := [] |})
  /\ ~ (forall env texts fb w ui,
          Device.controller_valid env = true ->
          Device.get_state env (Device.reads w) = Some ui ->
          (exists idx, Notions.selected_by_text env texts fb w ui idx)
          <-> (exists c e, c ∈ texts /\ e ∈ ui /\ Contract.equal_folded c e)).
Proof.
  intros e env.
  assert (Heq : Contract.equal_folded EmptyString e).
  { exists EmptyString. split; reflexivity. }
  assert (Hrun : Resolver._long_press_by_text env [EmptyString] None
                   Device.initial_world
                 = (Raise RuntimeError, {| Device.reads := 1; Device.trace := [] |}))
    by reflexivity.
  split; [exact Heq|]. split; [exact Hrun|].
  intros Hall.
  destruct (Hall env [EmptyString] None Device.initial_world [e] eq_refl eq_refl)
    as [_ Hsel].
  destruct Hsel as [idx Hidx].
  { exists EmptyString, e. repeat split; [left|left|exact Heq]. }
  unfold Notions.selected_by_text in Hidx. rewrite Hrun in Hidx. discriminate.
Qed.

Section DescriptionClick.
Import Device Resolver Contract Notions.

Variable env : AsyncAndroidEnv.
Hypothesis controller_ok : controller_valid env = true.

(** What the method does: only the first candidate is ever tried. *)
Lemma click_by_description_run w ui targets fb :
  get_state env (reads w) = Some ui ->
  _click_element_by_content_description env targets fb w
  = match targets with
    | [] => (Ok tt, {| reads := S (reads w); trace := trace w |})
    | target :: _ =>
        match list_find (fun e => desc_matches target e = true) ui with
        | Some (j, _) =>
            (Ok tt, {| reads := S (reads w);
                       trace := trace w
                         ++ [Exec (click_index (Z.of_nat j)) ui; Sleep 1.5] |})
        | None => (Raise RuntimeError, {| reads := S (reads w); trace := trace w |})
        end
    end.
Proof using controller_ok.
  intros Hui. unfold _click_element_by_content_description.
  unfold bind at 1, _get_valid_controller. rewrite controller_ok. unfold ret at 1.
  unfold bind at 1, _get_screen_size, ret at 1.
  unfold bind at 1, _get_stable_ui_elements. rewrite Hui.
  destruct targets as [|target rest]; [reflexivity|].
  cbn [for_each]. unfold bind at 1 2 3, enumerate.
  rewrite (inner_loop (desc_matches target) click_index 1.5 ui ui 0).
  destruct (list_find _ ui) as [[j e]|]; reflexivity.
Qed.

(** Whatever candidates follow, a first candidate that matches no element
    ends the method with the error. *)
Lemma description_gives_up_after_first w ui target rest fb :
  get_state env (reads w) = Some ui ->
  (forall e, e ∈ ui -> desc_matches target e = false) ->
  _click_element_by_content_description env (target :: rest) fb w
  = (Raise RuntimeError, {| reads := S (reads w); trace := trace w |}).
Proof using controller_ok.
  intros Hui Hnone. rewrite (click_by_description_run w ui _ fb Hui).
  destruct (list_find _ ui) as [[j e]|] eqn:Hfind; [|reflexivity].
  apply list_find_Some in Hfind as (Hj & Hm & _).
  rewrite Hnone in Hm; [discriminate|]. eapply list_elem_of_lookup_2; eauto.
Qed.

(** The contract: the outer loop runs to its end before the error. *)
Lemma description_loop (ui : list UIElement) targets : forall w,
  for_each targets (fun target =>
    for_each (enumerate ui) (fun '(idx, elem) =>
      if desc_matches target elem then
        execute_adb_action (click_index (Z.of_nat idx)) ui;;
        sleep 1.5;; ret Return
      else ret Next)) w
  = match resolve desc_matches ui targets with
    | Some j =>
        (Ok Return,
         {| reads := reads w;
            trace := trace w ++ [Exec (click_index (Z.of_nat j)) ui; Sleep 1.5] |})
    | None => (Ok Next, w)
    end.
Proof using Type.
  induction targets as [|c rest IH]; intros w; [reflexivity|].
  cbn [for_each resolve]. unfold bind at 1, enumerate.
  rewrite (inner_loop (desc_matches c) click_index 1.5 ui ui 0 w).
  destruct (list_find _ ui) as [[j e]|]; [reflexivity|]. apply IH.
Qed.

Lemma click_by_description_exhaustive_run w ui targets :
  get_state env (reads w) = Some ui ->
  click_by_description_exhaustive env targets w
  = match resolve desc_matches ui targets with
    | Some j =>
        (Ok tt, {| reads := S (reads w);
                   trace := trace w
                     ++ [Exec (click_index (Z.of_nat j)) ui; Sleep 1.5] |})
    | None => (Raise RuntimeError, {| reads := S (reads w); trace := trace w |})
    end.
Proof using controller_ok.
  intros Hui. unfold click_by_description_exhaustive.
  unfold bind at 1, _get_valid_controller. rewrite controller_ok. unfold ret at 1.
  unfold bind at 1, _get_screen_size, ret at 1.
  unfold bind at 1, _get_stable_ui_elements. rewrite Hui.
  unfold bind at 1. rewrite description_loop. cbn [reads trace].
  destruct (resolve desc_matches ui targets); reflexivity.
Qed.

End DescriptionClick.

(** C1 does not hold of the code.  With the only element described as
    [Stop recording] and the candidates [Start], [Stop], the second
    candidate matches the element, yet the method raises after the first
    candidate and clicks nothing; the loop that exhausts the candidates
    clicks the element. *)
Theorem content_description_gives_up_early :
  let ui := [Device.Element None (Some "Stop recording"%string)] in
  let env := Device.Env true (1080, 2400) (fun _ => Some ui) in
  (exists e, ui !! 0%nat = Some e /\ Resolver.desc_matches "Stop" e = true)
  /\ Resolver._click_element_by_content_description env
       ["Start"; "Stop"]%string None Device.initial_world
     = (Raise RuntimeError, {| Device.reads := 1; Device.trace := [] |})
  /\ Contract.click_by_description_exhaustive env
       ["Start"; "Stop"]%string Device.initial_world
     = (Ok tt, {| Device.reads := 1;
                  Device.trace := [Device.Exec (Device.click_index 0) ui;
                                   Device.Sleep 1.5] |}).
Proof.
  cbv zeta. split; [|split]; [eexists; split; reflexivity | reflexivity..].
Qed.

(** ** The touch-range probe *)

Section Probe.
Import Recorder Contract Notions.

(** The guards after the probe never touch the lower end of a range. *)
Lemma reset_degenerate_keeps_min g :
  _raw_min_x (reset_degenerate g) = _raw_min_x g
  /\ _raw_min_y (reset_degenerate g) = _raw_min_y g.
Proof.
  unfold reset_degenerate.
  destruct (_raw_max_x g <=? _raw_min_x g); cbn;
    destruct (_ <=? _); cbn; auto.
Qed.

(** A degenerate range whose lower end is 32767 or more stays degenerate. *)
Lemma reset_degenerate_still_degenerate g :
  _raw_max_x g <= _raw_min_x g -> 32767 <= _raw_min_x g ->
  _raw_max_x (reset_degenerate g) <= _raw_min_x (reset_degenerate g).
Proof.
  intros Hdeg Hmin. unfold reset_degenerate.
  rewrite (proj2 (Z.leb_le _ _) Hdeg).
  destruct (_raw_max_y _ <=? _raw_min_y _); cbn; lia.
Qed.

(** On a range of width zero the scaling divides by zero. *)
Lemma zero_width_divides_by_zero raw lo dim :
  scale_axis raw lo lo dim = Raise ZeroDivisionError.
Proof.
  unfold scale_axis, axis_product, truediv. now rewrite Z.sub_diag.
Qed.

End Probe.

(** C4 does not hold of the code.  A probe that reports the range
    32767..32767 for the X axis leaves the lower end where it was probed
    and resets the upper end only, so the range stays of width zero; the
    next conversion divides by zero in its [try] body and returns the
    degraded pair of the handler. *)
Theorem degenerate_probe_divides_by_zero :
  let g := Recorder._init_touch_device_bounds
             (Some ["ABS_MT_POSITION_X : min 32767 max 32767"%string])
             Recorder.init_geometry in
  Recorder._raw_min_x g = 32767 /\ Recorder._raw_max_x g = 32767
  /\ Recorder.scale_axis 16000 (Recorder._raw_min_x g) (Recorder._raw_max_x g)
       (Recorder._screen_width g) = Raise ZeroDivisionError
  /\ Recorder.convert_try g 16000 16000 = Raise ZeroDivisionError
  /\ Recorder._convert_raw_to_screen g 16000 16000 = Ok (880, 1600).
Proof.
  cbv zeta. repeat split; vm_compute; reflexivity.
Qed.

(** A line cut short after its fourth field raises inside the loop, and
    the guards are skipped altogether: the range 5..5 read before stays. *)
Example probe_interrupted :
  let g := Recorder._init_touch_device_bounds
             (Some ["ABS_MT_POSITION_X : min 5 max 5";
                    "ABS_MT_POSITION_Y : min 7 max"]%string)
             Recorder.init_geometry in
  Recorder._raw_min_x g = 5 /\ Recorder._raw_max_x g = 5
  /\ Recorder.convert_try g 16000 16000 = Raise ZeroDivisionError.
Proof.
  cbv zeta. repeat split; vm_compute; reflexivity.
Qed.

(** C10 on the text [  hi ] typed one second into a recording. *)
Lemma record_text_input_guard_witness :
  Recorder.operations
    (Recorder.record_text_input (Notions.seconds 11) "  hi "
       (Recorder.start_recording_state (Notions.seconds 10)))
  = [Recorder.Op (Notions.seconds 1) (Recorder.KwInputText "hi")]
  /\ Recorder.record_text_input (Notions.seconds 11) "   "
       (Recorder.start_recording_state (Notions.seconds 10))
     = Recorder.start_recording_state (Notions.seconds 10).
Proof.
  destruct (record_text_input_guard (Notions.seconds 11) "  hi "
              (Recorder.start_recording_state (Notions.seconds 10)))
    as [_ Hrec].
  destruct (record_text_input_guard (Notions.seconds 11) "   "
              (Recorder.start_recording_state (Notions.seconds 10)))
    as [Hskip _].
  split; [|apply Hskip; right; reflexivity].
  destruct Hrec as (waits & kept & _); [split; reflexivity|].
  vm_compute. reflexivity.
Defined.

(** ** The scaling does not overflow *)

Section Digits.

Lemma digits2_size p : digits2_pos p = Pos.size p.
Proof. induction p; cbn; congruence. Qed.

Lemma digits_upper m : 0 <= m -> m < 2 ^ Zdigits2 m.
Proof.
  intros Hm. destruct m as [|p|p]; [cbn; lia| |lia].
  cbn [Zdigits2]. rewrite digits2_size.
  pose proof (Pos.size_gt p) as H.
  apply Pos2Z.pos_lt_pos in H. now rewrite Pos2Z.inj_pow in H.
Qed.

Lemma digits_nonneg m : 0 <= Zdigits2 m.
Proof. destruct m; cbn; lia. Qed.

Lemma digits_lower m : 0 < m -> 2 ^ (Zdigits2 m - 1) <= m.
Proof.
  intros Hm. destruct m as [|p|p]; [lia| |lia].
  cbn [Zdigits2]. rewrite digits2_size.
  pose proof (Pos.size_le p) as H.
  apply Pos2Z.pos_le_pos in H. rewrite Pos2Z.inj_pow in H.
  change (Z.pos p~0) with (2 * Z.pos p) in H.
  replace (Z.pos (Pos.size p)) with (Z.succ (Z.pos (Pos.size p) - 1)) in H by lia.
  rewrite Z.pow_succ_r in H by lia. lia.
Qed.

Lemma digits_le m k : 0 <= m -> 0 <= k -> m < 2 ^ k -> Zdigits2 m <= k.
Proof.
  intros Hm Hk Hlt. destruct (Z.eq_dec m 0) as [->|Hne]; [cbn; lia|].
  pose proof (digits_lower m ltac:(lia)) as Hlo.
  destruct (Z_lt_le_dec k (Zdigits2 m)) as [Hgt|]; [|lia].
  assert (2 ^ k <= 2 ^ (Zdigits2 m - 1)) by (apply Z.pow_le_mono_r; lia).
  lia.
Qed.

End Digits.

Section Rounding.

Lemma shr_1_half mrs : 0 <= shr_m mrs -> shr_m (shr_1 mrs) = shr_m mrs / 2.
Proof.
  destruct mrs as [m r s]. cbn [shr_m]. intros Hm.
  rewrite <- Z.div2_div.
  destruct m as [|[p|p|]|p]; try reflexivity. lia.
Qed.

Lemma iter_shr_1 p : forall mrs,
  0 <= shr_m mrs -> shr_m (SpecFloat.iter_pos shr_1 p mrs) = shr_m mrs / 2 ^ Zpos p.
Proof.
  induction p as [p IH|p IH|]; intros mrs Hm; cbn [SpecFloat.iter_pos].
  - assert (H1 : 0 <= shr_m (shr_1 mrs)).
    { rewrite shr_1_half by assumption. apply Z.div_pos; lia. }
    assert (H2 : 0 <= shr_m (SpecFloat.iter_pos shr_1 p (shr_1 mrs))).
    { rewrite IH by assumption. apply Z.div_pos; lia. }
    rewrite IH, IH, shr_1_half by assumption.
    rewrite !Z.div_div by lia. f_equal.
    change (Z.pos p~1) with (2 * Z.pos p + 1).
    replace (2 * Z.pos p + 1) with (1 + Z.pos p + Z.pos p) by lia.
    rewrite !Z.pow_add_r by lia. lia.
  - assert (H2 : 0 <= shr_m (SpecFloat.iter_pos shr_1 p mrs)).
    { rewrite IH by assumption. apply Z.div_pos; lia. }
    rewrite IH, IH by assumption.
    rewrite Z.div_div by lia. f_equal.
    change (Z.pos p~0) with (2 * Z.pos p).
    replace (2 * Z.pos p) with (Z.pos p + Z.pos p) by lia.
    rewrite Z.pow_add_r by lia. lia.
  - rewrite shr_1_half by assumption. reflexivity.
Qed.

Lemma shr_record_of_loc_m m l : shr_m (shr_record_of_loc m l) = m.
Proof. destruct l as [|[]]; reflexivity. Qed.

Lemma fexp_le x E : x - 53 <= E -> -1074 <= E -> fexp prec emax x <= E.
Proof. unfold fexp, SpecFloat.emin, prec, emax. lia. Qed.

Lemma digits_shift m n :
  0 <= m -> 0 < n -> 0 < m / 2 ^ n -> Zdigits2 (m / 2 ^ n) <= Zdigits2 m - n.
Proof.
  intros Hm Hn Hq.
  pose proof (digits_upper m Hm) as Hup.
  pose proof (digits_nonneg m) as Hd.
  assert (H2n : 0 < 2 ^ n) by (apply Z.pow_pos_nonneg; lia).
  assert (Hge : 2 ^ n <= m).
  { destruct (Z_lt_le_dec m (2 ^ n)) as [Hlt|]; [|assumption].
    rewrite Z.div_small in Hq by lia. lia. }
  assert (Hnd : n < Zdigits2 m).
  { destruct (Z_lt_le_dec n (Zdigits2 m)) as [|Hle]; [assumption|].
    assert (2 ^ Zdigits2 m <= 2 ^ n) by (apply Z.pow_le_mono_r; lia). lia. }
  apply digits_le; [lia|lia|].
  apply Z.div_lt_upper_bound; [lia|].
  rewrite <- Z.pow_add_r by lia. replace (n + (Zdigits2 m - n)) with (Zdigits2 m) by lia.
  exact Hup.
Qed.

Lemma shr_fexp_bounds m e l B E :
  0 <= m -> Zdigits2 m + e <= B -> e <= E -> B - 53 <= E -> -1074 <= E ->
  0 <= shr_m (fst (shr_fexp prec emax m e l))
  /\ snd (shr_fexp prec emax m e l) <= E
  /\ Zdigits2 (shr_m (fst (shr_fexp prec emax m e l)))
     + snd (shr_fexp prec emax m e l) <= Z.max B E.
Proof.
  intros Hm Hmag He HB HE. unfold shr_fexp, shr.
  pose proof (fexp_le (Zdigits2 m + e) E ltac:(lia) HE) as Hfexp.
  destruct (fexp prec emax (Zdigits2 m + e) - e) as [|n|n] eqn:Hn;
    cbn [fst snd]; rewrite ?shr_record_of_loc_m; try lia.
  rewrite iter_shr_1 by (rewrite shr_record_of_loc_m; assumption).
  rewrite shr_record_of_loc_m.
  assert (Hq : 0 <= m / 2 ^ Z.pos n) by (apply Z.div_pos; lia).
  split; [assumption|]. split; [lia|].
  destruct (Z.eq_dec (m / 2 ^ Z.pos n) 0) as [->|Hne]; [cbn; lia|].
  pose proof (digits_shift m (Z.pos n) Hm ltac:(lia) ltac:(lia)). lia.
Qed.

Lemma round_nearest_even_bounds m l :
  0 <= m ->
  0 <= round_nearest_even m l
  /\ Zdigits2 (round_nearest_even m l) <= Zdigits2 m + 1.
Proof.
  intros Hm.
  assert (Hr : m <= round_nearest_even m l <= m + 1).
  { unfold round_nearest_even. destruct l as [|[]]; try destruct (Z.even m); lia. }
  split; [lia|].
  pose proof (digits_upper m Hm). pose proof (digits_nonneg m).
  apply digits_le; [lia|lia|].
  rewrite Z.pow_add_r by lia. lia.
Qed.

(** Rounding a non-negative mantissa of bounded magnitude does not
    overflow. *)
Lemma binary_round_aux_bounds s m e l B E :
  0 <= m -> Zdigits2 m + e <= B -> e <= E -> B - 52 <= E ->
  -1074 <= E -> E <= 971 ->
  match binary_round_aux prec emax s m e l with
  | S754_zero _ => True
  | S754_finite _ m' e' => Zdigits2 (Zpos m') + e' <= Z.max B E + 1 /\ e' <= E
  | _ => False
  end.
Proof.
  intros Hm Hmag He HB HE1 HE2. unfold binary_round_aux.
  pose proof (shr_fexp_bounds m e l B E Hm Hmag He ltac:(lia) HE1) as (H1m & H1e & H1d).
  destruct (shr_fexp prec emax m e l) as [mrs1 e1]. cbn [fst snd] in *.
  pose proof (round_nearest_even_bounds (shr_m mrs1) (loc_of_shr_record mrs1) H1m)
    as (H2m & H2d).
  set (m2 := round_nearest_even (shr_m mrs1) (loc_of_shr_record mrs1)) in *.
  pose proof (shr_fexp_bounds m2 e1 loc_Exact (Z.max B E + 1) E H2m
                ltac:(lia) H1e ltac:(lia) HE1) as (H3m & H3e & H3d).
  destruct (shr_fexp prec emax m2 e1 loc_Exact) as [mrs3 e3]. cbn [fst snd] in *.
  destruct (shr_m mrs3) as [|m3|m3]; [exact I| |lia].
  assert (Hle : (e3 <=? emax - prec) = true) by (apply Z.leb_le; unfold emax, prec; lia).
  rewrite Hle. lia.
Qed.

End Rounding.

Section Pipeline.
Import Recorder Contract Notions.

Lemma within_finite B E f : within B E f -> is_finite f = true.
Proof. destruct f; cbn; tauto. Qed.

Lemma round_within s m e l B E :
  0 <= m -> Zdigits2 m + e <= B -> e <= E -> B - 52 <= E ->
  -1074 <= E -> E <= 971 ->
  within (Z.max B E + 1) E (binary_round_aux prec emax s m e l).
Proof.
  intros. pose proof (binary_round_aux_bounds s m e l B E) as H'.
  unfold within. destruct (binary_round_aux prec emax s m e l); auto.
Qed.

(** A quotient of integers between 0 and 1 is a float below 2. *)
Lemma truediv_within a b :
  0 <= a <= b -> 0 < b -> exists q, truediv a b = Ok q /\ within 2 0 q.
Proof.
  intros Ha Hb. unfold truediv.
  destruct (Z.eqb_spec b 0) as [->|_]; [lia|].
  assert (Hq : within 2 0 (SFdiv prec emax (exact_int a) (exact_int b))).
  { destruct b as [|pb|pb]; [lia| |lia].
    destruct a as [|pa|pa]; [exact I| |lia].
    cbn [exact_int SFdiv xorb]. unfold SFdiv_core_binary.
    set (e' := Z.min _ _).
    assert (He' : e' <= 0) by (subst e'; lia).
    set (m' := match 0 - 0 - e' with
               | 0 => Z.pos pa
               | Z.pos _ => Z.shiftl (Z.pos pa) (0 - 0 - e')
               | Z.neg _ => 0
               end).
    assert (Hm' : m' = Z.pos pa * 2 ^ (- e')).
    { subst m'. replace (0 - 0 - e') with (- e') by lia.
      destruct (- e') as [|s|s] eqn:Hs; [lia| |lia].
      rewrite Z.shiftl_mul_pow2 by lia. reflexivity. }
    destruct (Z.div_eucl m' (Z.pos pb)) as [q r] eqn:Hdiv.
    assert (Hqdef : q = m' / Z.pos pb) by (unfold Z.div; now rewrite Hdiv).
    assert (H2s : 0 < 2 ^ (- e')) by (apply Z.pow_pos_nonneg; lia).
    assert (Hq0 : 0 <= q) by (subst q; apply Z.div_pos; nia).
    assert (Hq1 : q <= 2 ^ (- e')).
    { subst q. apply Z.div_le_upper_bound; [lia|]. nia. }
    assert (Hd : Zdigits2 q <= - e' + 1).
    { apply digits_le; [lia|lia|]. rewrite Z.pow_add_r by lia. lia. }
    apply (round_within false q e' _ 1 0); lia. }
  rewrite (within_finite _ _ _ Hq). eauto.
Qed.

Lemma digits_iter_xO p d :
  digits2_pos (Pos.iter xO p d) = (digits2_pos p + d)%positive.
Proof.
  induction d as [|d IH] using Pos.peano_ind.
  - cbn. lia.
  - rewrite Pos.iter_succ. cbn [digits2_pos]. rewrite IH. lia.
Qed.

(** The conversion of a positive integer below 2^1000. *)
Lemma float_of_int_within n :
  0 < n < 2 ^ 1000 -> exists d, float_of_int n = Ok d /\ within 1001 948 d.
Proof.
  intros Hn. unfold float_of_int.
  assert (Hd : within 1001 948 (binary_normalize prec emax n 0 false)).
  { destruct n as [|p|p]; [lia| |lia].
    cbn [binary_normalize]. unfold binary_round.
    pose proof (digits_le (Z.pos p) 1000 ltac:(lia) ltac:(lia) ltac:(lia)) as Hdp.
    cbn [Zdigits2] in Hdp.
    assert (Hal : let '(mz, ez) :=
                    shl_align p 0 (fexp prec emax (Z.pos (digits2_pos p) + 0)) in
                  Zdigits2 (Z.pos mz) + ez <= 1000 /\ ez <= 0).
    { unfold shl_align.
      destruct (fexp prec emax (Z.pos (digits2_pos p) + 0) - 0) as [|d|d] eqn:Hx;
        cbn [Zdigits2]; try lia.
      rewrite digits_iter_xO. lia. }
    destruct (shl_align p 0 _) as [mz ez]. destruct Hal as [H1 H2].
    pose proof (round_within false (Z.pos mz) ez loc_Exact 1000 948) as Hr.
    replace (Z.max 1000 948 + 1) with 1001 in Hr by lia.
    apply Hr; lia. }
  rewrite (within_finite _ _ _ Hd). eauto.
Qed.

Lemma digits_mul mx my :
  Zdigits2 (Z.pos (mx * my)) <= Zdigits2 (Z.pos mx) + Zdigits2 (Z.pos my).
Proof.
  pose proof (digits_upper (Z.pos mx) ltac:(lia)) as Hx.
  pose proof (digits_upper (Z.pos my) ltac:(lia)) as Hy.
  pose proof (digits_nonneg (Z.pos mx)). pose proof (digits_nonneg (Z.pos my)).
  apply digits_le; [lia|lia|].
  rewrite Z.pow_add_r, Pos2Z.inj_mul by lia. nia.
Qed.

Lemma fmul_int_within q n :
  within 2 0 q -> 0 < n < 2 ^ 1000 ->
  exists p, fmul_int q n = Ok p /\ is_finite p = true.
Proof.
  intros Hq Hn. destruct (float_of_int_within n Hn) as (d & Hd & Hwd).
  unfold fmul_int. rewrite Hd. cbn [mbind result_bind].
  eexists. split; [reflexivity|].
  destruct q as [sq| | |sq mq eq], d as [sd| | |sd md ed]; cbn in Hq, Hwd; try tauto;
    try reflexivity.
  cbn [SFmul].
  pose proof (digits_mul mq md) as Hmul.
  apply (within_finite (Z.max 1003 951 + 1) 951).
  apply round_within; cbn [Zdigits2] in *; lia.
Qed.

Lemma int_of_float_finite p : is_finite p = true -> exists v, int_of_float p = Ok v.
Proof. destruct p; cbn; try discriminate; eauto. Qed.

(** On a range of positive width the float under [int(...)] exists and
    is finite. *)
Lemma axis_product_finite raw lo hi dim :
  lo < hi -> 0 < dim < 2 ^ 1000 ->
  exists p, axis_product raw lo hi dim = Ok p /\ is_finite p = true.
Proof.
  intros Hr Hdim. unfold axis_product.
  pose proof (clamp_between lo hi raw ltac:(lia)) as Hc.
  destruct (truediv_within (clamp lo hi raw - lo) (hi - lo) ltac:(lia) ltac:(lia))
    as (q & Hq & Hwq).
  rewrite Hq. cbn [mbind result_bind]. now apply fmul_int_within.
Qed.

End Pipeline.

Section Truncate.
Import Recorder Contract Notions.

(** [int(f)] is the value of [f] with its fractional part dropped. *)
Lemma int_of_float_truncate f :
  is_finite f = true -> int_of_float f = Ok (truncate f).
Proof.
  destruct f as [s| | |s m e]; cbn [is_finite]; try discriminate; intros _.
  - reflexivity.
  - unfold int_of_float, truncate, numerator, denominator. f_equal.
    destruct e as [|p|p].
    + cbn [Z.max Z.opp]. rewrite Z.shiftl_0_r. change (2 ^ Z.max 0 0) with 1.
      rewrite Z.quot_1_r. destruct s; lia.
    + replace (Z.max (- Z.pos p) 0) with 0 by lia.
      replace (Z.max (Z.pos p) 0) with (Z.pos p) by lia.
      rewrite Z.shiftl_mul_pow2 by lia. change (2 ^ 0) with 1.
      rewrite Z.quot_1_r. destruct s; lia.
    + replace (Z.max (- Z.neg p) 0) with (Z.pos p) by lia.
      replace (Z.max (Z.neg p) 0) with 0 by lia.
      rewrite Z.shiftr_div_pow2 by lia. change (2 ^ 0) with 1.
      assert (H2 : 0 < 2 ^ Z.pos p) by (apply Z.pow_pos_nonneg; lia).
      destruct s.
      * replace (-1 * (Z.pos m * 1)) with (- Z.pos m) by lia.
        rewrite Z.quot_opp_l by lia. rewrite Z.quot_div_nonneg by lia. reflexivity.
      * replace (1 * (Z.pos m * 1)) with (Z.pos m) by lia.
        rewrite Z.quot_div_nonneg by lia. reflexivity.
Qed.

Lemma scale_axis_truncates raw lo hi dim :
  lo < hi -> 0 < dim < 2 ^ 1000 ->
  exists p, axis_product raw lo hi dim = Ok p
            /\ scale_axis raw lo hi dim = Ok (truncate p).
Proof.
  intros Hr Hdim.
  destruct (axis_product_finite raw lo hi dim Hr Hdim) as (p & Hp & Hfin).
  exists p. split; [exact Hp|]. unfold scale_axis. rewrite Hp.
  cbn [mbind result_bind]. now apply int_of_float_truncate.
Qed.

End Truncate.

(** C3, amended.  For every geometry with [raw_max > raw_min] on both
    axes and screen dimensions between 1 and 2^1000, and for every raw
    pair, the [try] body succeeds and [_convert_raw_to_screen] returns,
    per axis, the float
    [(clamped - raw_min) / (raw_max - raw_min) * screen_dimension]
    truncated toward zero by [int], clamped to [[0, screen_dimension]].
    On the range 0..32767 with the screen 1080x2400 this is the integer
    quotient [clamped * screen_dimension / 32767] for every raw pair, and
    the raw pair (16000, 16000) gives (527, 1171). *)
Theorem convert_raw_to_screen_truncates :
  (forall g raw_x raw_y,
     Recorder._raw_min_x g < Recorder._raw_max_x g ->
     Recorder._raw_min_y g < Recorder._raw_max_y g ->
     0 < Recorder._screen_width g < 2 ^ 1000 ->
     0 < Recorder._screen_height g < 2 ^ 1000 ->
     exists px py,
       Recorder.axis_product raw_x (Recorder._raw_min_x g) (Recorder._raw_max_x g)
         (Recorder._screen_width g) = Ok px
       /\ Recorder.axis_product raw_y (Recorder._raw_min_y g) (Recorder._raw_max_y g)
            (Recorder._screen_height g) = Ok py
       /\ Recorder._convert_raw_to_screen g raw_x raw_y
          = Ok (Recorder.clamp 0 (Recorder._screen_width g) (Notions.truncate px),
                Recorder.clamp 0 (Recorder._screen_height g) (Notions.truncate py)))
  /\ (forall raw_x raw_y,
        Recorder._convert_raw_to_screen Recorder.init_geometry raw_x raw_y
        = Ok (Recorder.clamp 0 32767 raw_x * 1080 / 32767,
              Recorder.clamp 0 32767 raw_y * 2400 / 32767))
  /\ Recorder._convert_raw_to_screen Recorder.init_geometry 16000 16000
     = Ok (527, 1171).
Proof.
  split; [|split].
  - intros g raw_x raw_y Hx Hy Hw Hh.
    destruct (scale_axis_truncates raw_x _ _ _ Hx Hw) as (px & Hpx & Hsx).
    destruct (scale_axis_truncates raw_y _ _ _ Hy Hh) as (py & Hpy & Hsy).
    exists px, py. split; [exact Hpx|]. split; [exact Hpy|].
    unfold Recorder._convert_raw_to_screen, Recorder.convert_try.
    now rewrite Hsx, Hsy.
  - exact default_geometry_floor.
  - rewrite default_geometry_floor. reflexivity.
Qed.

(** The general part at the default geometry and the raw pair
    (16000, 16000). *)
Lemma convert_raw_to_screen_truncates_witness :
  exists px py,
    Recorder.axis_product 16000 0 32767 1080 = Ok px
    /\ Recorder.axis_product 16000 0 32767 2400 = Ok py
    /\ Recorder._convert_raw_to_screen Recorder.init_geometry 16000 16000
       = Ok (Recorder.clamp 0 1080 (Notions.truncate px),
             Recorder.clamp 0 2400 (Notions.truncate py)).
Proof.
  apply (proj1 convert_raw_to_screen_truncates Recorder.init_geometry 16000 16000);
    cbn; lia.
Defined.

(** * Further properties *)

(** ** Replay of a whole recording *)

Section ReplayAll.
Import Device Replay Notions Predicates.

Lemma executed_app (l1 l2 : list event) :
  executed (l1 ++ l2) = executed l1 ++ executed l2.
Proof. unfold executed. apply omap_app. Qed.

Variable env : AsyncAndroidEnv.

(** Without a valid controller no method reaches the device. *)
Lemma run_step_invalid_controller st w :
  controller_valid env = false ->
  executed (trace (snd (run_step env st w))) = executed (trace w).
Proof.
  intros Hc. destruct st as [i cx cy|cx cy|lit|d|a]; cbn [run_step].
  - unfold try_except, _click_by_index, bind at 1, _get_valid_controller.
    rewrite Hc. unfold raise. cbn.
    destruct (decide (RuntimeError = IndexError)); [discriminate|reflexivity].
  - unfold _click_by_coords, bind at 1, _get_valid_controller. now rewrite Hc.
  - destruct (literal_value lit); [|reflexivity].
    unfold _input_text, bind at 1, _get_valid_controller. now rewrite Hc.
  - unfold sleep, emit. cbn. rewrite executed_app. cbn. apply app_nil_r.
  - unfold warning, emit. cbn. rewrite executed_app. cbn. apply app_nil_r.
Qed.

Lemma run_steps_invalid_controller steps : forall w,
  controller_valid env = false ->
  executed (trace (snd (run_steps env steps w))) = executed (trace w).
Proof.
  induction steps as [|st rest IH]; intros w Hc; [reflexivity|].
  cbn [run_steps]. unfold bind.
  pose proof (run_step_invalid_controller st w Hc) as Hst.
  destruct (run_step env st w) as [[[]|e] w1]; cbn [snd] in *.
  - rewrite IH by assumption. exact Hst.
  - exact Hst.
Qed.

(** X1.  With an invalid controller the replay of any recording, whatever
    its length and content, sends no action to the device. *)
Theorem replay_invalid_controller_no_action operations w :
  controller_valid env = false ->
  executed (trace (snd (replay env operations w))) = executed (trace w).
Proof.
  intros Hc. unfold replay, run_operations.
  destruct (forallb well_formed _); [|reflexivity].
  now apply run_steps_invalid_controller.
Qed.


Hypothesis controller_ok : controller_valid env = true.
Hypothesis screen_readable : forall n, is_Some (get_state env n).



End ReplayAll.

(** The theorems of this part at concrete recordings and devices. *)
Section ReplayAllInstances.
Import Device Replay Notions Predicates Samples.

(** A click and a text on a device without a valid controller: nothing
    is sent. *)
Lemma replay_invalid_controller_no_action_witness :
  executed (trace (snd (replay (Env false (1080, 2400) (fun _ => Some search_screen))
                          [click_op None; text_op] initial_world)))
  = [].
Proof.
  exact (replay_invalid_controller_no_action
           (Env false (1080, 2400) (fun _ => Some search_screen))
           [click_op None; text_op] initial_world eq_refl).
Defined.



End ReplayAllInstances.

(** ** More on resolution by content description and by text *)

Section ResolverEdges.
Import Device Resolver Contract Notions Predicates.

Lemma prefix_spec (n h : string) :
  String.prefix n h = true <-> exists post, h = n +:+ post.
Proof.
  revert h. induction n as [|c n IH]; intros h.
  - cbn. split; [intros _; exists h; reflexivity|]. destruct h; reflexivity.
  - destruct h as [|d h]; cbn [String.prefix].
    + split; [discriminate|]. intros (post & Hp). discriminate.
    + destruct (Ascii.ascii_dec c d) as [->|Hne].
      * rewrite IH. split; intros (post & Hp); exists post.
        -- rewrite Hp. reflexivity.
        -- rewrite append_cons in Hp. now injection Hp.
      * split; [discriminate|]. intros (post & Hp).
        rewrite append_cons in Hp. injection Hp as Hc _. congruence.
Qed.

(** [needle in hay]: the needle is a contiguous part of the hay. *)
Lemma contains_spec (n h : string) :
  contains n h = true <-> exists pre post, h = pre +:+ n +:+ post.
Proof.
  induction h as [|d h IH].
  - cbn [contains]. rewrite orb_false_r, prefix_spec. split.
    + intros (post & Hp). exists EmptyString, post. exact Hp.
    + intros (pre & post & Hp). destruct pre; [eauto|discriminate].
  - cbn [contains]. rewrite orb_true_iff, prefix_spec, IH. split.
    + intros [(post & Hp)|(pre & post & Hp)].
      * exists EmptyString, post. exact Hp.
      * exists (String d pre), post. rewrite append_cons. now rewrite Hp.
    + intros (pre & post & Hp). destruct pre as [|c pre].
      * left. exists post. exact Hp.
      * right. rewrite append_cons in Hp. injection Hp as _ Hp. eauto.
Qed.

Lemma desc_matches_spec target e :
  desc_matches target e = true <->
  exists d pre post, content_description e = Some d /\ d <> EmptyString
    /\ lower d = pre +:+ lower target +:+ post.
Proof.
  unfold desc_matches. destruct (content_description e) as [d|].
  - rewrite andb_true_iff, contains_spec. split.
    + intros (Ht & pre & post & Hp). exists d, pre, post.
      repeat split; auto. intros ->. discriminate.
    + intros (d' & pre & post & [= <-] & Hne & Hp). split; [|eauto].
      destruct d; [congruence|reflexivity].
  - split; [discriminate|]. intros (d & pre & post & Hd & _). discriminate.
Qed.

(** X4.  On a list of one candidate
    [_click_element_by_content_description] does what the exhaustive
    search of the contract does: the same outcome and the same trace, on
    any device and from any state. *)
Theorem description_click_single_candidate env target fb w :
  _click_element_by_content_description env [target] fb w
  = click_by_description_exhaustive env [target] w.
Proof.
  unfold _click_element_by_content_description, click_by_description_exhaustive.
  unfold bind.
  destruct (_get_valid_controller env w) as [[[]|e] w1]; [|reflexivity].
  destruct (_get_screen_size env w1) as [[sz|e] w2]; [|reflexivity].
  destruct (_get_stable_ui_elements env w2) as [[ui|e] w3]; [|reflexivity].
  cbn [for_each]. unfold bind.
  destruct (for_each (enumerate ui) _ w3) as [[[]|e] w4]; reflexivity.
Qed.

Variable env : AsyncAndroidEnv.
Hypothesis controller_ok : controller_valid env = true.

Lemma description_click_iff w ui target rest fb idx :
  get_state env (reads w) = Some ui ->
  _click_element_by_content_description env (target :: rest) fb w
  = (Ok tt, {| reads := S (reads w);
               trace := trace w
                 ++ [Exec (click_index (Z.of_nat idx)) ui; Sleep 1.5] |})
  <-> (exists e, ui !! idx = Some e /\ desc_matches target e = true
         /\ forall j e', (j < idx)%nat -> ui !! j = Some e' ->
              desc_matches target e' = false).
Proof using controller_ok.
  intros Hui.
  rewrite (click_by_description_run env controller_ok w ui _ fb Hui).
  destruct (list_find _ ui) as [[j e]|] eqn:Hfind.
  - apply list_find_Some in Hfind as (Hj & Hm & Hmin). split.
    + intros [= H]. apply app_inv_head in H. injection H as H.
      assert (j = idx) by lia. subst j. exists e. repeat split; auto.
      intros j' e' Hlt He'. specialize (Hmin j' e' He' Hlt).
      destruct (desc_matches target e'); congruence.
    + intros (e' & Hidx & Hm' & Hfirst).
      destruct (Nat.lt_trichotomy j idx) as [Hlt|[->|Hgt]]; [|reflexivity|].
      * rewrite (Hfirst j e Hlt Hj) in Hm. discriminate.
      * specialize (Hmin idx e' Hidx Hgt). congruence.
  - apply list_find_None in Hfind. rewrite Forall_forall in Hfind. split.
    + discriminate.
    + intros (e' & Hidx & Hm' & _).
      destruct (Hfind e'); [eapply list_elem_of_lookup_2; eauto|exact Hm'].
Qed.

(** X5.  The method clicks the element at position [idx] exactly when that
    element is the first whose non-empty description holds the first
    candidate as a contiguous part, letter case apart; when no element does,
    it raises, whatever the other candidates and the fallback index are. *)
Theorem description_click_selects w ui target rest fb idx :
  get_state env (reads w) = Some ui ->
  (_click_element_by_content_description env (target :: rest) fb w
   = (Ok tt, {| reads := S (reads w);
                trace := trace w
                  ++ [Exec (click_index (Z.of_nat idx)) ui; Sleep 1.5] |})
   <-> (exists e d pre post,
          ui !! idx = Some e /\ content_description e = Some d
          /\ d <> EmptyString /\ lower d = pre +:+ lower target +:+ post
          /\ forall j e', (j < idx)%nat -> ui !! j = Some e' ->
               desc_matches target e' = false))
  /\ ((forall e, e ∈ ui -> desc_matches target e = false) ->
      _click_element_by_content_description env (target :: rest) fb w
      = (Raise RuntimeError, {| reads := S (reads w); trace := trace w |})).
Proof using controller_ok.
  intros Hui. split.
  - rewrite (description_click_iff w ui target rest fb idx Hui). split.
    + intros (e & Hidx & Hm & Hfirst). apply desc_matches_spec in Hm
        as (d & pre & post & Hd & Hne & Hp).
      exists e, d, pre, post. repeat split; assumption.
    + intros (e & d & pre & post & Hidx & Hd & Hne & Hp & Hfirst).
      exists e. split; [exact Hidx|]. split; [|exact Hfirst].
      apply desc_matches_spec. exists d, pre, post. auto.
  - intros Hnone. now apply (description_gives_up_after_first env controller_ok w ui).
Qed.

(** X6.  Edge cases of the candidate list. An empty list returns without a
    click and without an error. An empty candidate matches every non-empty
    description, so the first described element is clicked. *)
Theorem description_click_empty_inputs w ui rest fb :
  get_state env (reads w) = Some ui ->
  _click_element_by_content_description env [] fb w
  = (Ok tt, {| reads := S (reads w); trace := trace w |})
  /\ (forall e, desc_matches EmptyString e = true
        <-> exists d, content_description e = Some d /\ d <> EmptyString)
  /\ (forall j e,
        ui !! j = Some e ->
        (exists d, content_description e = Some d /\ d <> EmptyString) ->
        (forall j' e', (j' < j)%nat -> ui !! j' = Some e' ->
           ~ exists d, content_description e' = Some d /\ d <> EmptyString) ->
        _click_element_by_content_description env (EmptyString :: rest) fb w
        = (Ok tt, {| reads := S (reads w);
                     trace := trace w
                       ++ [Exec (click_index (Z.of_nat j)) ui; Sleep 1.5] |})).
Proof using controller_ok.
  intros Hui.
  assert (Hempty : forall e, desc_matches EmptyString e = true
            <-> exists d, content_description e = Some d /\ d <> EmptyString).
  { intros e. unfold desc_matches. destruct (content_description e) as [d|].
    - cbn [lower]. assert (Hc : contains EmptyString (lower d) = true).
      { destruct (lower d); reflexivity. }
      rewrite Hc, andb_true_r. split.
      + intros Ht. exists d. split; [reflexivity|]. intros ->. discriminate.
      + intros (d' & [= <-] & Hne). destruct d; [congruence|reflexivity].
    - split; [discriminate|]. intros (d & Hd & _). discriminate. }
  split; [|split; [exact Hempty|]].
  - now rewrite (click_by_description_run env controller_ok w ui [] fb Hui).
  - intros j e Hj Hd Hmin.
    apply (proj2 (description_click_iff w ui EmptyString rest fb j Hui)).
    exists e. split; [exact Hj|]. split; [now apply Hempty|].
    intros j' e' Hlt He'. specialize (Hmin j' e' Hlt He').
    destruct (desc_matches EmptyString e') eqn:Hm; [|reflexivity].
    apply Hempty in Hm. contradiction.
Qed.

(** X7.  When no candidate equals the non-empty text of any element, the
    fallback index decides: without one the method raises [RuntimeError]; an
    index outside the snapshot raises [IndexError]; an index inside it is
    long-pressed, with a warning. The errors are raised before anything is
    sent to the device. *)
Theorem long_press_by_text_fallback w ui texts fb :
  get_state env (reads w) = Some ui ->
  (forall c e, c ∈ texts -> e ∈ ui -> ~ (has_text e /\ equal_folded c e)) ->
  _long_press_by_text env texts fb w
  = match fb with
    | None => (Raise RuntimeError, {| reads := S (reads w); trace := trace w |})
    | Some i =>
        if decide (0 <= i < Z.of_nat (length ui))
        then (Ok tt, {| reads := S (reads w);
                        trace := trace w
                          ++ [Exec (long_press_index i) ui; Warning; Sleep 2] |})
        else (Raise IndexError, {| reads := S (reads w); trace := trace w |})
    end.
Proof using controller_ok.
  intros Hui Hnone. rewrite (long_press_by_text_run env controller_ok w ui texts fb Hui).
  assert (Hres : resolve text_matches ui texts = None).
  { apply resolve_None. intros c e Hc He.
    apply text_matches_not_folded. now apply Hnone. }
  rewrite Hres. destruct fb as [i|]; [|reflexivity].
  destruct (decide (0 <= i < Z.of_nat (length ui))) as [Hin|Hout].
  - now rewrite (proj2 (in_range_spec i ui) Hin).
  - now rewrite (proj2 (in_range_false i ui) Hout).
Qed.

End ResolverEdges.

Section ResolverEdgesInstances.
Import Device Resolver Contract Notions Predicates Samples.

(** The candidate [RECORD] is part of two descriptions, letter case
    apart; the first of them, at position 1, is clicked. *)
Lemma description_click_selects_witness :
  _click_element_by_content_description (showing recorder_screen)
    ["RECORD"; "Play"]%string None initial_world
  = (Ok tt, {| reads := 1;
               trace := [Exec (click_index 1) recorder_screen; Sleep 1.5] |}).
Proof.
  apply (proj2 (proj1 (description_click_selects (showing recorder_screen)
                         eq_refl initial_world recorder_screen
                         "RECORD" ["Play"%string] None 1%nat eq_refl))).
  exists (Element None (Some "Start recording"%string)), "Start recording"%string,
    "start "%string, "ing"%string.
  repeat split; try discriminate.
  intros [|j] e' Hlt He'; [|lia]. injection He' as <-. reflexivity.
Defined.

(** No candidate at all: the method returns without a click. *)
Lemma description_click_empty_inputs_witness :
  _click_element_by_content_description (showing recorder_screen) [] (Some 5)
    initial_world
  = (Ok tt, {| reads := 1; trace := [] |}).
Proof.
  exact (proj1 (description_click_empty_inputs (showing recorder_screen) eq_refl
                  initial_world recorder_screen ["x"%string] (Some 5) eq_refl)).
Defined.

(** No element has the text [Stop]; the fallback index 0 is pressed. *)
Lemma long_press_by_text_fallback_witness :
  _long_press_by_text (showing recorder_screen) ["Stop"%string] (Some 0)
    initial_world
  = (Ok tt, {| reads := 1;
               trace := [Exec (long_press_index 0) recorder_screen;
                         Warning; Sleep 2] |}).
Proof.
  rewrite (long_press_by_text_fallback (showing recorder_screen) eq_refl
             initial_world recorder_screen ["Stop"%string] (Some 0) eq_refl).
  - reflexivity.
  - intros c e Hc He [_ (t & Ht & Heq)].
    apply list_elem_of_singleton in Hc. subst c.
    repeat (apply elem_of_cons in He as [->|He]); try (cbn in Ht; congruence).
    + cbn in Ht. injection Ht as <-. vm_compute in Heq. discriminate.
    + inversion He.
Defined.

End ResolverEdgesInstances.

(** ** No method acts twice, none acts before failing *)

Section AtMostOnce.
Import Device Replay Resolver Steps Contract Notions Predicates.

Variable env : AsyncAndroidEnv.







End AtMostOnce.

(** ** The keyboard buffer, event by event *)

Section KeyboardEvents.
Import Recorder Contract Notions Predicates.

Lemma cached_text_set_text dev t r :
  is_Some (_keyboard_cache r !! dev) -> cached_text dev (set_text dev t r) = t.
Proof.
  intros [e He]. unfold cached_text. rewrite set_text_lookup, He. reflexivity.
Qed.

Lemma set_text_other dev dev' t r :
  dev <> dev' ->
  _keyboard_cache (set_text dev t r) !! dev' = _keyboard_cache r !! dev'.
Proof. intros Hne. unfold set_text, set_cache. cbn. now apply lookup_alter_ne. Qed.

Lemma record_text_input_cache now t r :
  _keyboard_cache (record_text_input now t r) = _keyboard_cache r.
Proof. unfold record_text_input. destruct (_ || _); reflexivity. Qed.

(** [_record_operation] appends the operation, after at most one wait. *)
Lemma record_operation_appends now kw r :
  exists waits,
    operations (_record_operation now kw r)
    = operations r ++ waits ++ [Op (fsub now (start_time r)) kw]
    /\ Forall (fun o => is_wait o = true) waits
    /\ (length waits <= 1)%nat.
Proof.
  unfold _record_operation. cbn [operations].
  destruct (_ && _).
  - eexists [_]. rewrite <- app_assoc. split; [reflexivity|].
    split; [repeat constructor|cbn; lia].
  - exists []. split; [reflexivity|]. split; [constructor|cbn; lia].
Qed.

(** A text that is recorded is appended to the log, stripped, after at
    most one wait. *)
Lemma record_text_input_appends now t r :
  is_recording r = true -> truthy (strip t) = true ->
  exists waits,
    operations (record_text_input now t r)
    = operations r ++ waits
        ++ [Op (fsub now (start_time r)) (KwInputText (strip t))]
    /\ Forall (fun o => is_wait o = true) waits
    /\ (length waits <= 1)%nat.
Proof.
  intros Hrec Ht. unfold record_text_input. rewrite Hrec, Ht. cbn [negb orb].
  apply record_operation_appends.
Qed.

Lemma append_nil_r (s : string) : s +:+ EmptyString = s.
Proof. induction s as [|c s IH]; [reflexivity|]. rewrite append_cons. now rewrite IH. Qed.

(** What one key event does to the recorder, case by case. *)
Lemma key_event_cases now now_rec dev key_code key_state r :
  let text0 := cached_text dev r in
  let r1 := set_cache (<[dev := KbEntry text0 now]> (_keyboard_cache r)) r in
  let out := _process_keyboard_event now now_rec dev key_code key_state r in
  (key_code = "KEY_LEFTSHIFT"%string \/ key_state <> "DOWN"%string ->
     out = (r1, false))
  /\ (key_code <> "KEY_LEFTSHIFT"%string -> key_state = "DOWN"%string ->
      key_code = "KEY_BACKSPACE"%string ->
      out = (set_text dev (drop_last text0) r1, false))
  /\ (plain_key key_code = true -> key_state = "DOWN"%string ->
      out = (set_text dev (text0 +:+ key_char _key_mapping key_code) r1, true)).
Proof.
  intros text0 r1 out. subst out. unfold _process_keyboard_event.
  fold text0. fold r1. repeat split.
  - intros [->|Hst]; [reflexivity|].
    destruct (String.eqb key_code "KEY_LEFTSHIFT"); [reflexivity|].
    apply String.eqb_neq in Hst. now rewrite Hst.
  - intros Hk -> ->. reflexivity.
  - intros Hplain ->. unfold plain_key in Hplain.
    apply andb_prop in Hplain as [[H1 H2]%andb_prop H3].
    apply negb_true_iff in H1, H2, H3. rewrite H1, H2, H3. cbn [negb String.eqb andb].
    change (String.eqb "DOWN" "DOWN") with true. cbn [negb].
    destruct (key_char _key_mapping key_code) as [|c k] eqn:Hchar; cbn [truthy].
    + f_equal. rewrite append_nil_r. subst r1. unfold set_text, set_cache.
      cbn [operations is_recording start_time last_operation_time
           _keyboard_cache last_input_time]. f_equal.
      apply map_eq. intros d.
      destruct (decide (d = dev)) as [->|Hne].
      * rewrite lookup_alter_eq, lookup_insert_eq. reflexivity.
      * rewrite lookup_alter_ne by congruence. reflexivity.
    + reflexivity.
Qed.

Lemma r1_lookup now dev r :
  _keyboard_cache (set_cache (<[dev := KbEntry (cached_text dev r) now]>
                                (_keyboard_cache r)) r) !! dev
  = Some (KbEntry (cached_text dev r) now).
Proof. cbn. apply lookup_insert_eq. Qed.

(** Pressing plain keys only extends the buffer of the device. *)
Lemma press_keys_plain clock dev keys : forall n r,
  Forall (fun k => plain_key k = true) keys ->
  let r' := press_keys clock n dev keys r in
  cached_text dev r' = cached_text dev r +:+ typed keys
  /\ operations r' = operations r
  /\ is_recording r' = is_recording r
  /\ start_time r' = start_time r
  /\ last_operation_time r' = last_operation_time r.
Proof.
  induction keys as [|k rest IH]; intros n r Hall; cbn [press_keys typed fold_right].
  - rewrite append_nil_r. auto.
  - inversion Hall as [|? ? Hk Hrest]; subst.
    destruct (key_event_cases (clock n) (clock n) dev k "DOWN" r) as (_ & _ & Hplain).
    rewrite (Hplain Hk eq_refl). cbn [fst].
    set (ra := set_text dev _ _).
    destruct (IH (S n) ra Hrest) as (Ht & Ho & Hr & Hs & Hl).
    cbn zeta. rewrite Ht, Ho, Hr, Hs, Hl. subst ra.
    rewrite cached_text_set_text by (rewrite r1_lookup; eauto).
    fold (typed rest). rewrite append_assoc. auto.
Qed.

Lemma lstrip_blank_append (s t : string) :
  blank s = true -> lstrip (s +:+ t) = lstrip t.
Proof.
  induction s as [|c s IH]; [reflexivity|]. cbn [blank].
  intros [Hc Hs]%andb_prop. rewrite append_cons. cbn [lstrip]. rewrite Hc. auto.
Qed.

Lemma lstrip_visible_append (s t : string) :
  blank s = false -> lstrip (s +:+ t) = lstrip s +:+ t.
Proof.
  induction s as [|c s IH]; [discriminate|]. cbn [blank].
  rewrite append_cons. cbn [lstrip].
  destruct (isspace c); cbn [andb]; [exact IH|]. intros _. now rewrite append_cons.
Qed.

(** A trailing line end does not change what [strip] keeps. *)
Lemma strip_newline (s : string) :
  strip (s +:+ String "010"%char EmptyString) = strip s.
Proof.
  unfold strip. destruct (blank s) eqn:Hb.
  - rewrite lstrip_blank_append by assumption.
    rewrite (proj2 (lstrip_empty s) Hb). reflexivity.
  - rewrite lstrip_visible_append by assumption.
    unfold rstrip. rewrite rev_app_distr. reflexivity.
Qed.

(** X9.  Typing plain keys on a device whose buffer is empty and pressing
    Enter records the typed characters, stripped, as one text operation
    (after at most one wait), and empties the buffer: provided the recorder
    is recording, the typed text is not blank, and no timeout thread has
    flushed the buffer in between. *)
Theorem typed_text_recorded_on_enter clock n dev keys now now_rec r :
  is_recording r = true ->
  cached_text dev r = EmptyString ->
  Forall (fun k => plain_key k = true) keys ->
  blank (typed keys) = false ->
  let r1 := press_keys clock n dev keys r in
  let r2 := fst (_process_keyboard_event now now_rec dev "KEY_ENTER" "DOWN" r1) in
  cached_text dev r1 = typed keys
  /\ cached_text dev r2 = EmptyString
  /\ exists waits,
       operations r2
       = operations r ++ waits
           ++ [Op (fsub now_rec (start_time r)) (KwInputText (strip (typed keys)))]
       /\ Forall (fun o => is_wait o = true) waits
       /\ (length waits <= 1)%nat.
Proof.
  intros Hrec Hempty Hkeys Hblank r1 r2.
  destruct (press_keys_plain clock dev keys n r Hkeys) as (Ht & Ho & Hr & Hs & Hl).
  fold r1 in Ht, Ho, Hr, Hs, Hl. rewrite Hempty in Ht.
  change (EmptyString +:+ typed keys) with (typed keys) in Ht.
  split; [exact Ht|].
  subst r2. unfold _process_keyboard_event. rewrite Ht.
  cbn [String.eqb Ascii.eqb Bool.eqb negb andb].
  change (key_char _key_mapping "KEY_ENTER") with (String "010"%char EmptyString).
  cbn [truthy].
  set (ra := set_cache _ r1).
  assert (Hra : is_Some (_keyboard_cache ra !! dev)).
  { subst ra. cbn. rewrite lookup_insert_eq. eauto. }
  rewrite cached_text_set_text by exact Hra.
  rewrite strip_newline.
  assert (Hstrip : truthy (strip (typed keys)) = true).
  { destruct (truthy (strip (typed keys))) eqn:H; [reflexivity|].
    apply strip_falsy in H. congruence. }
  rewrite Hstrip. cbn [fst].
  set (rb := record_text_input _ _ _).
  assert (Hrb : is_Some (_keyboard_cache rb !! dev)).
  { subst rb. rewrite record_text_input_cache, set_text_lookup.
    destruct Hra as [e ->]. cbn. eauto. }
  split; [now apply cached_text_set_text|].
  change (operations (set_text dev EmptyString rb)) with (operations rb). subst rb.
  destruct (record_text_input_appends now_rec
              (typed keys +:+ String "010"%char EmptyString)
              (set_text dev (typed keys +:+ String "010"%char EmptyString) ra))
    as (waits & Hops & Hw & Hlen).
  - change (is_recording r1 = true). congruence.
  - now rewrite strip_newline.
  - exists waits. rewrite Hops, strip_newline.
    change (operations (set_text dev (typed keys +:+ String "010"%char EmptyString) ra))
      with (operations r1).
    change (start_time (set_text dev (typed keys +:+ String "010"%char EmptyString) ra))
      with (start_time r1).
    rewrite Ho, Hs. auto.
Qed.

End KeyboardEvents.

(** The keys H and I, then Enter at second 15 of a recording started at
    second 10: the text [hi] is recorded. *)
Lemma typed_text_recorded_on_enter_witness :
  let r1 := Samples.typed_hi in
  let r2 := fst (Recorder._process_keyboard_event (Notions.seconds 15)
                   (Notions.seconds 15) "event3" "KEY_ENTER" "DOWN" r1) in
  Recorder.cached_text "event3" r1 = "hi"%string
  /\ Recorder.cached_text "event3" r2 = EmptyString
  /\ exists waits,
       Recorder.operations r2
       = [] ++ waits
           ++ [Recorder.Op (fsub (Notions.seconds 15) (Notions.seconds 10))
                 (Recorder.KwInputText "hi")]
       /\ Forall (fun o => Recorder.is_wait o = true) waits
       /\ (length waits <= 1)%nat.
Proof.
  apply (typed_text_recorded_on_enter
           (fun n => Notions.seconds (11 + Z.of_nat n)) 0 "event3"
           ["KEY_H"; "KEY_I"]%string (Notions.seconds 15) (Notions.seconds 15)
           (Touch.rec Samples.started)).
  - reflexivity.
  - reflexivity.
  - repeat constructor.
  - reflexivity.
Defined.

(** ** Invariants of a recording *)

Section RecorderInvariants.
Import Recorder Contract Notions Predicates Touch.

Lemma all_mapped_app (s t : string) :
  all_mapped (s +:+ t) = all_mapped s && all_mapped t.
Proof.
  induction s as [|c s IH]; [reflexivity|].
  rewrite append_cons. cbn [all_mapped]. rewrite IH. now rewrite andb_assoc.
Qed.

Lemma string_rev_cons (c : ascii) (s : string) :
  String.rev (String c s) = String.rev s +:+ String c EmptyString.
Proof. unfold String.rev at 1. cbn [String.rev_app]. apply rev_app_append. Qed.

Lemma all_mapped_rev (s : string) : all_mapped (String.rev s) = all_mapped s.
Proof.
  induction s as [|c s IH]; [reflexivity|].
  rewrite string_rev_cons, all_mapped_app, IH. cbn [all_mapped].
  rewrite andb_true_r. apply andb_comm.
Qed.

Lemma all_mapped_lstrip (s : string) :
  all_mapped s = true -> all_mapped (lstrip s) = true.
Proof.
  induction s as [|c s IH]; [reflexivity|]. cbn [all_mapped lstrip].
  intros [Hc Hs]%andb_prop. destruct (isspace c); [auto|].
  cbn [all_mapped]. now rewrite Hc, Hs.
Qed.

Lemma all_mapped_strip (s : string) :
  all_mapped s = true -> all_mapped (strip s) = true.
Proof.
  intros H. unfold strip, rstrip. rewrite all_mapped_rev.
  apply all_mapped_lstrip. rewrite all_mapped_rev. now apply all_mapped_lstrip.
Qed.

Lemma all_mapped_drop_last (s : string) :
  all_mapped s = true -> all_mapped (drop_last s) = true.
Proof.
  intros H. unfold drop_last. rewrite <- all_mapped_rev in H.
  destruct (String.rev s) as [|c s']; [reflexivity|].
  rewrite all_mapped_rev. cbn [all_mapped] in H. now apply andb_prop in H as [_ H].
Qed.

Lemma key_char_in (table : list (string * string)) (k : string) :
  key_char table k = EmptyString \/ exists k', In (k', key_char table k) table.
Proof.
  induction table as [|[k0 c] rest IH]; [now left|]. cbn [key_char].
  destruct (String.eqb k0 k).
  - right. exists k0. now left.
  - destruct IH as [IH|[k' IH]]; [now left|]. right. exists k'. now right.
Qed.

Lemma key_char_mapped (k : string) : all_mapped (key_char _key_mapping k) = true.
Proof.
  destruct (key_char_in _key_mapping k) as [->|[k' Hin]]; [reflexivity|].
  assert (Hall : Forall (fun kv => all_mapped (snd kv) = true) _key_mapping)
    by (unfold _key_mapping; repeat constructor).
  rewrite Forall_forall in Hall.
  exact (Hall _ (proj2 (list_elem_of_In _ _) Hin)).
Qed.

(** The mapped characters are the lower-case letters, the digits, the
    blank and the line feed. *)
Lemma mapped_char_spec (c : ascii) : mapped_char c = keyboard_char c.
Proof. destruct c as [[] [] [] [] [] [] [] []]; vm_compute; reflexivity. Qed.

Lemma all_mapped_spec (s : string) : all_mapped s = keyboard_text s.
Proof.
  induction s as [|c s IH]; [reflexivity|].
  cbn [all_mapped keyboard_text]. now rewrite mapped_char_spec, IH.
Qed.

Lemma recorded_texts_app (l l' : list operation) :
  recorded_texts (l ++ l') = recorded_texts l ++ recorded_texts l'.
Proof. apply omap_app. Qed.

Lemma cached_text_mapped dev r :
  buffers_mapped r -> all_mapped (cached_text dev r) = true.
Proof.
  intros H. unfold cached_text.
  destruct (_keyboard_cache r !! dev) as [e|] eqn:He; [exact (H dev e He)|reflexivity].
Qed.

Lemma keyboard_inv_set_text dev t r :
  all_mapped t = true -> keyboard_inv r -> keyboard_inv (set_text dev t r).
Proof.
  intros Ht [Hb Hl]. split; [|exact Hl]. intros d e.
  destruct (decide (d = dev)) as [->|Hne].
  - rewrite set_text_lookup. destruct (_keyboard_cache r !! dev); [|discriminate].
    intros [= <-]. exact Ht.
  - rewrite set_text_other by congruence. apply Hb.
Qed.

Lemma keyboard_inv_stamp dev now r :
  keyboard_inv r ->
  keyboard_inv (set_cache (<[dev := KbEntry (cached_text dev r) now]>
                             (_keyboard_cache r)) r).
Proof.
  intros [Hb Hl]. split; [|exact Hl]. intros d e. cbn [set_cache _keyboard_cache].
  destruct (decide (d = dev)) as [->|Hne].
  - rewrite lookup_insert_eq. intros [= <-]. now apply cached_text_mapped.
  - rewrite lookup_insert_ne by congruence. apply Hb.
Qed.

Lemma keyboard_inv_record now kw r :
  match kw with KwInputText t => all_mapped t = true | _ => True end ->
  keyboard_inv r -> keyboard_inv (_record_operation now kw r).
Proof.
  intros Ht [Hb Hl]. split; [exact Hb|].
  unfold _record_operation. cbn [operations].
  rewrite recorded_texts_app. apply Forall_app. split.
  - destruct (_ && _); [|exact Hl].
    rewrite recorded_texts_app. apply Forall_app. split; [exact Hl|constructor].
  - destruct kw; cbn; repeat constructor. exact Ht.
Qed.

Lemma keyboard_inv_text now t r :
  all_mapped t = true -> keyboard_inv r -> keyboard_inv (record_text_input now t r).
Proof.
  intros Ht Hr. unfold record_text_input. destruct (_ || _); [exact Hr|].
  apply keyboard_inv_record; [|exact Hr]. now apply all_mapped_strip.
Qed.

Lemma keyboard_inv_key now now_rec dev key_code key_state r :
  keyboard_inv r ->
  keyboard_inv (fst (_process_keyboard_event now now_rec dev key_code key_state r)).
Proof.
  intros Hr. pose proof (proj1 Hr) as Hb.
  pose proof (cached_text_mapped dev r Hb) as Ht.
  pose proof (keyboard_inv_stamp dev now r Hr) as H1.
  unfold _process_keyboard_event.
  destruct (String.eqb key_code "KEY_LEFTSHIFT"); [exact H1|].
  destruct (negb (String.eqb key_state "DOWN")); [exact H1|].
  destruct (String.eqb key_code "KEY_BACKSPACE"); cbn [fst].
  { apply keyboard_inv_set_text; [now apply all_mapped_drop_last|exact H1]. }
  set (r2 := if truthy _ then _ else _).
  assert (H2 : keyboard_inv r2).
  { subst r2. destruct (truthy _); [|exact H1].
    apply keyboard_inv_set_text; [|exact H1].
    rewrite all_mapped_app, Ht. apply key_char_mapped. }
  destruct (_ && _); cbn [fst]; [|exact H2].
  apply keyboard_inv_set_text; [reflexivity|].
  apply keyboard_inv_text; [|exact H2].
  apply cached_text_mapped, H2.
Qed.

Lemma keyboard_inv_timeout now now_rec dev r :
  keyboard_inv r -> keyboard_inv (timeout_callback now now_rec dev r).
Proof.
  intros Hr. unfold timeout_callback.
  destruct (_keyboard_cache r !! dev) as [cache|] eqn:Hc; [|exact Hr].
  destruct (_ && _); [|exact Hr].
  apply keyboard_inv_set_text; [reflexivity|].
  apply keyboard_inv_text; [|exact Hr]. exact (proj1 Hr dev cache Hc).
Qed.

(** [stop_recording] flushes by [record_text_input] only. *)
Lemma stop_recording_flush (P : recorder -> Prop) order now r :
  (forall dev e acc, _keyboard_cache r !! dev = Some e -> P acc ->
     P (record_text_input (now dev) (kb_text e) acc)) ->
  forall acc, P acc ->
  P (fold_left (fun acc device_id =>
        match _keyboard_cache r !! device_id with
        | Some cache =>
            if truthy (strip (kb_text cache))
            then record_text_input (now device_id) (kb_text cache) acc
            else acc
        | None => acc
        end) order acc).
Proof.
  intros Hstep. induction order as [|d rest IH]; intros acc Hacc; [exact Hacc|].
  cbn [fold_left]. apply IH.
  destruct (_keyboard_cache r !! d) as [e|] eqn:He; [|exact Hacc].
  destruct (truthy _); [|exact Hacc]. now apply Hstep.
Qed.

Lemma keyboard_inv_stop order now r :
  keyboard_inv r -> keyboard_inv (stop_recording order now r).
Proof.
  intros Hr. unfold stop_recording. destruct (negb _); [exact Hr|].
  match goal with |- keyboard_inv {| operations := operations ?f |} =>
    assert (Hf : keyboard_inv f) end.
  { apply (stop_recording_flush keyboard_inv); [|exact Hr].
    intros dev e acc He Hacc. apply keyboard_inv_text; [|exact Hacc].
    exact (proj1 Hr dev e He). }
  exact Hf.
Qed.

(** *** The shape of the log *)

Lemma waits_followed_snoc (l : list operation) :
  waits_followed l = true ->
  forall t kw, waits_followed (l ++ [Op t kw]) = true
  /\ forall d t', waits_followed (l ++ [WAIT d t'; Op t kw]) = true.
Proof.
  induction l as [|o rest IH]; intros H t kw; [split; reflexivity|].
  destruct o as [d0 t0|t0 kw0].
  - cbn [waits_followed] in H. destruct rest as [|[|t1 kw1] rest']; try discriminate.
    destruct (IH H t kw) as [IH1 IH2].
    split; [exact IH1|exact IH2].
  - cbn [waits_followed] in H. destruct (IH H t kw) as [IH1 IH2].
    split; [exact IH1|exact IH2].
Qed.

Lemma log_shape_record now kw r :
  log_shape r -> log_shape (_record_operation now kw r).
Proof.
  intros [Hs Hw]. unfold log_shape, _record_operation. cbn [operations].
  destruct (waits_followed_snoc _ Hw (fsub now (start_time r)) kw) as [H1 H2].
  destruct (operations r) as [|o rest] eqn:Hops.
  - rewrite andb_false_r. split; reflexivity.
  - destruct (_ && _).
    + rewrite <- app_assoc. split; [destruct o; [discriminate|reflexivity]|apply H2].
    + split; [destruct o; [discriminate|reflexivity]|apply H1].
Qed.

Lemma log_shape_text now t r :
  log_shape r -> log_shape (record_text_input now t r).
Proof.
  intros Hr. unfold record_text_input. destruct (_ || _); [exact Hr|].
  now apply log_shape_record.
Qed.

Lemma log_shape_key now now_rec dev key_code key_state r :
  log_shape r ->
  log_shape (fst (_process_keyboard_event now now_rec dev key_code key_state r)).
Proof.
  intros Hr. unfold _process_keyboard_event.
  destruct (String.eqb key_code "KEY_LEFTSHIFT"); [exact Hr|].
  destruct (negb (String.eqb key_state "DOWN")); [exact Hr|].
  destruct (String.eqb key_code "KEY_BACKSPACE"); [exact Hr|].
  set (r2 := if truthy _ then _ else _).
  assert (H2 : log_shape r2) by (subst r2; destruct (truthy _); exact Hr).
  destruct (_ && _); cbn [fst]; [|exact H2].
  exact (log_shape_text now_rec _ r2 H2).
Qed.

Lemma log_shape_timeout now now_rec dev r :
  log_shape r -> log_shape (timeout_callback now now_rec dev r).
Proof.
  intros Hr. unfold timeout_callback.
  destruct (_keyboard_cache r !! dev) as [cache|]; [|exact Hr].
  destruct (_ && _); [|exact Hr].
  exact (log_shape_text now_rec _ r Hr).
Qed.

Lemma log_shape_stop order now r :
  log_shape r -> log_shape (stop_recording order now r).
Proof.
  intros Hr. unfold stop_recording. destruct (negb _); [exact Hr|].
  match goal with |- log_shape {| operations := operations ?f |} =>
    assert (Hf : log_shape f) end.
  { apply (stop_recording_flush log_shape); [|exact Hr].
    intros dev e acc _ Hacc. now apply log_shape_text. }
  exact Hf.
Qed.

(** *** Clicks on the screen *)

Lemma clicks_record g now kw r :
  click_on_screen g (Op (fsub now (start_time r)) kw) ->
  Forall (click_on_screen g) (operations r) ->
  Forall (click_on_screen g) (operations (_record_operation now kw r)).
Proof.
  intros Hk Hr. unfold _record_operation. cbn [operations].
  apply Forall_app. split; [|repeat constructor; exact Hk].
  destruct (_ && _); [|exact Hr].
  apply Forall_app. split; [exact Hr|repeat constructor].
Qed.

Lemma clicks_text g now t r :
  Forall (click_on_screen g) (operations r) ->
  Forall (click_on_screen g) (operations (record_text_input now t r)).
Proof.
  intros Hr. unfold record_text_input. destruct (_ || _); [exact Hr|].
  apply clicks_record; [exact I|exact Hr].
Qed.

Lemma clicks_key g now now_rec dev key_code key_state r :
  Forall (click_on_screen g) (operations r) ->
  Forall (click_on_screen g)
    (operations (fst (_process_keyboard_event now now_rec dev key_code key_state r))).
Proof.
  intros Hr. unfold _process_keyboard_event.
  destruct (String.eqb key_code "KEY_LEFTSHIFT"); [exact Hr|].
  destruct (negb (String.eqb key_state "DOWN")); [exact Hr|].
  destruct (String.eqb key_code "KEY_BACKSPACE"); [exact Hr|].
  set (r2 := if truthy _ then _ else _).
  assert (H2 : Forall (click_on_screen g) (operations r2))
    by (subst r2; destruct (truthy _); exact Hr).
  destruct (_ && _); cbn [fst]; [|exact H2].
  exact (clicks_text g now_rec _ r2 H2).
Qed.

Lemma clicks_timeout g now now_rec dev r :
  Forall (click_on_screen g) (operations r) ->
  Forall (click_on_screen g) (operations (timeout_callback now now_rec dev r)).
Proof.
  intros Hr. unfold timeout_callback.
  destruct (_keyboard_cache r !! dev) as [cache|]; [|exact Hr].
  destruct (_ && _); [|exact Hr].
  exact (clicks_text g now_rec _ r Hr).
Qed.

Lemma clicks_stop g order now r :
  Forall (click_on_screen g) (operations r) ->
  Forall (click_on_screen g) (operations (stop_recording order now r)).
Proof.
  intros Hr. unfold stop_recording. destruct (negb _); [exact Hr|].
  cbn [operations].
  apply (stop_recording_flush (fun acc => Forall (click_on_screen g) (operations acc)));
    [|exact Hr].
  intros dev e acc _ Hacc. now apply clicks_text.
Qed.

Lemma convert_raw_to_screen_bounds g :
  0 < _screen_width g -> 0 < _screen_height g ->
  forall raw_x raw_y x y,
  _convert_raw_to_screen g raw_x raw_y = Ok (x, y) ->
  0 <= x <= _screen_width g /\ 0 <= y <= _screen_height g.
Proof.
  intros Hw Hh raw_x raw_y x y. unfold _convert_raw_to_screen.
  destruct (convert_try g raw_x raw_y) as [[sx sy]|e] eqn:Htry.
  - intros [= <- <-]. eapply convert_try_bounds; eauto.
  - destruct (convert_except_bounds g Hw Hh raw_x raw_y)
      as (sx & sy & -> & _ & _ & Hx & Hy).
    intros [= <- <-]. lia.
Qed.

(** *** The steps of a session *)

(** What a step does to the recorder: nothing, a key event, the record
    of a converted click, a timeout thread or [stop_recording]; the
    geometry stays. *)
Lemma session_step_cases s s' :
  session_step s s' ->
  geom s' = geom s
  /\ (rec s' = rec s
      \/ (exists now now_rec dev key_code key_state,
            rec s' = fst (_process_keyboard_event now now_rec dev key_code key_state
                            (rec s)))
      \/ (exists now raw_x raw_y x y e,
            _convert_raw_to_screen (geom s) raw_x raw_y = Ok (x, y)
            /\ rec s' = _record_operation now (KwClick x y raw_x raw_y e) (rec s))
      \/ (exists now now_rec dev, rec s' = timeout_callback now now_rec dev (rec s))
      \/ (exists order now, rec s' = stop_recording order now (rec s))).
Proof.
  intros [now now_rec obs ev|now now_rec dev|order now].
  - destruct ev as [dev v|dev v|dev|dev kc ks]; cbn [handle_event].
    + destruct (coords_of dev s). split; [reflexivity|now left].
    + destruct (coords_of dev s). split; [reflexivity|now left].
    + destruct (coords_of dev s) as [[rx|] [ry|]];
        try (split; [reflexivity|now left]).
      destruct (_convert_raw_to_screen (geom s) rx ry) as [[x y]|e] eqn:Hc;
        [|split; [reflexivity|now left]].
      cbn [fst]. split; [destruct obs; reflexivity|].
      right. right. left. exists now, rx, ry, x, y. eexists. split; [exact Hc|].
      destruct obs; reflexivity.
    + destruct (_process_keyboard_event now now_rec dev kc ks (rec s)) as [r b] eqn:He.
      cbn [fst]. split; [reflexivity|]. right. left.
      exists now, now_rec, dev, kc, ks. now rewrite He.
  - split; [reflexivity|]. do 3 right. left. now exists now, now_rec, dev.
  - split; [reflexivity|]. do 4 right. now exists order, now.
Qed.

(** The probe never touches the screen size. *)
Lemma scan_lines_screen : forall lines g,
  _screen_width (fst (scan_lines lines g)) = _screen_width g
  /\ _screen_height (fst (scan_lines lines g)) = _screen_height g.
Proof.
  induction lines as [|l rest IH]; intros g; [now split|]. cbn [scan_lines].
  destruct (contains _ _).
  - destruct (parse_range _) as [[[lo hi]|]|e]; [|apply IH|now split].
    destruct (IH (set_raw_x lo hi g)) as [-> ->]. now split.
  - destruct (contains _ _); [|apply IH].
    destruct (parse_range _) as [[[lo hi]|]|e]; [|apply IH|now split].
    destruct (IH (set_raw_y lo hi g)) as [-> ->]. now split.
Qed.

Lemma init_bounds_screen probe :
  _screen_width (_init_touch_device_bounds probe init_geometry) = 1080
  /\ _screen_height (_init_touch_device_bounds probe init_geometry) = 2400.
Proof.
  unfold _init_touch_device_bounds.
  destruct probe as [lines|]; [|now split].
  destruct (scan_lines_screen lines init_geometry) as [Hw Hh].
  destruct (scan_lines lines init_geometry) as [g' [e|]]; cbn [fst] in Hw, Hh.
  - now split.
  - unfold reset_degenerate.
    destruct (_ <=? _); destruct (_ <=? _); cbn; now split.
Qed.

Lemma new_session_screen probe :
  _screen_width (geom (new_session probe)) = 1080
  /\ _screen_height (geom (new_session probe)) = 2400.
Proof. exact (init_bounds_screen probe). Qed.

Lemma start_recording_state_of now obs s0 :
  is_recording (rec s0) = false ->
  rec (start_recording now obs s0) = start_recording_state now
  /\ geom (start_recording now obs s0) = geom s0.
Proof.
  intros H. unfold start_recording. rewrite H. destruct obs; now split.
Qed.

(** X10.  The log of a recording never starts with a wait, and each of its
    waits is immediately followed by a recorded operation (so no two waits
    are adjacent and the log does not end with one): from [start_recording]
    on a new recorder, whatever events, timeout threads and calls of
    [stop_recording] follow, each running to its end before the next
    starts. *)
Theorem recording_log_shape probe now obs s :
  rtc session_step (start_recording now obs (new_session probe)) s ->
  log_shape (rec s).
Proof.
  revert s. apply rtc_ind_r.
  - destruct (start_recording_state_of now obs (new_session probe) eq_refl) as [-> _].
    split; reflexivity.
  - intros s1 s2 _ Hstep IH.
    destruct (session_step_cases _ _ Hstep)
      as (_ & [->|[(?&?&?&?&?&->)|[(?&?&?&?&?&?&_&->)|[(?&?&?&->)|(?&?&->)]]]]).
    + exact IH.
    + now apply log_shape_key.
    + now apply log_shape_record.
    + now apply log_shape_timeout.
    + now apply log_shape_stop.
Qed.

(** X11.  Every text in the log of a recording is made of lower-case
    letters, digits, blanks and line feeds only: the keyboard of the
    recorder has no other character, whatever keys are pressed. *)
Theorem recording_texts_keyboard_only probe now obs s :
  rtc session_step (start_recording now obs (new_session probe)) s ->
  Forall (fun t => keyboard_text t = true) (recorded_texts (operations (rec s))).
Proof.
  intros Hrun.
  enough (Hinv : keyboard_inv (rec s)).
  { destruct Hinv as [_ Hl]. eapply Forall_impl; [exact Hl|].
    intros t Ht. cbn beta in Ht. now rewrite <- all_mapped_spec. }
  revert s Hrun. apply rtc_ind_r.
  - destruct (start_recording_state_of now obs (new_session probe) eq_refl) as [-> _].
    split; [|constructor]. intros d e. cbn [start_recording_state _keyboard_cache].
    rewrite lookup_empty. discriminate.
  - intros s1 s2 _ Hstep IH.
    destruct (session_step_cases _ _ Hstep)
      as (_ & [->|[(?&?&?&?&?&->)|[(?&?&?&?&?&?&_&->)|[(?&?&?&->)|(?&?&->)]]]]).
    + exact IH.
    + now apply keyboard_inv_key.
    + now apply keyboard_inv_record.
    + now apply keyboard_inv_timeout.
    + now apply keyboard_inv_stop.
Qed.

(** X12.  Every click in the log of a recording lies on the 1080 x 2400
    screen, whatever the probe of the touch device returned and whatever raw
    coordinates the events carry. *)
Theorem recording_clicks_on_screen probe now obs s :
  rtc session_step (start_recording now obs (new_session probe)) s ->
  Forall (fun o => match o with
                   | Op _ (KwClick x y _ _ _) => 0 <= x <= 1080 /\ 0 <= y <= 2400
                   | _ => True
                   end) (operations (rec s)).
Proof.
  intros Hrun. destruct (new_session_screen probe) as [Hw Hh].
  remember (geom (new_session probe)) as g eqn:Hg.
  enough (Hinv : geom s = g /\ Forall (click_on_screen g) (operations (rec s))).
  { destruct Hinv as [_ Hl]. eapply Forall_impl; [exact Hl|].
    intros [d t|t [x y rx ry e|txt]]; cbn; try tauto. rewrite Hw, Hh. tauto. }
  revert s Hrun. apply rtc_ind_r.
  - destruct (start_recording_state_of now obs (new_session probe) eq_refl) as [-> ->].
    split; [now rewrite Hg|constructor].
  - intros s1 s2 _ Hstep [IHg IH].
    destruct (session_step_cases _ _ Hstep) as (Hgeom & Hrec).
    split; [congruence|].
    destruct Hrec
      as [->|[(?&?&?&?&?&->)|[(?&rx&ry&x&y&?&Hc&->)|[(?&?&?&->)|(?&?&->)]]]].
    + exact IH.
    + now apply clicks_key.
    + apply clicks_record; [|exact IH]. rewrite IHg in Hc.
      destruct (convert_raw_to_screen_bounds g ltac:(lia) ltac:(lia) rx ry x y Hc).
      cbn. tauto.
    + now apply clicks_timeout.
    + now apply clicks_stop.
Qed.

End RecorderInvariants.

(** The sample run is a run of the recorder. *)
Ltac sample_run :=
  unfold Samples.entered, Samples.tapped;
  repeat (eapply rtc_r; [|apply Touch.step_event]);
  apply rtc_refl.

(** The log of the sample run: a click, a wait, the text. *)
Lemma recording_log_shape_witness :
  Predicates.log_shape (Touch.rec Samples.entered).
Proof.
  apply (recording_log_shape None (Notions.seconds 10) Touch.Unavailable).
  sample_run.
Defined.

Lemma recording_texts_keyboard_only_witness :
  Forall (fun t => Predicates.keyboard_text t = true)
    (Predicates.recorded_texts (Recorder.operations (Touch.rec Samples.entered))).
Proof.
  apply (recording_texts_keyboard_only None (Notions.seconds 10) Touch.Unavailable).
  sample_run.
Defined.

Lemma recording_clicks_on_screen_witness :
  Forall (fun o => match o with
                   | Recorder.Op _ (Recorder.KwClick x y _ _ _) =>
                       0 <= x <= 1080 /\ 0 <= y <= 2400
                   | _ => True
                   end)
    (Recorder.operations (Touch.rec Samples.entered)).
Proof.
  apply (recording_clicks_on_screen None (Notions.seconds 10) Touch.Unavailable).
  sample_run.
Defined.

(** ** Stopping, and the keyboard outside a recording *)

Section Stopping.
Import Recorder Contract Notions Predicates Touch.

(** X13.  While the recorder is not recording, no key event, timeout thread
    or call of [stop_recording] adds to the log or turns recording on; yet
    Enter on a buffer that is not blank still empties the buffer, so what
    was typed is lost. *)
Theorem keyboard_silent_when_not_recording now now_rec dev key_code key_state
    order clock r :
  is_recording r = false ->
  let r1 := fst (_process_keyboard_event now now_rec dev key_code key_state r) in
  let r2 := timeout_callback now now_rec dev r in
  operations r1 = operations r /\ is_recording r1 = false
  /\ operations r2 = operations r /\ is_recording r2 = false
  /\ stop_recording order clock r = r
  /\ (key_code = "KEY_ENTER"%string -> key_state = "DOWN"%string ->
      blank (cached_text dev r) = false ->
      cached_text dev r1 = EmptyString).
Proof.
  intros Hrec r1 r2.
  assert (Htext : forall t t' r0, is_recording r0 = false ->
            record_text_input t t' r0 = r0).
  { intros t t' r0 H. unfold record_text_input. now rewrite H. }
  assert (H1 : operations r1 = operations r /\ is_recording r1 = false).
  { subst r1. unfold _process_keyboard_event.
    destruct (String.eqb key_code "KEY_LEFTSHIFT"); [now split|].
    destruct (negb (String.eqb key_state "DOWN")); [now split|].
    destruct (String.eqb key_code "KEY_BACKSPACE"); [now split|].
    set (r2' := if truthy _ then _ else _).
    assert (H2 : operations r2' = operations r /\ is_recording r2' = false)
      by (subst r2'; destruct (truthy _); now split).
    destruct (_ && _); cbn [fst]; [|exact H2].
    rewrite Htext by apply H2. exact H2. }
  assert (H2 : operations r2 = operations r /\ is_recording r2 = false).
  { subst r2. unfold timeout_callback.
    destruct (_keyboard_cache r !! dev); [|now split].
    destruct (_ && _); [|now split]. rewrite Htext by exact Hrec. now split. }
  repeat split; try tauto.
  - unfold stop_recording. now rewrite Hrec.
  - intros -> -> Hblank. subst r1. unfold _process_keyboard_event.
    cbn [String.eqb Ascii.eqb Bool.eqb negb andb].
    change (key_char _key_mapping "KEY_ENTER") with (String "010"%char EmptyString).
    cbn [truthy].
    set (ra := set_cache _ r).
    assert (Hra : is_Some (_keyboard_cache ra !! dev)).
    { subst ra. cbn [set_cache _keyboard_cache]. rewrite lookup_insert_eq. eauto. }
    rewrite cached_text_set_text by exact Hra. rewrite strip_newline.
    destruct (truthy (strip (cached_text dev r))) eqn:Hs.
    + cbn [fst]. apply cached_text_set_text.
      rewrite record_text_input_cache, set_text_lookup.
      destruct Hra as [e ->]. cbn. eauto.
    + apply strip_falsy in Hs. congruence.
Qed.

Lemma flush_texts order now r : forall acc,
  is_recording acc = true ->
  let f := fold_left (fun acc device_id =>
        match _keyboard_cache r !! device_id with
        | Some cache =>
            if truthy (strip (kb_text cache))
            then record_text_input (now device_id) (kb_text cache) acc
            else acc
        | None => acc
        end) order acc in
  recorded_texts (operations f)
  = recorded_texts (operations acc) ++ omap (pending r) order
  /\ _keyboard_cache f = _keyboard_cache acc.
Proof.
  induction order as [|d rest IH]; intros acc Hacc; cbn [fold_left].
  - change (omap (pending r) []) with (@nil string). now rewrite app_nil_r.
  - set (acc' := match _keyboard_cache r !! d with Some _ => _ | None => _ end).
    assert (H : is_recording acc' = true
                /\ _keyboard_cache acc' = _keyboard_cache acc
                /\ recorded_texts (operations acc')
                   = recorded_texts (operations acc)
                     ++ match pending r d with Some t => [t] | None => [] end).
    { subst acc'. unfold pending.
      destruct (_keyboard_cache r !! d) as [e|];
        [|rewrite app_nil_r; now repeat split].
      destruct (truthy (strip (kb_text e))) eqn:Ht;
        [|rewrite app_nil_r; now repeat split].
      unfold record_text_input. rewrite Hacc, Ht. cbn [negb orb].
      unfold _record_operation. cbn [is_recording _keyboard_cache operations].
      repeat split; try assumption.
      rewrite recorded_texts_app. f_equal.
      destruct (_ && _); [|reflexivity].
      rewrite recorded_texts_app. cbn. now rewrite app_nil_r. }
    destruct H as (Hr' & Hc' & Ht').
    destruct (IH acc' Hr') as [IH1 IH2]. cbn zeta in IH1, IH2.
    rewrite IH1, IH2, Ht', Hc', <- app_assoc. split; [|reflexivity].
    f_equal.
    change (omap (pending r) (d :: rest))
      with (match pending r d with
            | Some t => t :: omap (pending r) rest
            | None => omap (pending r) rest
            end).
    destruct (pending r d); reflexivity.
Qed.

(** X14.  [stop_recording] on a recorder that is recording turns recording
    off and records, device by device, the text still pending in each
    buffer, stripped; blank buffers record nothing. The buffers themselves
    are left as they are. *)
Theorem stop_recording_flushes_pending order now r :
  is_recording r = true ->
  let r' := stop_recording order now r in
  is_recording r' = false
  /\ recorded_texts (operations r')
     = recorded_texts (operations r) ++ omap (pending r) order
  /\ _keyboard_cache r' = _keyboard_cache r.
Proof.
  intros Hrec. unfold stop_recording. rewrite Hrec. cbn [negb].
  cbn [is_recording operations _keyboard_cache].
  split; [reflexivity|]. exact (flush_texts order now r r Hrec).
Qed.

(** *** Backspace *)

Lemma drop_last_snoc (s : string) (c : ascii) :
  drop_last (s +:+ String c EmptyString) = s.
Proof.
  unfold drop_last. rewrite rev_app_distr.
  change (String.rev (String c EmptyString)) with (String c EmptyString).
  rewrite append_cons. change (EmptyString +:+ String.rev s) with (String.rev s).
  apply rev_involutive.
Qed.

Lemma key_char_single (k : string) :
  key_char _key_mapping k = EmptyString
  \/ exists c, key_char _key_mapping k = String c EmptyString.
Proof.
  destruct (key_char_in _key_mapping k) as [H|[k' Hin]]; [now left|]. right.
  assert (Hall : Forall (fun kv => exists c, snd kv = String c EmptyString)
                   _key_mapping)
    by (unfold _key_mapping; repeat constructor; cbn; eauto).
  rewrite Forall_forall in Hall.
  exact (Hall _ (proj2 (list_elem_of_In _ _) Hin)).
Qed.

(** X15.  Backspace takes back the last key: after a key that types a
    character (other than Enter) and a backspace, both pressed on the same
    device, the buffer of the device is what it was, and nothing was
    recorded. On an empty buffer backspace leaves it empty. *)
Theorem backspace_takes_back_last_key t1 t1' t2 t2' dev key_code r :
  plain_key key_code = true ->
  key_char _key_mapping key_code <> EmptyString ->
  let r1 := fst (_process_keyboard_event t1 t1' dev key_code "DOWN" r) in
  let r2 := fst (_process_keyboard_event t2 t2' dev "KEY_BACKSPACE" "DOWN" r1) in
  let r3 := fst (_process_keyboard_event t2 t2' dev "KEY_BACKSPACE" "DOWN" r) in
  cached_text dev r1 = cached_text dev r +:+ key_char _key_mapping key_code
  /\ cached_text dev r2 = cached_text dev r
  /\ operations r2 = operations r
  /\ (cached_text dev r = EmptyString -> cached_text dev r3 = EmptyString).
Proof.
  intros Hplain Hchar r1 r2 r3.
  destruct (key_event_cases t1 t1' dev key_code "DOWN" r) as (_ & _ & Hk).
  specialize (Hk Hplain eq_refl).
  assert (Hback : forall r0,
            fst (_process_keyboard_event t2 t2' dev "KEY_BACKSPACE" "DOWN" r0)
            = set_text dev (drop_last (cached_text dev r0))
                (set_cache (<[dev := KbEntry (cached_text dev r0) t2]>
                              (_keyboard_cache r0)) r0)).
  { intros r0.
    destruct (key_event_cases t2 t2' dev "KEY_BACKSPACE" "DOWN" r0) as (_ & Hb & _).
    now rewrite Hb. }
  assert (H1 : cached_text dev r1
               = cached_text dev r +:+ key_char _key_mapping key_code).
  { subst r1. rewrite Hk. cbn [fst].
    apply cached_text_set_text. rewrite r1_lookup. eauto. }
  split; [exact H1|]. subst r2 r3. rewrite !Hback.
  rewrite !cached_text_set_text by (rewrite r1_lookup; eauto).
  split; [|split].
  - rewrite H1. destruct (key_char_single key_code) as [H|[c ->]]; [contradiction|].
    apply drop_last_snoc.
  - change (operations r1 = operations r). subst r1. now rewrite Hk.
  - intros ->. reflexivity.
Qed.

End Stopping.

Section StoppingInstances.
Import Recorder Notions Predicates Touch Samples.

(** Enter on a new recorder, before any recording has started. *)
Lemma keyboard_silent_when_not_recording_witness :
  let r := rec (new_session None) in
  let r1 := fst (_process_keyboard_event (seconds 1) (seconds 1) "event3"
                   "KEY_ENTER" "DOWN" r) in
  operations r1 = [] /\ is_recording r1 = false.
Proof.
  intros r r1.
  destruct (keyboard_silent_when_not_recording (seconds 1) (seconds 1) "event3"
              "KEY_ENTER" "DOWN" ["event3"%string] (fun _ => seconds 2) r eq_refl)
    as (H1 & H2 & _).
  exact (conj H1 H2).
Defined.

(** Stopping at second 20 with [hi] still in the buffer. *)
Lemma stop_recording_flushes_pending_witness :
  let r' := stop_recording ["event3"%string] (fun _ => seconds 20) typed_hi in
  is_recording r' = false
  /\ recorded_texts (operations r') = ["hi"%string]
  /\ _keyboard_cache r' = _keyboard_cache typed_hi.
Proof.
  apply (stop_recording_flushes_pending ["event3"%string] (fun _ => seconds 20)
           typed_hi).
  reflexivity.
Defined.

(** The key A and a backspace at the start of a recording. *)
Lemma backspace_takes_back_last_key_witness :
  let r := rec started in
  let r1 := fst (_process_keyboard_event (seconds 11) (seconds 11) "event3"
                   "KEY_A" "DOWN" r) in
  let r2 := fst (_process_keyboard_event (seconds 12) (seconds 12) "event3"
                   "KEY_BACKSPACE" "DOWN" r1) in
  cached_text "event3" r1 = "a"%string
  /\ cached_text "event3" r2 = EmptyString
  /\ operations r2 = [].
Proof.
  intros r r1 r2.
  destruct (backspace_takes_back_last_key (seconds 11) (seconds 11) (seconds 12)
              (seconds 12) "event3" "KEY_A" r eq_refl ltac:(discriminate))
    as (H1 & H2 & H3 & _).
  exact (conj H1 (conj H2 H3)).
Defined.

End StoppingInstances.

(** ** Touch events and the element under a point *)

Section TouchEvents.
Import Recorder Contract Notions Predicates Touch.

Lemma find_from_spec x y : forall elems idx,
  match find_from idx elems x y with
  | Some info =>
      exists k elem,
        index info = (idx + k)%nat
        /\ elems !! k = Some elem
        /\ bbox_pixels elem = Some (info_bbox info)
        /\ near (info_bbox info) x y = true
        /\ text info = Device.elem_text (ui elem)
        /\ info_description info = Device.content_description (ui elem)
        /\ info_class info = class_name elem
        /\ forall j e' b', (j < k)%nat -> elems !! j = Some e' ->
             bbox_pixels e' = Some b' -> near b' x y = false
  | None =>
      forall j e' b', elems !! j = Some e' ->
        bbox_pixels e' = Some b' -> near b' x y = false
  end.
Proof.
  induction elems as [|elem rest IH]; intros idx; cbn [find_from].
  - intros j e' b' H. destruct j; discriminate.
  - assert (Hskip :
      (forall b, bbox_pixels elem = Some b -> near b x y = false) ->
      match find_from (S idx) rest x y with
      | Some info =>
          exists k elem0,
            index info = (idx + k)%nat
            /\ (elem :: rest) !! k = Some elem0
            /\ bbox_pixels elem0 = Some (info_bbox info)
            /\ near (info_bbox info) x y = true
            /\ text info = Device.elem_text (ui elem0)
            /\ info_description info = Device.content_description (ui elem0)
            /\ info_class info = class_name elem0
            /\ forall j e' b', (j < k)%nat -> (elem :: rest) !! j = Some e' ->
                 bbox_pixels e' = Some b' -> near b' x y = false
      | None =>
          forall j e' b', (elem :: rest) !! j = Some e' ->
            bbox_pixels e' = Some b' -> near b' x y = false
      end).
    { intros Hfar. specialize (IH (S idx)).
      destruct (find_from (S idx) rest x y) as [info|].
      - destruct IH as (k & e0 & Hi & Hk & Hb & Hn & Ht & Hd & Hc & Hmin).
        exists (S k), e0. repeat split; try assumption; [lia|].
        intros [|j] e' b' Hj He' Hb'.
        + cbn in He'. injection He' as <-. now apply Hfar.
        + cbn in He'. apply (Hmin j e' b'); [lia|assumption|assumption].
      - intros [|j] e' b' He' Hb'.
        + cbn in He'. injection He' as <-. now apply Hfar.
        + cbn in He'. now apply (IH j e' b'). }
    destruct (bbox_pixels elem) as [b|] eqn:Hbox.
    + destruct (near b x y) eqn:Hnear.
      * exists 0%nat, elem. cbn. repeat split; try assumption; [lia|].
        intros j e' b' Hj. lia.
      * apply Hskip. intros b0 [= <-]. exact Hnear.
    + apply Hskip. discriminate.
Qed.

(** X16.  [_find_element_by_coords] returns the first element of the list
    whose box, widened by 20 pixels on every side, holds the point, with its
    position as the index and its own texts, class and box; and [None]
    exactly when no element with a box is that near. *)
Theorem find_element_first_near elems x y :
  match _find_element_by_coords elems x y with
  | Some info =>
      exists elem,
        elems !! index info = Some elem
        /\ bbox_pixels elem = Some (info_bbox info)
        /\ near (info_bbox info) x y = true
        /\ text info = Device.elem_text (ui elem)
        /\ info_description info = Device.content_description (ui elem)
        /\ info_class info = class_name elem
        /\ forall j e' b', (j < index info)%nat -> elems !! j = Some e' ->
             bbox_pixels e' = Some b' -> near b' x y = false
  | None =>
      forall j e' b', elems !! j = Some e' ->
        bbox_pixels e' = Some b' -> near b' x y = false
  end.
Proof.
  unfold _find_element_by_coords. pose proof (find_from_spec x y elems 0) as H.
  destruct (find_from 0 elems x y) as [info|]; [|exact H].
  destruct H as (k & elem & Hi & H). cbn in Hi. subst k. now exists elem.
Qed.

(** X17.  The index recorded for a click is replayed as an index click: when
    the screen at replay time shows the elements among which the element was
    found, the step generated for the click performs the click by index, and
    the coordinates are not used. *)
Theorem found_index_replays_by_index env w elems x y info :
  Device.controller_valid env = true ->
  _find_element_by_coords elems x y = Some info ->
  Device.get_state env (Device.reads w) = Some (map ui elems) ->
  Replay.run_step env
    (Replay.generate_step
       {| Replay.op_action_type := "click";
          Replay.op_element := Some (Some (Z.of_nat (index info)));
          Replay.op_x := Some x; Replay.op_y := Some y;
          Replay.op_text := None; Replay.op_duration := None |}) w
  = (Ok tt,
     {| Device.reads := S (Device.reads w);
        Device.trace := Device.trace w
          ++ [Device.Exec (Device.click_index (Z.of_nat (index info))) (map ui elems);
              Device.Sleep 1.5] |}).
Proof.
  intros Hctl Hfind Hui.
  pose proof (find_from_spec x y elems 0) as Hspec.
  unfold _find_element_by_coords in Hfind. rewrite Hfind in Hspec.
  destruct Hspec as (k & elem & Hi & Hk & _). cbn in Hi. subst k.
  apply lookup_lt_Some in Hk.
  assert (Hin : Device.in_range (Z.of_nat (index info)) (map ui elems) = true).
  { apply in_range_spec. rewrite length_map. lia. }
  change (Replay.generate_step _)
    with (Replay.TryIndexExceptCoords (Z.of_nat (index info)) (Some x) (Some y)).
  cbn [Replay.run_step]. unfold Device.try_except.
  now rewrite (click_by_index_in_range env Hctl w _ _ Hui Hin).
Qed.

Lemma coords_of_set dev c s :
  coords_of dev (set_coords (<[dev := c]> (_coord_cache s)) s) = c.
Proof. unfold coords_of. cbn [set_coords _coord_cache]. now rewrite lookup_insert_eq. Qed.

(** X18.  A tap, that is the X event, the Y event and the report of a
    device, records exactly one click: at the converted point, with the raw
    values, and with the index of the element found under the point in the
    list of elements read at that moment. The report resets the coordinates
    of the device, so a second report records nothing. *)
Theorem tap_records_one_click s dev vx vy t1 t1' o1 t2 t2' o2 now now_rec obs
    t4 t4' o4 :
  0 < _screen_width (geom s) -> 0 < _screen_height (geom s) ->
  let s1 := fst (handle_event t1 t1' o1 (Events.X dev vx) s) in
  let s2 := fst (handle_event t2 t2' o2 (Events.Y dev vy) s1) in
  let s3 := fst (handle_event now now_rec obs (Events.SYNC dev) s2) in
  let s4 := fst (handle_event t4 t4' o4 (Events.SYNC dev) s3) in
  exists x y waits,
    _convert_raw_to_screen (geom s) vx vy = Ok (x, y)
    /\ operations (rec s3)
       = operations (rec s) ++ waits
           ++ [Op (fsub now (start_time (rec s)))
                 (KwClick x y vx vy
                    (index <$> _find_element_by_coords
                                 (ui_elements (_update_ui_elements obs s)) x y))]
    /\ Forall (fun o => is_wait o = true) waits
    /\ (length waits <= 1)%nat
    /\ coords_of dev s3 = (None, None)
    /\ operations (rec s4) = operations (rec s3).
Proof.
  intros Hw Hh s1 s2 s3 s4.
  assert (Hok : exists x y, _convert_raw_to_screen (geom s) vx vy = Ok (x, y)).
  { unfold _convert_raw_to_screen.
    destruct (convert_try (geom s) vx vy) as [[x y]|e]; [eauto|].
    destruct (convert_except_bounds (geom s) Hw Hh vx vy) as (x & y & -> & _).
    eauto. }
  destruct Hok as (x & y & Hconv). exists x, y.
  assert (H2 : coords_of dev s2 = (Some vx, Some vy)
               /\ geom s2 = geom s /\ rec s2 = rec s
               /\ ui_elements s2 = ui_elements s).
  { subst s2 s1. cbn [handle_event].
    destruct (coords_of dev s) as [cx cy] eqn:Hc0. cbn [fst].
    rewrite coords_of_set. cbn [fst]. rewrite coords_of_set. now repeat split. }
  destruct H2 as (Hc2 & Hg2 & Hr2 & Hu2).
  assert (H3 : s3 = set_coords (<[dev := (None, None)]>
                 (_coord_cache (_update_ui_elements obs
                    (set_coords (<[dev := (Some vx, Some vy)]> (_coord_cache s2)) s2))))
                 (set_rec
                    (_record_operation now
                       (KwClick x y vx vy
                          (index <$> _find_element_by_coords
                             (ui_elements (_update_ui_elements obs
                                (set_coords (<[dev := (Some vx, Some vy)]>
                                               (_coord_cache s2)) s2))) x y))
                       (rec s2))
                    (_update_ui_elements obs
                       (set_coords (<[dev := (Some vx, Some vy)]>
                                      (_coord_cache s2)) s2)))).
  { subst s3. cbn [handle_event]. rewrite Hc2, Hg2, Hconv. cbn [fst].
    destruct obs; reflexivity. }
  assert (Hui : ui_elements (_update_ui_elements obs
                  (set_coords (<[dev := (Some vx, Some vy)]> (_coord_cache s2)) s2))
                = ui_elements (_update_ui_elements obs s)).
  { destruct obs; cbn; congruence. }
  rewrite Hui in H3.
  destruct (record_operation_appends now
              (KwClick x y vx vy
                 (index <$> _find_element_by_coords
                              (ui_elements (_update_ui_elements obs s)) x y))
              (rec s)) as (waits & Hops & Hwaits & Hlen).
  exists waits. split; [exact Hconv|].
  assert (Hrec3 : operations (rec s3)
                  = operations (_record_operation now
                      (KwClick x y vx vy
                         (index <$> _find_element_by_coords
                                      (ui_elements (_update_ui_elements obs s)) x y))
                      (rec s))).
  { rewrite H3, Hr2. reflexivity. }
  assert (Hc3 : coords_of dev s3 = (None, None)).
  { rewrite H3. unfold coords_of. cbn [set_coords _coord_cache].
    now rewrite lookup_insert_eq. }
  repeat split; try assumption.
  - now rewrite Hrec3.
  - subst s4. cbn [handle_event]. rewrite Hc3. reflexivity.
Qed.

(** X19.  A report records a click only when both coordinates of the device
    have arrived since its last click: after a lone X event, or a lone Y
    event, the report records nothing. *)
Theorem report_needs_both_axes s dev v t1 t1' o1 t2 t2' o2 :
  coords_of dev s = (None, None) ->
  let sx := fst (handle_event t2 t2' o2 (Events.SYNC dev)
                   (fst (handle_event t1 t1' o1 (Events.X dev v) s))) in
  let sy := fst (handle_event t2 t2' o2 (Events.SYNC dev)
                   (fst (handle_event t1 t1' o1 (Events.Y dev v) s))) in
  rec sx = rec s /\ rec sy = rec s
  /\ coords_of dev sx = (Some v, None) /\ coords_of dev sy = (None, Some v).
Proof.
  intros Hc sx sy. subst sx sy. cbn [handle_event]. rewrite Hc. cbn [fst].
  rewrite !coords_of_set. cbn [fst]. rewrite !coords_of_set. now repeat split.
Qed.

End TouchEvents.

Section TouchEventsInstances.
Import Recorder Notions Predicates Touch Samples.

(** A click at (150, 230) falls on the button, which is replayed by its
    index on a device that shows the same screen. *)
Lemma found_index_replays_by_index_witness :
  Replay.run_step (showing [ui ok_button])
    (Replay.generate_step
       {| Replay.op_action_type := "click";
          Replay.op_element := Some (Some 0);
          Replay.op_x := Some 150; Replay.op_y := Some 230;
          Replay.op_text := None; Replay.op_duration := None |})
    Device.initial_world
  = (Ok tt,
     {| Device.reads := 1;
        Device.trace := [Device.Exec (Device.click_index 0) [ui ok_button];
                         Device.Sleep 1.5] |}).
Proof.
  exact (found_index_replays_by_index (showing [ui ok_button]) Device.initial_world
           [ok_button] 150 230
           {| index := 0; text := Some "OK"%string; info_description := None;
              info_class := Some "android.widget.Button"%string;
              info_bbox := BBox 100 300 200 260 |}
           eq_refl eq_refl eq_refl).
Defined.

(** The sample tap: one click, at (527, 1171), on no element. *)
Lemma tap_records_one_click_witness :
  exists x y waits,
    _convert_raw_to_screen (geom started) 16000 16000 = Ok (x, y)
    /\ operations (rec tapped)
       = [] ++ waits
           ++ [Op (fsub (seconds 12) (seconds 10))
                 (KwClick x y 16000 16000 None)]
    /\ Forall (fun o => is_wait o = true) waits
    /\ (length waits <= 1)%nat
    /\ coords_of "event2" tapped = (None, None)
    /\ operations (rec (fst (handle_event (seconds 13) (seconds 13) Unavailable
                               (Events.SYNC "event2") tapped)))
       = operations (rec tapped).
Proof.
  exact (tap_records_one_click started "event2" 16000 16000
           (seconds 12) (seconds 12) Unavailable
           (seconds 12) (seconds 12) Unavailable
           (seconds 12) (seconds 12) Unavailable
           (seconds 13) (seconds 13) Unavailable eq_refl eq_refl).
Defined.

(** A lone X event and a report, at the start of a recording. *)
Lemma report_needs_both_axes_witness :
  rec (fst (handle_event (seconds 12) (seconds 12) Unavailable
              (Events.SYNC "event2")
              (fst (handle_event (seconds 12) (seconds 12) Unavailable
                      (Events.X "event2" 16000) started))))
  = rec started.
Proof.
  exact (proj1 (report_needs_both_axes started "event2" 16000
                  (seconds 12) (seconds 12) Unavailable
                  (seconds 12) (seconds 12) Unavailable eq_refl)).
Defined.

End TouchEventsInstances.

(** ** Lines of the event stream *)

Section EventLines.
Import Recorder Contract Notions Predicates Events.

Lemma split_go_all_blank (r : string) : forall cur,
  blank r = true ->
  split_go cur r = if truthy cur then [String.rev cur] else [].
Proof.
  induction r as [|c r IH]; intros cur Hr; [reflexivity|].
  cbn [blank] in Hr. apply andb_prop in Hr as [Hc Hr].
  cbn [split_go]. rewrite Hc, (IH EmptyString Hr). cbn [truthy]. apply app_nil_r.
Qed.

Lemma split_go_blank_prefix (l s : string) :
  blank l = true -> split_go EmptyString (l +:+ s) = split_go EmptyString s.
Proof.
  induction l as [|c l IH]; intros Hl; [reflexivity|].
  cbn [blank] in Hl. apply andb_prop in Hl as [Hc Hl].
  rewrite append_cons. cbn [split_go]. rewrite Hc. cbn [truthy app]. auto.
Qed.

Lemma split_go_blank_suffix (r : string) : forall t cur,
  blank r = true -> split_go cur (t +:+ r) = split_go cur t.
Proof.
  intros t. induction t as [|c t IH]; intros cur Hr.
  - change (EmptyString +:+ r) with r. now apply split_go_all_blank.
  - rewrite append_cons. cbn [split_go].
    destruct (isspace c); [now rewrite IH|now apply IH].
Qed.

(** [split] does not see what [strip] removes. *)
Lemma split_strip (s : string) : split (strip s) = split s.
Proof.
  destruct (strip_spec s) as (l & r & Hs & Hl & Hr & _).
  unfold split. rewrite Hs at 2.
  rewrite split_go_blank_prefix by exact Hl.
  symmetry. now apply split_go_blank_suffix.
Qed.

Lemma split_go_field (f : string) : forall cur s,
  no_space f = true ->
  split_go cur (f +:+ s) = split_go (String.rev_app f cur) s.
Proof.
  induction f as [|c f IH]; intros cur s Hf; [reflexivity|].
  cbn [no_space] in Hf. apply andb_prop in Hf as [Hc Hf].
  apply negb_true_iff in Hc.
  rewrite append_cons. cbn [split_go String.rev_app]. rewrite Hc. now apply IH.
Qed.

Lemma split_go_end (cur s : string) :
  truthy cur = true ->
  match s with EmptyString => True | String c _ => isspace c = true end ->
  split_go cur s = String.rev cur :: split_go EmptyString s.
Proof.
  intros Hcur Hs. destruct s as [|c s]; cbn [split_go]; rewrite Hcur; [reflexivity|].
  rewrite Hs. reflexivity.
Qed.

Lemma blank_head (s t : string) :
  blank s = true -> truthy s = true ->
  match s +:+ t with EmptyString => True | String c _ => isspace c = true end.
Proof.
  destruct s as [|c s]; [discriminate|]. cbn [blank]. intros [Hc _]%andb_prop _.
  rewrite append_cons. exact Hc.
Qed.

(** The fields of a line laid out in columns. *)
Lemma split_columns (trail : string) : forall cols first,
  well_spaced first cols = true -> blank trail = true ->
  split_go EmptyString (columns cols +:+ trail) = map snd cols.
Proof.
  induction cols as [|[gap f] rest IH]; intros first Hcols Htrail.
  - change (columns [] +:+ trail) with trail.
    now rewrite split_go_all_blank.
  - cbn [well_spaced] in Hcols.
    apply andb_prop in Hcols as [[[Hgap Hfirst]%andb_prop Hf]%andb_prop Hrest].
    unfold is_field in Hf. apply andb_prop in Hf as [Hne Hns].
    cbn [columns map snd]. rewrite !append_assoc.
    rewrite split_go_blank_prefix by exact Hgap.
    rewrite split_go_field by exact Hns.
    change (String.rev_app f EmptyString) with (String.rev f).
    rewrite split_go_end.
    + rewrite rev_involutive. f_equal. exact (IH false Hrest Htrail).
    + destruct (truthy (String.rev f)) eqn:H; [reflexivity|].
      apply (proj1 (truthy_false _)) in H. apply (proj1 (rev_empty _)) in H.
      rewrite H in Hne. discriminate.
    + destruct rest as [|[gap' f'] rest'].
      * change (columns [] +:+ trail) with trail.
        destruct trail as [|c t]; [exact I|].
        cbn [blank] in Htrail. now apply andb_prop in Htrail as [Hc _].
      * cbn [well_spaced] in Hrest.
        apply andb_prop in Hrest as [[[Hg' Hne']%andb_prop _]%andb_prop _].
        cbn [orb] in Hne'. cbn [columns]. rewrite append_assoc.
        now apply blank_head.
Qed.

Lemma no_space_app (a b : string) :
  no_space (a +:+ b) = no_space a && no_space b.
Proof.
  induction a as [|c a IH]; [reflexivity|].
  rewrite append_cons. cbn [no_space]. rewrite IH. apply andb_assoc.
Qed.

Lemma is_field_colon (dev : string) :
  is_field dev = true -> is_field (dev +:+ ":") = true.
Proof.
  unfold is_field. intros [Hne Hns]%andb_prop.
  rewrite no_space_app, Hns. destruct dev; [discriminate|reflexivity].
Qed.

Lemma before_colon_app (dev rest : string) :
  no_colon dev = true -> before_colon (dev +:+ String ":" rest) = dev.
Proof.
  induction dev as [|c dev IH]; intros H; [reflexivity|].
  cbn [no_colon] in H. apply andb_prop in H as [Hc H]. apply negb_true_iff in Hc.
  rewrite append_cons. cbn [before_colon]. rewrite Hc. now rewrite IH.
Qed.

(** *** Hexadecimal values *)

Lemma hex_digit_char (d : Z) : 0 <= d < 16 -> hex_digit (hex_char d) = Some d.
Proof.
  intros H.
  assert (Hcases : d = 0 \/ d = 1 \/ d = 2 \/ d = 3 \/ d = 4 \/ d = 5 \/ d = 6
                   \/ d = 7 \/ d = 8 \/ d = 9 \/ d = 10 \/ d = 11 \/ d = 12
                   \/ d = 13 \/ d = 14 \/ d = 15) by lia.
  repeat (destruct Hcases as [->|Hcases]; [reflexivity|]). now subst.
Qed.

Lemma hex_char_visible (d : Z) : 0 <= d < 16 -> isspace (hex_char d) = false.
Proof.
  intros H.
  assert (Hcases : d = 0 \/ d = 1 \/ d = 2 \/ d = 3 \/ d = 4 \/ d = 5 \/ d = 6
                   \/ d = 7 \/ d = 8 \/ d = 9 \/ d = 10 \/ d = 11 \/ d = 12
                   \/ d = 13 \/ d = 14 \/ d = 15) by lia.
  repeat (destruct Hcases as [->|Hcases]; [reflexivity|]). now subst.
Qed.

Lemma hex_digits_value (n : nat) : forall v acc a,
  hex_go a (hex_digits n v acc)
  = hex_go (a * 16 ^ Z.of_nat n + v mod 16 ^ Z.of_nat n) acc.
Proof.
  induction n as [|n IH]; intros v acc a.
  - cbn [hex_digits]. change (16 ^ Z.of_nat 0) with 1. rewrite Z.mod_1_r. f_equal. lia.
  - cbn [hex_digits]. rewrite IH. cbn [hex_go].
    rewrite hex_digit_char by (apply Z.mod_pos_bound; lia). cbn [default].
    f_equal. rewrite Nat2Z.inj_succ, Z.pow_succ_r by lia.
    rewrite (Z.rem_mul_r v 16 (16 ^ Z.of_nat n)) by lia. unfold id. ring.
Qed.

Lemma hex_digits_all (n : nat) : forall v acc,
  all_hex acc = true -> all_hex (hex_digits n v acc) = true.
Proof.
  induction n as [|n IH]; intros v acc Hacc; [exact Hacc|].
  cbn [hex_digits]. apply IH. cbn [all_hex]. rewrite Hacc, andb_true_r.
  rewrite hex_digit_char by (apply Z.mod_pos_bound; lia). reflexivity.
Qed.

Lemma hex_digits_no_space (n : nat) : forall v acc,
  no_space acc = true -> no_space (hex_digits n v acc) = true.
Proof.
  induction n as [|n IH]; intros v acc Hacc; [exact Hacc|].
  cbn [hex_digits]. apply IH. cbn [no_space]. rewrite Hacc, andb_true_r.
  rewrite hex_char_visible by (apply Z.mod_pos_bound; lia). reflexivity.
Qed.

Lemma hex_digits_truthy (n : nat) : forall v acc,
  truthy acc = true -> truthy (hex_digits n v acc) = true.
Proof.
  induction n as [|n IH]; intros v acc Hacc; [exact Hacc|].
  cbn [hex_digits]. now apply IH.
Qed.

Lemma hex8_spec (v : Z) :
  0 <= v < 2 ^ 32 ->
  all_hex (hex8 v) = true /\ int16 (hex8 v) = v /\ is_field (hex8 v) = true.
Proof.
  intros Hv. unfold hex8, int16, is_field. split; [|split].
  - now apply hex_digits_all.
  - rewrite hex_digits_value. cbn [hex_go].
    change (16 ^ Z.of_nat 8) with (2 ^ 32). rewrite Z.mod_small by lia. lia.
  - change (hex_digits 8 v EmptyString)
      with (hex_digits 7 (v / 16) (String (hex_char (v mod 16)) EmptyString)).
    rewrite hex_digits_truthy by reflexivity.
    apply hex_digits_no_space. cbn [no_space].
    rewrite hex_char_visible by (apply Z.mod_pos_bound; lia). reflexivity.
Qed.

(** The fields that [_parse_touch_event] reads from a line. *)
Lemma event_line_fields gaps trail dev type_part code_part value_str :
  gaps_ok gaps trail = true ->
  is_field dev = true -> is_field type_part = true ->
  is_field code_part = true -> is_field value_str = true ->
  split (strip (event_line gaps trail dev type_part code_part value_str))
  = [dev +:+ ":"; type_part; code_part; value_str]%string.
Proof.
  destruct gaps as [[[g0 g1] g2] g3]. unfold gaps_ok.
  intros H Hdev Htp Hcd Hval.
  repeat (apply andb_prop in H as [H ?]).
  rewrite split_strip. unfold split, event_line.
  rewrite (split_columns trail _ true); [reflexivity| |assumption].
  cbn [well_spaced orb]. rewrite (is_field_colon dev Hdev), Htp, Hcd, Hval.
  repeat (apply andb_true_intro; split); auto.
Qed.

(** X20.  The lines that [getevent -l] prints are read back as the events
    they stand for, whatever the width of the columns: the device id is the
    path before the colon, the value of an axis is its eight hexadecimal
    digits, a report carries no value, and the state of a key is kept. *)
Theorem getevent_lines_parse gaps trail dev v key_code :
  gaps_ok gaps trail = true ->
  is_field dev = true -> no_colon dev = true ->
  0 <= v < 2 ^ 32 ->
  is_field key_code = true ->
  _parse_touch_event
    (event_line gaps trail dev "EV_ABS" "ABS_MT_POSITION_X" (hex8 v))
  = Some (X dev v)
  /\ _parse_touch_event
       (event_line gaps trail dev "EV_ABS" "ABS_MT_POSITION_Y" (hex8 v))
     = Some (Y dev v)
  /\ _parse_touch_event
       (event_line gaps trail dev "EV_SYN" "SYN_REPORT" (hex8 0))
     = Some (SYNC dev)
  /\ _parse_touch_event (event_line gaps trail dev "EV_KEY" key_code "DOWN")
     = Some (KEY dev key_code "DOWN")
  /\ _parse_touch_event (event_line gaps trail dev "EV_KEY" key_code "UP")
     = Some (KEY dev key_code "UP").
Proof.
  intros Hgaps Hdev Hcolon Hv Hkey.
  destruct (hex8_spec v Hv) as (Hhex & Hint & Hfield).
  destruct (hex8_spec 0 ltac:(lia)) as (_ & _ & Hfield0).
  pose proof (before_colon_app dev EmptyString Hcolon) as Hbefore.
  unfold _parse_touch_event. repeat split.
  - rewrite event_line_fields by (assumption || reflexivity).
    rewrite Hbefore. unfold axis_value. rewrite Hhex, Hint. reflexivity.
  - rewrite event_line_fields by (assumption || reflexivity).
    rewrite Hbefore. unfold axis_value. rewrite Hhex, Hint. reflexivity.
  - rewrite event_line_fields by (assumption || reflexivity).
    rewrite Hbefore. reflexivity.
  - rewrite event_line_fields by (assumption || reflexivity).
    rewrite Hbefore. reflexivity.
  - rewrite event_line_fields by (assumption || reflexivity).
    rewrite Hbefore. reflexivity.
Qed.

End EventLines.

(** A line as the device prints it, with its columns. *)
Lemma getevent_lines_parse_witness :
  Events._parse_touch_event
    "/dev/input/event2: EV_ABS       ABS_MT_POSITION_X    00002580"
  = Some (Events.X "/dev/input/event2" 9600).
Proof.
  exact (proj1 (getevent_lines_parse
                  (EmptyString, " ", "       ", "    ")%string EmptyString
                  "/dev/input/event2" 9600 "KEY_A"
                  eq_refl eq_refl eq_refl ltac:(lia) eq_refl)).
Defined.

(** ** The probed range, and the key of an element *)

Section ProbeAndKeys.
Import Recorder Contract Notions Predicates Touch.

Lemma reset_degenerate_orders (g : geometry) :
  let g' := reset_degenerate g in
  _raw_min_x g' = _raw_min_x g /\ _raw_min_y g' = _raw_min_y g
  /\ (_raw_min_x g < 32767 -> _raw_min_x g' < _raw_max_x g')
  /\ (_raw_min_y g < 32767 -> _raw_min_y g' < _raw_max_y g').
Proof.
  unfold reset_degenerate.
  destruct (Z.leb_spec (_raw_max_x g) (_raw_min_x g));
    cbn [set_raw_x _raw_max_y _raw_min_y];
    destruct (Z.leb_spec (_raw_max_y g) (_raw_min_y g)); cbn; repeat split; lia.
Qed.

(** X21.  When the probe of the touch device runs to its end (or cannot be
    run at all) and leaves both minima below 32767, each range has its
    maximum above its minimum, the screen is still 1080 x 2400, and every
    conversion goes through the scaling of the [try] body: the degraded pair
    of the handler is never returned. *)
Theorem probed_range_is_ordered probe :
  (forall lines, probe = Some lines -> snd (scan_lines lines init_geometry) = None) ->
  let g := _init_touch_device_bounds probe init_geometry in
  _raw_min_x g < 32767 -> _raw_min_y g < 32767 ->
  _raw_min_x g < _raw_max_x g /\ _raw_min_y g < _raw_max_y g
  /\ _screen_width g = 1080 /\ _screen_height g = 2400
  /\ forall raw_x raw_y, exists p,
       convert_try g raw_x raw_y = Ok p
       /\ _convert_raw_to_screen g raw_x raw_y = Ok p.
Proof.
  intros Hdone g Hx Hy.
  destruct (init_bounds_screen probe) as [Hw Hh]. fold g in Hw, Hh.
  assert (Hord : _raw_min_x g < _raw_max_x g /\ _raw_min_y g < _raw_max_y g).
  { subst g. unfold _init_touch_device_bounds in *.
    destruct probe as [lines|]; [|cbn; lia].
    specialize (Hdone lines eq_refl).
    destruct (scan_lines lines init_geometry) as [g' [e|]]; [discriminate|].
    destruct (reset_degenerate_orders g') as (Hmx & Hmy & Hox & Hoy).
    split; [apply Hox|apply Hoy]; lia. }
  destruct Hord as [Hox Hoy]. repeat split; try assumption.
  intros raw_x raw_y.
  destruct (scale_axis_truncates raw_x (_raw_min_x g) (_raw_max_x g) (_screen_width g)
              Hox ltac:(rewrite Hw; lia)) as (px & _ & Hsx).
  destruct (scale_axis_truncates raw_y (_raw_min_y g) (_raw_max_y g) (_screen_height g)
              Hoy ltac:(rewrite Hh; lia)) as (py & _ & Hsy).
  unfold _convert_raw_to_screen, convert_try. rewrite Hsx, Hsy. cbn [mbind result_bind].
  eauto.
Qed.




End ProbeAndKeys.

(** A probe that reports the range 0..4095 on both axes. *)
Lemma probed_range_is_ordered_witness :
  let g := Recorder._init_touch_device_bounds
             (Some ["ABS_MT_POSITION_X : min 0 max 4095";
                    "ABS_MT_POSITION_Y : min 0 max 4095"]%string)
             Recorder.init_geometry in
  Recorder._raw_min_x g < Recorder._raw_max_x g
  /\ Recorder._raw_min_y g < Recorder._raw_max_y g.
Proof.
  intros g.
  destruct (probed_range_is_ordered
              (Some ["ABS_MT_POSITION_X : min 0 max 4095";
                     "ABS_MT_POSITION_Y : min 0 max 4095"]%string))
    as (H1 & H2 & _).
  - intros lines [= <-]. vm_compute. reflexivity.
  - vm_compute. reflexivity.
  - vm_compute. reflexivity.
  - exact (conj H1 H2).
Defined.
